(** * The parallel dumper of createrepo_c ([src/dumper_thread.c])

    A shallow embedding of [write_pkg], [load_rpm] and [cr_dumper_thread],
    and of the worker pool that runs [cr_dumper_thread] once per task.

    - Sequential code is written as functions.  The collaborators that the
      file calls but does not define (the XML file, the sqlite mirror, the
      rpm parser, the checksum, [stat]) are variables of the section.
    - Every region that the source runs under one mutex is one atomic step
      of a worker; [g_cond_wait] is a step that is enabled only once the
      awaited counter has the awaited value.
    - A run of the pool is a schedule: the list of the workers that take
      the successive steps. *)

From Stdlib Require Import ZArith String List Bool Lia.
From stdpp Require Import base option list gmap strings sorting.

#[local] Set Warnings "-clear-no-such-hyp".

Local Open Scope Z_scope.

(** ** Data *)

(** [constants.h] *)
Inductive cr_ChecksumType :=
| CR_CHECKSUM_MD5
| CR_CHECKSUM_SHA1
| CR_CHECKSUM_SHA256.

(** [#define MAX_TASK_BUFFER_LEN 20] *)
Definition MAX_TASK_BUFFER_LEN : Z := 20.

(** [long] on LP64: the counters [id_pri], [id_fil], [id_oth], the task id
    and [package_count]. *)
Definition LONG_MAX : Z := 2 ^ 63 - 1.

Definition long_wrap (z : Z) : Z := (z + 2 ^ 63) mod 2 ^ 64 - 2 ^ 63.

(** [x + 1] and [++x] on a [long] *)
Definition long_succ (x : Z) : Z := long_wrap (x + 1).

(** The three output streams. *)
Inductive stream := Pri | Fil | Oth.

Global Instance stream_eq_dec : EqDecision stream.
Proof. solve_decision. Defined.

(** The fields of [struct stat] the file reads. *)
Record Stat := { st_mtime : Z; st_size : Z }.

(** [GError]: only the message is ever used. *)
Definition GError := string.

(** The fields of [cr_Package] the file touches; [pkg_rest] stands for all
    the others. *)
Record cr_Package := {
  pkg_name : string;
  pkg_pkgId : string;
  pkg_checksum_type : string;
  pkg_location_href : string;
  pkg_location_base : option string;
  pkg_time_file : Z;
  pkg_size_package : Z;
  pkg_rpm_header_start : Z;
  pkg_rpm_header_end : Z;
  pkg_rest : string }.

(** [struct cr_XmlStruct] *)
Record cr_XmlStruct := { primary : string; filelists : string; other : string }.

Definition chunk_of (s : stream) (res : cr_XmlStruct) : string :=
  match s with Pri => primary res | Fil => filelists res | Oth => other res end.

(** [struct PoolTask] *)
Record PoolTask := {
  pt_id : Z;
  pt_full_path : string;
  pt_filename : string;
  pt_path : string }.

(** A [cr_Package *] held by a worker: either a package the worker got
    from [load_rpm] and owns, or the address of an entry of the hash table
    of the old metadata, named by its key. *)
Inductive pkg_ptr :=
| FromFile (p : cr_Package)
| FromMd (key : string).

Definition is_md (p : pkg_ptr) : bool :=
  match p with FromMd _ => true | FromFile _ => false end.

(** [struct BufferedTask] *)
Record BufferedTask := {
  bt_id : Z;
  bt_res : cr_XmlStruct;
  bt_pkg : pkg_ptr;
  bt_location_href : option string;
  bt_pkg_from_md : bool }.

(** The read-only fields of [struct UserData]. *)
Record UserData := {
  checksum_type : cr_ChecksumType;
  checksum_type_str : string;
  checksum_cachedir : option string;
  location_base : option string;
  changelog_limit : Z;
  repodir_name_len : nat;
  skip_stat : bool;
  package_count : Z }.

(** What a run leaves behind for an observer. *)
Inductive LogLevel := Critical | Warning | Debug.

Inductive LogMsg :=
| CannotAddChunk (s : stream) (chunk : string) (err : GError)
| CannotAddDb (s : stream) (name pkgId : string) (err : GError)
| StatFailed (full_path : string)
| LoadRpmStatFailed (filename : string)
| CannotReadPackage (full_path : string) (err : GError)
| CannotDumpXml (name pkgId : string) (err : GError)
| CacheHit (filename : string)
| MetadataObsolete (filename : string).

Inductive Event :=
| EvLog (lvl : LogLevel) (msg : LogMsg)
| EvStat (path : string)
| EvAddChunk (s : stream) (id : Z) (chunk : string)
| EvDbAdd (s : stream) (id : Z) (pkg : cr_Package)
| EvSkip (s : stream) (id : Z).

(** [full_path + repodir_name_len] *)
Definition str_offset (n : nat) (s : string) : string :=
  String.substring n (String.length s - n) s.

(** [!strcmp(a, b)] *)
Definition streq (a b : string) : bool := bool_decide (a = b).

Section Dumper.

(** ** Collaborators *)

(** The state of a [cr_XmlFile] and of a [cr_SqliteDb]. *)
Variable F D : Type.

Variable cr_xmlfile_add_chunk : F → string → F * option GError.
Variable cr_db_add_pkg : D → cr_Package → D * option GError.
Variable cr_xml_dump : cr_Package → cr_XmlStruct + GError.
Variable cr_package_from_rpm_base : string → Z → cr_Package + GError.
Variable cr_checksum_file : string → cr_ChecksumType → string + GError.
Variable cr_get_header_byte_range : string → (Z * Z) + GError.
Variable cr_checksum_name_str : cr_ChecksumType → string.
(** [stat(2)]; [None] is the return value -1. *)
Variable stat : string → option Stat.
(** [strerror(errno)] after a failed [stat] of the path. *)
Variable strerror_errno : string → string.

(** ** [write_pkg] *)

(** One stream of [struct UserData]: the counter, the XML file and the
    optional sqlite database. *)
Record Sink := { snk_id : Z; snk_f : F; snk_db : option D }.

(** The mutable part of [struct UserData]. *)
Record Shared := {
  pri : Sink;
  fil : Sink;
  oth : Sink;
  buffer : list BufferedTask;
  old_metadata : option (gmap string cr_Package) }.

Definition sink (s : stream) (sh : Shared) : Sink :=
  match s with Pri => pri sh | Fil => fil sh | Oth => oth sh end.

Definition set_sink (s : stream) (k : Sink) (sh : Shared) : Shared :=
  match s with
  | Pri => {| pri := k; fil := fil sh; oth := oth sh;
              buffer := buffer sh; old_metadata := old_metadata sh |}
  | Fil => {| pri := pri sh; fil := k; oth := oth sh;
              buffer := buffer sh; old_metadata := old_metadata sh |}
  | Oth => {| pri := pri sh; fil := fil sh; oth := k;
              buffer := buffer sh; old_metadata := old_metadata sh |}
  end.

Definition set_buffer (b : list BufferedTask) (sh : Shared) : Shared :=
  {| pri := pri sh; fil := fil sh; oth := oth sh;
     buffer := b; old_metadata := old_metadata sh |}.

Definition set_old_metadata (m : option (gmap string cr_Package)) (sh : Shared)
  : Shared :=
  {| pri := pri sh; fil := fil sh; oth := oth sh;
     buffer := buffer sh; old_metadata := m |}.

Definition id_pri (sh : Shared) : Z := snk_id (pri sh).
Definition id_fil (sh : Shared) : Z := snk_id (fil sh).
Definition id_oth (sh : Shared) : Z := snk_id (oth sh).

(** The body of one of the three blocks of [write_pkg], from the line after
    the [while ... g_cond_wait] loop to [g_mutex_unlock].  [err_arg] tells
    whether the block hands [&tmp_err] to [cr_db_add_pkg] ([true]) or
    [NULL] ([false]). *)
Definition write_block (s : stream) (err_arg : bool) (id : Z)
    (res : cr_XmlStruct) (pkg : cr_Package) (k : Sink) : Sink * list Event :=
  let id' := long_succ (snk_id k) in
  let '(f', tmp_err) := cr_xmlfile_add_chunk (snk_f k) (chunk_of s res) in
  let ev_chunk :=
    EvAddChunk s id (chunk_of s res) ::
    match tmp_err with
    | Some e => [EvLog Critical (CannotAddChunk s (chunk_of s res) e)]
    | None => []
    end in
  (* g_clear_error(&tmp_err) *)
  let tmp_err : option GError := None in
  match snk_db k with
  | Some d =>
      let '(d', e) := cr_db_add_pkg d pkg in
      let tmp_err := if err_arg then e else tmp_err in
      ({| snk_id := id'; snk_f := f'; snk_db := Some d' |},
       ev_chunk ++ EvDbAdd s id pkg ::
       match tmp_err with
       | Some e => [EvLog Critical (CannotAddDb s (pkg_name pkg) (pkg_pkgId pkg) e)]
       | None => []
       end)
  | None => ({| snk_id := id'; snk_f := f'; snk_db := None |}, ev_chunk)
  end.

(** Lines 82-89, 106-113 and 130-137: what each block passes as the last
    argument of [cr_db_add_pkg]. *)
Definition db_err_arg (s : stream) : bool :=
  match s with Pri => true | Fil => true | Oth => false end.

Definition write_stream (s : stream) (id : Z) (res : cr_XmlStruct)
    (pkg : cr_Package) (sh : Shared) : Shared * list Event :=
  let '(k, ev) := write_block s (db_err_arg s) id res pkg (sink s sh) in
  (set_sink s k sh, ev).

(** [write_pkg] run by a worker that is alone: each [while] loop is passed
    at once when its counter already equals [id], and never otherwise. *)
Definition write_pkg (id : Z) (res : cr_XmlStruct) (pkg : cr_Package)
    (sh : Shared) : option (Shared * list Event) :=
  if bool_decide (id_pri sh = id) then
    let '(sh1, ev1) := write_stream Pri id res pkg sh in
    if bool_decide (id_fil sh1 = id) then
      let '(sh2, ev2) := write_stream Fil id res pkg sh1 in
      if bool_decide (id_oth sh2 = id) then
        let '(sh3, ev3) := write_stream Oth id res pkg sh2 in
        Some (sh3, ev1 ++ ev2 ++ ev3)
      else None
    else None
  else None.

(** ** [load_rpm] *)

Definition with_loc (href : string) (base : option string) (p : cr_Package)
  : cr_Package :=
  {| pkg_name := pkg_name p; pkg_pkgId := pkg_pkgId p;
     pkg_checksum_type := pkg_checksum_type p;
     pkg_location_href := href; pkg_location_base := base;
     pkg_time_file := pkg_time_file p; pkg_size_package := pkg_size_package p;
     pkg_rpm_header_start := pkg_rpm_header_start p;
     pkg_rpm_header_end := pkg_rpm_header_end p; pkg_rest := pkg_rest p |}.

Definition with_checksum_type (c : string) (p : cr_Package) : cr_Package :=
  {| pkg_name := pkg_name p; pkg_pkgId := pkg_pkgId p;
     pkg_checksum_type := c;
     pkg_location_href := pkg_location_href p;
     pkg_location_base := pkg_location_base p;
     pkg_time_file := pkg_time_file p; pkg_size_package := pkg_size_package p;
     pkg_rpm_header_start := pkg_rpm_header_start p;
     pkg_rpm_header_end := pkg_rpm_header_end p; pkg_rest := pkg_rest p |}.

Definition with_stat (sb : Stat) (p : cr_Package) : cr_Package :=
  {| pkg_name := pkg_name p; pkg_pkgId := pkg_pkgId p;
     pkg_checksum_type := pkg_checksum_type p;
     pkg_location_href := pkg_location_href p;
     pkg_location_base := pkg_location_base p;
     pkg_time_file := st_mtime sb; pkg_size_package := st_size sb;
     pkg_rpm_header_start := pkg_rpm_header_start p;
     pkg_rpm_header_end := pkg_rpm_header_end p; pkg_rest := pkg_rest p |}.

Definition with_pkgId (c : string) (p : cr_Package) : cr_Package :=
  {| pkg_name := pkg_name p; pkg_pkgId := c;
     pkg_checksum_type := pkg_checksum_type p;
     pkg_location_href := pkg_location_href p;
     pkg_location_base := pkg_location_base p;
     pkg_time_file := pkg_time_file p; pkg_size_package := pkg_size_package p;
     pkg_rpm_header_start := pkg_rpm_header_start p;
     pkg_rpm_header_end := pkg_rpm_header_end p; pkg_rest := pkg_rest p |}.

Definition with_header (r : Z * Z) (p : cr_Package) : cr_Package :=
  {| pkg_name := pkg_name p; pkg_pkgId := pkg_pkgId p;
     pkg_checksum_type := pkg_checksum_type p;
     pkg_location_href := pkg_location_href p;
     pkg_location_base := pkg_location_base p;
     pkg_time_file := pkg_time_file p; pkg_size_package := pkg_size_package p;
     pkg_rpm_header_start := r.1;
     pkg_rpm_header_end := r.2; pkg_rest := pkg_rest p |}.

(** [get_checksum]: the value returned and what is left in [*err]. *)
Definition get_checksum (filename : string) (type : cr_ChecksumType)
    (cachedir : option string) : option string * option GError :=
  match cr_checksum_file filename type with
  | inl checksum => (Some checksum, None)
  | inr tmp_err => (None, Some ("Error while checksum calculation: " +:+ tmp_err))
  end.

(** The outcome of [load_rpm]: the returned pointer and what the call
    leaves in [*err]. *)
Record LoadResult := {
  lr_pkg : option cr_Package;
  lr_err : option GError;
  lr_events : list Event }.

Definition load_rpm (filename : string) (checksum_type : cr_ChecksumType)
    (checksum_cachedir : option string) (location_href : string)
    (location_base : option string) (changelog_limit : Z)
    (stat_buf : option Stat) : LoadResult :=
  match cr_package_from_rpm_base filename changelog_limit with
  | inr e => {| lr_pkg := None; lr_err := Some e; lr_events := [] |}
  | inl pkg =>
    let pkg := with_loc location_href location_base pkg in
    let pkg := with_checksum_type (cr_checksum_name_str checksum_type) pkg in
    (* Get file stat *)
    let stat_res : option cr_Package * list Event :=
      match stat_buf with
      | None =>
          match stat filename with
          | None => (None, [EvStat filename;
                            EvLog Warning (LoadRpmStatFailed filename)])
          | Some stat_buf_own => (Some (with_stat stat_buf_own pkg),
                                  [EvStat filename])
          end
      | Some sb => (Some (with_stat sb pkg), [])
      end in
    match stat_res with
    | (None, ev) =>
        {| lr_pkg := None;
           lr_err := Some ("stat(" +:+ filename +:+ ") failed: "
                           +:+ strerror_errno filename);
           lr_events := ev |}
    | (Some pkg, ev) =>
      (* Compute checksum: the error goes to the local tmp_err and *err
         stays as it was *)
      match get_checksum filename checksum_type checksum_cachedir with
      | (None, _) => {| lr_pkg := None; lr_err := None; lr_events := ev |}
      | (Some checksum, _) =>
        let pkg := with_pkgId checksum pkg in
        (* Get header range *)
        match cr_get_header_byte_range filename with
        | inr tmp_err =>
            {| lr_pkg := None;
               lr_err := Some ("Error while determinig header range: " +:+ tmp_err);
               lr_events := ev |}
        | inl hdr_r =>
            {| lr_pkg := Some (with_header hdr_r pkg); lr_err := None;
               lr_events := ev |}
        end
      end
    end
  end.

(** ** [cr_dumper_thread] *)

(** Line 248: [task->full_path + udata->repodir_name_len] *)
Definition location_href_of (u : UserData) (task : PoolTask) : string :=
  str_offset (repodir_name_len u) (pt_full_path task).

(** Lines 251-257.  [stat_buf] is [None] while the local [struct stat] has
    not been written. *)
Inductive StatOutcome :=
| StatError
| StatDone (stat_buf : option Stat).

Definition stat_phase (u : UserData) (omd : option (gmap string cr_Package))
    (task : PoolTask) : StatOutcome * list Event :=
  if bool_decide (is_Some omd) && negb (skip_stat u) then
    match stat (pt_full_path task) with
    | None => (StatError, [EvStat (pt_full_path task);
                           EvLog Critical (StatFailed (pt_full_path task))])
    | Some sb => (StatDone (Some sb), [EvStat (pt_full_path task)])
    end
  else (StatDone None, []).

(** Lines 259-289: the new hash table, [old_used] and the log.  The result
    is [None] when the comparison of line 271 reads a [stat_buf] that was
    never written. *)
Definition update_phase (u : UserData) (omd : option (gmap string cr_Package))
    (task : PoolTask) (stat_buf : option Stat)
  : option (option (gmap string cr_Package) * bool * list Event) :=
  match omd with
  | None => Some (omd, false, [])
  | Some ht =>
    match ht !! pt_filename task with
    | None => Some (omd, false, [])
    | Some md =>
      let hit := EvLog Debug (CacheHit (pt_filename task)) in
      let old_used : option bool :=
        if skip_stat u then Some true
        else
          match stat_buf with
          | None => None
          | Some sb =>
              Some (bool_decide (st_mtime sb = pkg_time_file md)
                    && bool_decide (st_size sb = pkg_size_package md)
                    && streq (checksum_type_str u) (pkg_checksum_type md))
          end in
      match old_used with
      | None => None
      | Some true =>
          Some (Some (<[pt_filename task :=
                          with_loc (location_href_of u task) (location_base u) md]> ht),
                true, [hit])
      | Some false =>
          Some (omd, false,
                [hit; EvLog Debug (MetadataObsolete (pt_filename task))])
      end
    end
  end.

(** Lines 291-324. *)
Inductive LoadOutcome :=
| LoadAbort                                   (* assert(pkg || tmp_err) fails *)
| LoadFailed                                  (* goto task_cleanup *)
| Loaded (res : cr_XmlStruct) (pkg : pkg_ptr).

Definition dump_phase (pkg : cr_Package) (ptr : pkg_ptr)
  : LoadOutcome * list Event :=
  match cr_xml_dump pkg with
  | inl res => (Loaded res ptr, [])
  | inr e => (LoadFailed,
              [EvLog Critical (CannotDumpXml (pkg_name pkg) (pkg_pkgId pkg) e)])
  end.

(** Lines 293-313, with [passed] for the seventh argument of [load_rpm]. *)
Definition load_fresh_with (u : UserData) (task : PoolTask)
    (passed : option Stat) : LoadOutcome * list Event :=
  let r := load_rpm (pt_full_path task) (checksum_type u)
             (checksum_cachedir u) (location_href_of u task)
             (location_base u) (changelog_limit u) passed in
  match lr_pkg r, lr_err r with
  | None, None => (LoadAbort, lr_events r)
  | None, Some e =>
      (LoadFailed,
       lr_events r ++ [EvLog Warning (CannotReadPackage (pt_full_path task) e)])
  | Some pkg, _ =>
      let '(o, ev) := dump_phase pkg (FromFile pkg) in
      (o, lr_events r ++ ev)
  end.

(** Lines 291-324; [stat_buf] is the local of that name, which is still in
    scope here.  The seventh argument of [load_rpm] at line 297 is [NULL].
    The result is [None] when [md] does not point to an entry of the
    table. *)
Definition load_phase (u : UserData) (omd : option (gmap string cr_Package))
    (task : PoolTask) (stat_buf : option Stat) (old_used : bool)
  : option (LoadOutcome * list Event) :=
  if negb old_used then Some (load_fresh_with u task None)
  else
    match omd ≫= (λ ht, ht !! pt_filename task) with
    | None => None
    | Some md => Some (dump_phase md (FromMd (pt_filename task)))
    end.

(** Lines 246-324 run by a worker that no other worker interrupts. *)
Definition prepare (u : UserData) (omd : option (gmap string cr_Package))
    (task : PoolTask)
  : option (option (gmap string cr_Package) * LoadOutcome * list Event) :=
  match stat_phase u omd task with
  | (StatError, ev) => Some (omd, LoadFailed, ev)
  | (StatDone stat_buf, ev1) =>
      match update_phase u omd task stat_buf with
      | None => None
      | Some (omd', old_used, ev2) =>
          match load_phase u omd' task stat_buf old_used with
          | None => None
          | Some (o, ev3) => Some (omd', o, ev1 ++ ev2 ++ ev3)
          end
      end
  end.

(** Lines 329-331: the test made under [mutex_buffer]. *)
Definition buffer_admits (u : UserData) (sh : Shared) (task : PoolTask) : bool :=
  bool_decide (Z.of_nat (length (buffer sh)) < MAX_TASK_BUFFER_LEN)
  && negb (bool_decide (id_pri sh = pt_id task))
  && bool_decide (long_succ (pt_id task) < package_count u).

(** [buf_task_sort_func] *)
Definition buf_task_sort_func (a b : BufferedTask) : Z :=
  if bool_decide (bt_id a < bt_id b) then -1
  else if bool_decide (bt_id a = bt_id b) then 0
  else 1.

(** GLib's [g_queue_insert_sorted]: the new element goes before the first
    one that does not compare below it. *)
Fixpoint g_queue_insert_sorted (q : list BufferedTask) (x : BufferedTask)
  : list BufferedTask :=
  match q with
  | [] => [x]
  | y :: q' =>
      if bool_decide (buf_task_sort_func y x < 0)
      then y :: g_queue_insert_sorted q' x
      else x :: q
  end.

(** Lines 339-355. *)
Definition deposit (u : UserData) (sh : Shared) (task : PoolTask)
    (res : cr_XmlStruct) (pkg : pkg_ptr) : Shared :=
  let buf_task :=
    {| bt_id := pt_id task; bt_res := res; bt_pkg := pkg;
       bt_location_href :=
         if is_md pkg then Some (location_href_of u task) else None;
       bt_pkg_from_md := is_md pkg |} in
  let sh :=
    match pkg with
    | FromMd key =>
        set_old_metadata
          (alter (λ p, with_loc (location_href_of u task) (pkg_location_base p) p)
                 key <$> old_metadata sh) sh
    | FromFile _ => sh
    end in
  set_buffer (g_queue_insert_sorted (buffer sh) buf_task) sh.

(** Lines 411-414: the head of the buffer, when it is the next to write. *)
Definition drain_peek (sh : Shared) : option BufferedTask :=
  match buffer sh with
  | buf_task :: _ =>
      if bool_decide (bt_id buf_task = id_pri sh) then Some buf_task else None
  | [] => None
  end.

(** What [pkg] points to. *)
Definition deref (sh : Shared) (pkg : pkg_ptr) : option cr_Package :=
  match pkg with
  | FromFile p => Some p
  | FromMd key => old_metadata sh ≫= (λ ht, ht !! key)
  end.

(** The failure path, lines 381-386, 388-393 and 395-400: one block. *)
Definition skip_block (s : stream) (id : Z) (sh : Shared) : Shared * list Event :=
  let k := sink s sh in
  (set_sink s {| snk_id := long_succ (snk_id k); snk_f := snk_f k;
                 snk_db := snk_db k |} sh,
   [EvSkip s id]).

(** ** The workers *)

(** Which call of [write_pkg] a worker is in: line 369 or line 417. *)
Inductive caller := Main | Drain.

(** Where a worker stands in [cr_dumper_thread], with the locals that are
    live there.  [L_task_cleanup] records how the label was reached: by a
    [goto] ([true]) or by falling through after [write_pkg] ([false]); no
    step reads that flag. *)
Inductive pc :=
| Queued
| L_stat
| L_update (stat_buf : option Stat)
| L_load (stat_buf : option Stat) (old_used : bool)
| L_buffering (res : cr_XmlStruct) (pkg : pkg_ptr)
| L_write (s : stream) (id : Z) (res : cr_XmlStruct) (pkg : pkg_ptr) (c : caller)
| L_task_cleanup (failed : bool)
| L_skip (s : stream)
| L_drain
| Aborted
| Returned.

Definition after_write (s : stream) (id : Z) (res : cr_XmlStruct)
    (pkg : pkg_ptr) (c : caller) : pc :=
  match s with
  | Pri => L_write Fil id res pkg c
  | Fil => L_write Oth id res pkg c
  | Oth => match c with Main => L_task_cleanup false | Drain => L_drain end
  end.

Definition after_skip (s : stream) : pc :=
  match s with Pri => L_skip Fil | Fil => L_skip Oth | Oth => L_drain end.

(** One atomic step of a worker on [task]; [None] when the worker cannot
    move (it waits on a condition, or it is done). *)
Definition thread_step (u : UserData) (task : PoolTask) (p : pc) (sh : Shared)
  : option (pc * Shared * list Event) :=
  match p with
  | Queued => Some (L_stat, sh, [])
  | L_stat =>
      match stat_phase u (old_metadata sh) task with
      | (StatError, ev) => Some (L_task_cleanup true, sh, ev)
      | (StatDone stat_buf, ev) => Some (L_update stat_buf, sh, ev)
      end
  | L_update stat_buf =>
      match update_phase u (old_metadata sh) task stat_buf with
      | None => None
      | Some (omd, old_used, ev) =>
          Some (L_load stat_buf old_used, set_old_metadata omd sh, ev)
      end
  | L_load stat_buf old_used =>
      match load_phase u (old_metadata sh) task stat_buf old_used with
      | None => None
      | Some (LoadAbort, ev) => Some (Aborted, sh, ev)
      | Some (LoadFailed, ev) => Some (L_task_cleanup true, sh, ev)
      | Some (Loaded res pkg, ev) => Some (L_buffering res pkg, sh, ev)
      end
  | L_buffering res pkg =>
      if buffer_admits u sh task
      then Some (Returned, deposit u sh task res pkg, [])
      else Some (L_write Pri (pt_id task) res pkg Main, sh, [])
  | L_write s id res pkg c =>
      if bool_decide (snk_id (sink s sh) = id) then
        match deref sh pkg with
        | None => None
        | Some p =>
            let '(sh', ev) := write_stream s id res p sh in
            Some (after_write s id res pkg c, sh', ev)
        end
      else None
  | L_task_cleanup _ =>
      if bool_decide (id_pri sh ≤ pt_id task)
      then Some (L_skip Pri, sh, [])
      else Some (L_drain, sh, [])
  | L_skip s =>
      if bool_decide (snk_id (sink s sh) = pt_id task) then
        let '(sh', ev) := skip_block s (pt_id task) sh in
        Some (after_skip s, sh', ev)
      else None
  | L_drain =>
      match drain_peek sh with
      | Some buf_task =>
          Some (L_write Pri (bt_id buf_task) (bt_res buf_task)
                        (bt_pkg buf_task) Drain,
                set_buffer (tail (buffer sh)) sh, [])
      | None => Some (Returned, sh, [])
      end
  | Aborted => None
  | Returned => None
  end.

(** The pool: the mutable part of [struct UserData], where each worker
    stands (worker [i] runs the [i]-th task), and what the workers have done
    so far, each action with the worker that did it. *)
Record System := {
  shared : Shared;
  threads : list pc;
  events : list (nat * Event) }.

Definition running (p : pc) : bool :=
  match p with Queued | Returned => false | _ => true end.

Definition is_aborted (p : pc) : bool :=
  match p with Aborted => true | _ => false end.

Definition is_queued (p : pc) : bool :=
  match p with Queued => true | _ => false end.

Definition active (ths : list pc) : nat := length (filter (λ p, running p = true) ths).

(** Modelled from the spec: the thread pool of section 5 (its code is not
    in the source files at hand): a fixed number [max_threads] of workers,
    each of which takes any task still in the queue when it is free.  The
    process is gone as soon as one worker has called [abort]. *)
Definition step (u : UserData) (tasks : list PoolTask) (max_threads : nat)
    (i : nat) (st : System) : option System :=
  if existsb is_aborted (threads st) then None else
  match tasks !! i, threads st !! i with
  | Some task, Some p =>
      if is_queued p && negb (bool_decide (active (threads st) < max_threads)%nat)
      then None
      else
        match thread_step u task p (shared st) with
        | None => None
        | Some (p', sh', ev) =>
            Some {| shared := sh'; threads := <[i := p']> (threads st);
                    events := events st ++ ((λ e, (i, e)) <$> ev) |}
        end
  | _, _ => None
  end.

(** A run under a schedule. *)
Fixpoint run (u : UserData) (tasks : list PoolTask) (max_threads : nat)
    (sched : list nat) (st : System) : option System :=
  match sched with
  | [] => Some st
  | i :: sched' =>
      match step u tasks max_threads i st with
      | None => None
      | Some st' => run u tasks max_threads sched' st'
      end
  end.

Definition init (sh : Shared) (tasks : list PoolTask) : System :=
  {| shared := sh; threads := (λ _, Queued) <$> tasks; events := [] |}.

Definition all_returned (st : System) : Prop :=
  Forall (λ p, p = Returned) (threads st).

(** ** Who is in charge of an id *)

(** The order in which [write_pkg] and the failure path go through the
    streams. *)
Definition stream_le (a b : stream) : bool :=
  match a, b with
  | Pri, _ => true
  | Fil, Pri => false
  | Fil, _ => true
  | Oth, Oth => true
  | Oth, _ => false
  end.

(** The id that a worker has still to take past the counter of stream [s]:
    that of its own task [own] until it has written or skipped it, or that
    of the result it took from the buffer. *)
Definition holds (s : stream) (own : Z) (p : pc) : list Z :=
  match p with
  | Queued | L_stat | L_update _ | L_load _ _ | L_buffering _ _ | Aborted => [own]
  | L_task_cleanup failed => if failed then [own] else []
  | L_write s' id _ _ _ => if stream_le s' s then [id] else []
  | L_skip s' => if stream_le s' s then [own] else []
  | L_drain | Returned => []
  end.

(** All the ids that have still to pass the counter of stream [s]: those the
    workers hold and those that wait in the buffer. *)
Definition pending (s : stream) (ths : list pc) (buf : list BufferedTask)
  : list Z :=
  concat (imap (λ i p, holds s (Z.of_nat i) p) ths) ++ (bt_id <$> buf).

(** The worker has advanced [id_pri] and has not yet looked at the buffer
    since. *)
Definition will_drain (p : pc) : bool :=
  match p with
  | L_write Fil _ _ _ _ | L_write Oth _ _ _ _ => true
  | L_task_cleanup false => true
  | L_skip Fil | L_skip Oth => true
  | L_drain => true
  | _ => false
  end.

Definition thread_ok (idp : Z) (own : Z) (p : pc) : Prop :=
  match p with
  | L_write s id _ _ c => (c = Main → id = own) ∧ (s ≠ Pri → id < idp)
  | L_task_cleanup false => own < idp
  | _ => True
  end.

(** The invariant of the counters, the buffer and the workers; [n] is the
    number of tasks. *)
Record core_inv (n : Z) (sh : Shared) (ths : list pc) : Prop := {
  ci_len : Z.of_nat (length ths) = n;
  ci_bounds : ∀ s, 0 ≤ snk_id (sink s sh) ≤ n;
  ci_pending : ∀ s,
    pending s ths (buffer sh)
    ≡ₚ seqZ (snk_id (sink s sh)) (n - snk_id (sink s sh));
  ci_threads : ∀ i p, ths !! i = Some p → thread_ok (id_pri sh) (Z.of_nat i) p;
  ci_drain :
    id_pri sh ∈ bt_id <$> buffer sh →
    ∃ d p, ths !! d = Some p ∧ will_drain p = true;
  ci_sorted : StronglySorted (λ a b, bt_id a ≤ bt_id b) (buffer sh);
  ci_buflen : Z.of_nat (length (buffer sh)) ≤ MAX_TASK_BUFFER_LEN }.

(** The state of [struct UserData] before the first task is pushed: the
    counters at 0 and the buffer empty. *)
Definition fresh (sh : Shared) : Prop :=
  (∀ s, snk_id (sink s sh) = 0) ∧ buffer sh = [].

(** ** What the record of a run says *)

(** The id of a record appended to stream [s], of a skip of stream [s], and
    of either. *)
Definition written_id (s : stream) (e : Event) : option Z :=
  match e with
  | EvAddChunk s' id _ => if decide (s' = s) then Some id else None
  | _ => None
  end.

Definition skipped_id (s : stream) (e : Event) : option Z :=
  match e with
  | EvSkip s' id => if decide (s' = s) then Some id else None
  | _ => None
  end.

Definition advanced_id (s : stream) (e : Event) : option Z :=
  match e with
  | EvAddChunk s' id _ | EvSkip s' id => if decide (s' = s) then Some id else None
  | _ => None
  end.

Definition project (f : Event → option Z) (evs : list (nat * Event)) : list Z :=
  omap (λ we, f we.2) evs.

(** How many times [id] occurs. *)
Definition occurrences (id : Z) (l : list Z) : nat :=
  length (filter (λ x, x = id) l).

(** The number of times the record of task [id] was handed to
    [cr_xmlfile_add_chunk] for stream [s] (whether the call succeeded is
    not looked at), and the number of times the failure path took the
    counter of [s] past [id]. *)
Definition records (s : stream) (id : Z) (evs : list (nat * Event)) : nat :=
  occurrences id (project (written_id s) evs).

Definition skips (s : stream) (id : Z) (evs : list (nat * Event)) : nat :=
  occurrences id (project (skipped_id s) evs).




(** The three messages that precede a [goto task_cleanup]: lines 254, 301
    and 309/319. *)
Definition is_failure (e : Event) : bool :=
  match e with
  | EvLog _ (StatFailed _) => true
  | EvLog _ (CannotReadPackage _ _) => true
  | EvLog _ (CannotDumpXml _ _ _) => true
  | _ => false
  end.

(** The worker of task [id] has reported that the task failed. *)
Definition failed (evs : list (nat * Event)) (id : Z) : Prop :=
  ∃ w e, (w, e) ∈ evs ∧ Z.of_nat w = id ∧ is_failure e = true.

(** [failed], computed. *)
Definition failedb (evs : list (nat * Event)) (id : Z) : bool :=
  existsb (λ we, bool_decide (Z.of_nat we.1 = id) && is_failure we.2) evs.

Definition trace_ok (evs : list (nat * Event)) (own : Z) (p : pc) : Prop :=
  match p with
  | Queued | L_stat | L_update _ | L_load _ _ | L_buffering _ _ => ¬ failed evs own
  | L_write _ id _ _ _ => ¬ failed evs id
  | L_task_cleanup true | L_skip _ => failed evs own
  | _ => True
  end.

(** The invariant that ties the record of the run to the counters. *)
Record trace_inv (sh : Shared) (ths : list pc) (evs : list (nat * Event))
  : Prop := {
  ti_adv : ∀ s, project (advanced_id s) evs = seqZ 0 (snk_id (sink s sh));
  ti_written : ∀ s id, id ∈ project (written_id s) evs → ¬ failed evs id;
  ti_skipped : ∀ s id, id ∈ project (skipped_id s) evs → failed evs id;
  ti_threads : ∀ i p, ths !! i = Some p → trace_ok evs (Z.of_nat i) p;
  ti_buffer : ∀ bt, bt ∈ buffer sh → ¬ failed evs (bt_id bt) }.

(** The invariant of a pool that runs [n] tasks. *)
Definition pool_inv (n : Z) (st : System) : Prop :=
  core_inv n (shared st) (threads st) ∧
  trace_inv (shared st) (threads st) (events st).

(** ** The serial reference *)

(** The failure path run by a worker that is alone: lines 379-401, each
    wait passed at once. *)
Definition skip_pkg (id : Z) (sh : Shared) : option (Shared * list Event) :=
  if bool_decide (id_pri sh = id) then
    let '(sh1, ev1) := skip_block Pri id sh in
    if bool_decide (id_fil sh1 = id) then
      let '(sh2, ev2) := skip_block Fil id sh1 in
      if bool_decide (id_oth sh2 = id) then
        let '(sh3, ev3) := skip_block Oth id sh2 in
        Some (sh3, ev1 ++ ev2 ++ ev3)
      else None
    else None
  else None.

(** The serial run of the specification: the tasks are processed one after
    the other, in the order of their ids; each one is prepared, then written
    to the three streams if that succeeded and skipped if it failed.  There
    is no result ([None]) when the process aborts. *)
Definition serial_one (u : UserData) (task : PoolTask) (sh : Shared)
  : option Shared :=
  match prepare u (old_metadata sh) task with
  | Some (omd, Loaded res pkg, _) =>
      let sh := set_old_metadata omd sh in
      match deref sh pkg with
      | Some pk => fst <$> write_pkg (pt_id task) res pk sh
      | None => None
      end
  | Some (omd, LoadFailed, _) =>
      fst <$> skip_pkg (pt_id task) (set_old_metadata omd sh)
  | Some (_, LoadAbort, _) | None => None
  end.

Fixpoint serial_run (u : UserData) (tasks : list PoolTask) (sh : Shared)
  : option Shared :=
  match tasks with
  | [] => Some sh
  | task :: tasks' =>
      match serial_one u task sh with
      | Some sh' => serial_run u tasks' sh'
      | None => None
      end
  end.

(** ** What each task must produce *)

(** A package with its two location fields blanked. *)
Definition strip (p : cr_Package) : cr_Package := with_loc EmptyString None p.

Definition entry (omd : option (gmap string cr_Package)) (key : string)
  : option cr_Package :=
  omd ≫= (λ ht, ht !! key).

(** The table of the old metadata is the one the run started with, up to
    the location fields of its entries. *)
Definition store_rel (md0 omd : option (gmap string cr_Package)) : Prop :=
  (is_Some omd ↔ is_Some md0) ∧
  ∀ key, strip <$> entry omd key = strip <$> entry md0 key.

(** The entry of the task in the table, with the locations of the task. *)
Definition exp_entry (u : UserData) (md0 : option (gmap string cr_Package))
    (task : PoolTask) : option cr_Package :=
  with_loc (location_href_of u task) (location_base u)
    <$> entry md0 (pt_filename task).

(** What lines 246-324 give for the task, on the table the run started
    with. *)
Definition outcome_of (u : UserData) (md0 : option (gmap string cr_Package))
    (task : PoolTask) : option LoadOutcome :=
  (λ r, r.1.2) <$> prepare u md0 task.

Definition ptr_ok (u : UserData) (md0 omd : option (gmap string cr_Package))
    (task : PoolTask) (pkg : pkg_ptr) : Prop :=
  match pkg with
  | FromFile _ => True
  | FromMd key => key = pt_filename task ∧ entry omd key = exp_entry u md0 task
  end.

(** The result [res], [pkg] is the one of the task of that id. *)
Definition job_ok (u : UserData) (tasks : list PoolTask)
    (md0 omd : option (gmap string cr_Package)) (id : Z)
    (res : cr_XmlStruct) (pkg : pkg_ptr) : Prop :=
  ∃ task, tasks !! Z.to_nat id = Some task ∧ pt_id task = id ∧
          outcome_of u md0 task = Some (Loaded res pkg) ∧
          ptr_ok u md0 omd task pkg.

Definition data_ok (u : UserData) (tasks : list PoolTask)
    (md0 omd : option (gmap string cr_Package)) (task : PoolTask) (p : pc)
  : Prop :=
  match p with
  | L_update stat_buf => (stat_phase u md0 task).1 = StatDone stat_buf
  | L_load stat_buf old_used =>
      (stat_phase u md0 task).1 = StatDone stat_buf ∧
      (∃ omd' ev, update_phase u md0 task stat_buf = Some (omd', old_used, ev)) ∧
      (old_used = true →
       entry omd (pt_filename task) = exp_entry u md0 task)
  | L_buffering res pkg => job_ok u tasks md0 omd (pt_id task) res pkg
  | L_write _ id res pkg _ => job_ok u tasks md0 omd id res pkg
  | L_task_cleanup true | L_skip _ => outcome_of u md0 task = Some LoadFailed
  | _ => True
  end.

(** One task of the serial run, seen from stream [s]. *)
Definition serial_step (u : UserData) (md0 : option (gmap string cr_Package))
    (s : stream) (k : Sink) (task : PoolTask) : Sink :=
  match outcome_of u md0 task with
  | Some (Loaded res pkg) =>
      match pkg, exp_entry u md0 task with
      | FromFile pk, _ | FromMd _, Some pk =>
          (write_block s (db_err_arg s) (pt_id task) res pk k).1
      | FromMd _, None => k
      end
  | _ => {| snk_id := long_succ (snk_id k); snk_f := snk_f k;
            snk_db := snk_db k |}
  end.

Definition serial_sink (u : UserData) (md0 : option (gmap string cr_Package))
    (s : stream) (tasks : list PoolTask) (k : Sink) : Sink :=
  foldl (serial_step u md0 s) k tasks.

(** The invariant that ties the streams to the serial run; [sh0] is the
    state the run started with. *)
Record data_inv (u : UserData) (tasks : list PoolTask) (sh0 sh : Shared)
    (ths : list pc) : Prop := {
  di_store : store_rel (old_metadata sh0) (old_metadata sh);
  di_sinks : ∀ s,
    sink s sh
    = serial_sink u (old_metadata sh0) s
        (take (Z.to_nat (snk_id (sink s sh))) tasks) (sink s sh0);
  di_threads : ∀ i task p,
    tasks !! i = Some task → ths !! i = Some p →
    data_ok u tasks (old_metadata sh0) (old_metadata sh) task p;
  di_buffer : ∀ bt,
    bt ∈ buffer sh →
    job_ok u tasks (old_metadata sh0) (old_metadata sh)
      (bt_id bt) (bt_res bt) (bt_pkg bt);
  di_done : ∀ i task,
    tasks !! i = Some task → Z.of_nat i < id_pri sh →
    ∃ o, outcome_of u (old_metadata sh0) task = Some o ∧ o ≠ LoadAbort }.

(** What one step adds to the record. *)
Definition step_written (p : pc) (s' : stream) : list Z :=
  match p with
  | L_write s id _ _ _ => if decide (s = s') then [id] else []
  | _ => []
  end.

Definition step_skipped (own : Z) (p : pc) (s' : stream) : list Z :=
  match p with
  | L_skip s => if decide (s = s') then [own] else []
  | _ => []
  end.

Definition step_fails (p p' : pc) : bool :=
  match p, p' with
  | L_stat, L_task_cleanup true => true
  | L_load _ _, L_task_cleanup true => true
  | _, _ => false
  end.

(** ** File names that are all different *)

(** A name made of [i] letters. *)
Fixpoint unary (i : nat) : string :=
  match i with
  | O => EmptyString
  | S i => "a" +:+ unary i
  end.

(** The task with another file name. *)
Definition with_filename (name : string) (task : PoolTask) : PoolTask :=
  {| pt_id := pt_id task; pt_full_path := pt_full_path task;
     pt_filename := name; pt_path := pt_path task |}.

(** The tasks, each with a file name of its own. *)
Definition renamed (tasks : list PoolTask) : list PoolTask :=
  imap (λ i task, with_filename (unary i) task) tasks.

(** Two tasks on the same file, with the same id. *)
Definition same_file (a b : PoolTask) : Prop :=
  pt_id a = pt_id b ∧ pt_full_path a = pt_full_path b.

(** ** How far a worker is from its return *)

(** An upper bound of the number of steps the worker has before it returns,
    the results it may still take from the buffer left aside. *)
Definition rank (p : pc) : nat :=
  match p with
  | Queued => 13
  | L_stat => 12
  | L_update _ => 11
  | L_load _ _ => 10
  | L_buffering _ _ => 9
  | L_write Pri _ _ _ Main => 8
  | L_write Fil _ _ _ Main => 7
  | L_write Oth _ _ _ Main => 6
  | L_task_cleanup _ => 5
  | L_write Pri _ _ _ Drain | L_skip Pri => 4
  | L_write Fil _ _ _ Drain | L_skip Fil => 3
  | L_write Oth _ _ _ Drain | L_skip Oth => 2
  | L_drain => 1
  | Aborted | Returned => 0
  end%nat.

(** Each result in the buffer costs the worker that takes it four steps. *)
Definition weight (st : System) : nat :=
  sum_list (rank <$> threads st) + 4 * length (buffer (shared st)).

(** ** The configuration *)

(** [udata] with another [checksum_cachedir]. *)
Definition with_cachedir (cd : option string) (u : UserData) : UserData :=
  {| checksum_type := checksum_type u;
     checksum_type_str := checksum_type_str u;
     checksum_cachedir := cd;
     location_base := location_base u;
     changelog_limit := changelog_limit u;
     repodir_name_len := repodir_name_len u;
     skip_stat := skip_stat u;
     package_count := package_count u |}.

(** ** A worker that runs alone *)

(** The worker on [task] goes from [p] to [p'] by steps of its own, none of
    which is a call of [abort]. *)
Inductive thread_runs (u : UserData) (task : PoolTask)
  : pc → Shared → pc → Shared → Prop :=
| runs_done (p : pc) (sh : Shared) : thread_runs u task p sh p sh
| runs_step (p p1 p' : pc) (sh sh1 sh' : Shared) (ev : list Event) :
    thread_step u task p sh = Some (p1, sh1, ev) →
    is_aborted p1 = false →
    thread_runs u task p1 sh1 p' sh' →
    thread_runs u task p sh p' sh'.

(** Every worker but the [i]-th is still in the queue or has returned. *)
Definition alone (i : nat) (ths : list pc) : Prop :=
  ∀ j q, j ≠ i → ths !! j = Some q → q = Queued ∨ q = Returned.

(** ** Pointers into the table *)

(** The pointers a worker holds point to entries of the table. *)
Definition live_ok (sh : Shared) (task : PoolTask) (p : pc) : Prop :=
  match p with
  | L_load _ true => is_Some (entry (old_metadata sh) (pt_filename task))
  | L_buffering _ pkg | L_write _ _ _ pkg _ => is_Some (deref sh pkg)
  | _ => True
  end.

Record live_inv (tasks : list PoolTask) (sh : Shared) (ths : list pc) : Prop := {
  li_threads : ∀ i task p,
    tasks !! i = Some task → ths !! i = Some p → live_ok sh task p;
  li_buffer : ∀ bt, bt ∈ buffer sh → is_Some (deref sh (bt_pkg bt)) }.

(** The worker waits on a condition variable, or has no step left. *)
Definition waits (sh : Shared) (task : PoolTask) (p : pc) : Prop :=
  match p with
  | L_write s id _ _ _ => snk_id (sink s sh) ≠ id
  | L_skip s => snk_id (sink s sh) ≠ pt_id task
  | Aborted | Returned => True
  | _ => False
  end.

(** ** Properties of the sequential code *)

(** Membership in a list that is written out. *)
Ltac list_mem :=
  intros; rewrite ?elem_of_app, ?elem_of_cons, ?elem_of_nil in *; naive_solver.

Lemma long_succ_exact (x : Z) : - 2 ^ 63 ≤ x < LONG_MAX → long_succ x = x + 1.
Proof.
  unfold long_succ, long_wrap, LONG_MAX. intros Hx.
  rewrite Z.mod_small by lia. lia.
Qed.

Lemma sink_set_sink_eq (s : stream) (k : Sink) (sh : Shared) :
  sink s (set_sink s k sh) = k.
Proof. by destruct s. Qed.

Lemma sink_set_sink_ne (s s' : stream) (k : Sink) (sh : Shared) :
  s ≠ s' → sink s' (set_sink s k sh) = sink s' sh.
Proof. by destruct s, s'. Qed.

Lemma buffer_set_sink (s : stream) (k : Sink) (sh : Shared) :
  buffer (set_sink s k sh) = buffer sh.
Proof. by destruct s. Qed.

Lemma old_metadata_set_sink (s : stream) (k : Sink) (sh : Shared) :
  old_metadata (set_sink s k sh) = old_metadata sh.
Proof. by destruct s. Qed.

(** *** [write_pkg] *)

Lemma write_block_id (s : stream) (b : bool) (id : Z) (res : cr_XmlStruct)
    (pkg : cr_Package) (k : Sink) :
  snk_id (write_block s b id res pkg k).1 = long_succ (snk_id k).
Proof.
  unfold write_block. destruct (cr_xmlfile_add_chunk _ _) as [f' e].
  destruct (snk_db k) as [d|]; [|done].
  by destruct (cr_db_add_pkg d pkg).
Qed.

Lemma write_block_f (s : stream) (b : bool) (id : Z) (res : cr_XmlStruct)
    (pkg : cr_Package) (k : Sink) :
  snk_f (write_block s b id res pkg k).1
  = (cr_xmlfile_add_chunk (snk_f k) (chunk_of s res)).1.
Proof.
  unfold write_block. destruct (cr_xmlfile_add_chunk _ _) as [f' e].
  destruct (snk_db k) as [d|]; [|done].
  by destruct (cr_db_add_pkg d pkg).
Qed.

Lemma write_block_db (s : stream) (b : bool) (id : Z) (res : cr_XmlStruct)
    (pkg : cr_Package) (k : Sink) :
  snk_db (write_block s b id res pkg k).1
  = (λ d, (cr_db_add_pkg d pkg).1) <$> snk_db k.
Proof.
  unfold write_block. destruct (cr_xmlfile_add_chunk _ _) as [f' e].
  destruct (snk_db k) as [d|]; [|done].
  simpl. by destruct (cr_db_add_pkg d pkg).
Qed.

(** A failed append is logged at the critical level, in every block. *)
Lemma write_block_logs_chunk_failure (s : stream) (b : bool) (id : Z)
    (res : cr_XmlStruct) (pkg : cr_Package) (k : Sink) (f' : F) (e : GError) :
  cr_xmlfile_add_chunk (snk_f k) (chunk_of s res) = (f', Some e) →
  EvLog Critical (CannotAddChunk s (chunk_of s res) e)
    ∈ (write_block s b id res pkg k).2.
Proof.
  intros He. unfold write_block. rewrite He.
  destruct (snk_db k) as [d|]; [destruct (cr_db_add_pkg d pkg)|]; simpl;
    list_mem.
Qed.

(** A failed insert is logged when the block hands [&tmp_err] to
    [cr_db_add_pkg], and only then. *)
Lemma write_block_logs_db_failure (s : stream) (b : bool) (id : Z)
    (res : cr_XmlStruct) (pkg : cr_Package) (k : Sink) (d d' : D) (e : GError) :
  snk_db k = Some d →
  cr_db_add_pkg d pkg = (d', Some e) →
  (EvLog Critical (CannotAddDb s (pkg_name pkg) (pkg_pkgId pkg) e)
     ∈ (write_block s b id res pkg k).2) ↔ b = true.
Proof.
  intros Hd He. unfold write_block.
  destruct (cr_xmlfile_add_chunk _ _) as [f' [e'|]]; rewrite Hd, He;
    destruct b; simpl; split; try done; list_mem.
Qed.

Lemma write_block_never_logs_db_without_err_arg (s : stream) (id : Z)
    (res : cr_XmlStruct) (pkg : cr_Package) (k : Sink) (name pkgId : string)
    (e : GError) (lvl : LogLevel) :
  EvLog lvl (CannotAddDb s name pkgId e) ∉ (write_block s false id res pkg k).2.
Proof.
  unfold write_block.
  destruct (cr_xmlfile_add_chunk _ _) as [f' [e'|]];
    destruct (snk_db k) as [d|]; try destruct (cr_db_add_pkg d pkg);
    simpl; list_mem.
Qed.

(** *** [load_rpm] *)



(** *** The cache *)

Lemma stat_phase_done (u : UserData) (omd : option (gmap string cr_Package))
    (task : PoolTask) (stat_buf : option Stat) (ev : list Event) :
  stat_phase u omd task = (StatDone stat_buf, ev) →
  if bool_decide (is_Some omd) && negb (skip_stat u)
  then stat (pt_full_path task) = stat_buf ∧ is_Some stat_buf
       ∧ ev = [EvStat (pt_full_path task)]
  else stat_buf = None ∧ ev = [].
Proof.
  unfold stat_phase. destruct (_ && _).
  - destruct (stat _) as [sb|]; [|done]. intros [= <- <-]. eauto.
  - by intros [= <- <-].
Qed.

Lemma update_phase_undefined (u : UserData)
    (omd : option (gmap string cr_Package)) (task : PoolTask)
    (stat_buf : option Stat) :
  update_phase u omd task stat_buf = None ↔
  stat_buf = None ∧ skip_stat u = false ∧
  ∃ ht md, omd = Some ht ∧ ht !! pt_filename task = Some md.
Proof.
  unfold update_phase. destruct omd as [ht|]; [|naive_solver].
  destruct (ht !! pt_filename task) as [md|] eqn:Hmd; [|naive_solver].
  destruct (skip_stat u); [naive_solver|].
  destruct stat_buf as [sb|]; [|naive_solver].
  destruct (_ && _); naive_solver.
Qed.

(** ** The counters, the buffer and the workers *)

Lemma stream_le_refl (s : stream) : stream_le s s = true.
Proof. by destruct s. Qed.

Lemma concat_imap_insert (f : nat → pc → list Z) (ths : list pc) (i : nat)
    (p q : pc) :
  (i < length ths)%nat → f i q = [] →
  concat (imap f (<[i := p]> ths)) ≡ₚ f i p ++ concat (imap f (<[i := q]> ths)).
Proof.
  revert f i. induction ths as [|x ths IH]; intros f i Hi Hq; simpl in *; [lia|].
  destruct i as [|i]; simpl.
  - by rewrite Hq.
  - rewrite (IH (f ∘ S) i) by (done || lia).
    simpl. by rewrite !(assoc_L (++)), (comm (++) (f 0%nat x)).
Qed.

Lemma pending_insert (s : stream) (ths : list pc) (buf : list BufferedTask)
    (i : nat) (p : pc) :
  (i < length ths)%nat →
  pending s (<[i := p]> ths) buf
  ≡ₚ holds s (Z.of_nat i) p ++ pending s (<[i := Returned]> ths) buf.
Proof.
  intros Hi. unfold pending.
  rewrite (concat_imap_insert _ ths i p Returned) by done.
  by rewrite (assoc_L (++)).
Qed.

Lemma pending_lookup (s : stream) (ths : list pc) (buf : list BufferedTask)
    (i : nat) (p : pc) :
  ths !! i = Some p →
  pending s ths buf
  ≡ₚ holds s (Z.of_nat i) p ++ pending s (<[i := Returned]> ths) buf.
Proof.
  intros Hi. rewrite <-(list_insert_id ths i p) at 1 by done.
  apply pending_insert. by eapply lookup_lt_Some.
Qed.

Lemma pending_buffer (s : stream) (ths : list pc) (buf buf' : list BufferedTask) :
  bt_id <$> buf' ≡ₚ bt_id <$> buf → pending s ths buf' ≡ₚ pending s ths buf.
Proof. intros H. unfold pending. by rewrite H. Qed.

Lemma g_queue_insert_sorted_perm (q : list BufferedTask) (x : BufferedTask) :
  g_queue_insert_sorted q x ≡ₚ x :: q.
Proof.
  induction q as [|y q IH]; simpl; [done|].
  case_bool_decide; [|done]. rewrite IH. apply Permutation_swap.
Qed.

Lemma g_queue_insert_sorted_sorted (q : list BufferedTask) (x : BufferedTask) :
  StronglySorted (λ a b, bt_id a ≤ bt_id b) q →
  StronglySorted (λ a b, bt_id a ≤ bt_id b) (g_queue_insert_sorted q x).
Proof.
  induction 1 as [|y q Hq IH Hy]; simpl.
  - repeat constructor.
  - unfold buf_task_sort_func at 1. repeat case_bool_decide; try lia.
    + constructor; [done|]. rewrite g_queue_insert_sorted_perm.
      constructor; [lia|done].
    + constructor; [by constructor|]. constructor; [lia|].
      eapply Forall_impl; [done|]. simpl. lia.
    + constructor; [by constructor|]. constructor; [lia|].
      eapply Forall_impl; [done|]. simpl. lia.
Qed.

Lemma pending_elem_bounds (n : Z) (sh : Shared) (ths : list pc) (s : stream) (x : Z) :
  core_inv n sh ths → x ∈ pending s ths (buffer sh) →
  snk_id (sink s sh) ≤ x < n.
Proof.
  intros Hinv Hx. rewrite (ci_pending _ _ _ Hinv) in Hx.
  apply elem_of_seqZ in Hx. lia.
Qed.

Lemma held_bounds (n : Z) (sh : Shared) (ths : list pc) (s : stream)
    (i : nat) (p : pc) (x : Z) :
  core_inv n sh ths → ths !! i = Some p → x ∈ holds s (Z.of_nat i) p →
  snk_id (sink s sh) ≤ x < n.
Proof.
  intros Hinv Hi Hx. eapply pending_elem_bounds; [done|].
  rewrite (pending_lookup _ _ _ _ _ Hi). apply elem_of_app. by left.
Qed.

Lemma buffered_bounds (n : Z) (sh : Shared) (ths : list pc) (s : stream)
    (bt : BufferedTask) :
  core_inv n sh ths → bt ∈ buffer sh → snk_id (sink s sh) ≤ bt_id bt < n.
Proof.
  intros Hinv Hx. eapply pending_elem_bounds; [done|].
  unfold pending. apply elem_of_app. right. by apply list_elem_of_fmap_2.
Qed.

(** A step that touches neither a counter nor the buffer. *)
Lemma core_local (n : Z) (sh sh' : Shared) (ths : list pc) (i : nat) (p p' : pc) :
  core_inv n sh ths → ths !! i = Some p →
  (∀ s, snk_id (sink s sh') = snk_id (sink s sh)) →
  buffer sh' = buffer sh →
  (∀ s, holds s (Z.of_nat i) p' = holds s (Z.of_nat i) p) →
  thread_ok (id_pri sh) (Z.of_nat i) p' →
  (will_drain p = true → will_drain p' = true) →
  core_inv n sh' (<[i := p']> ths).
Proof.
  intros Hinv Hi Hid Hbuf Hh Hok Hwd.
  assert (Hlt := lookup_lt_Some _ _ _ Hi).
  assert (Hidp : id_pri sh' = id_pri sh) by apply (Hid Pri).
  destruct Hinv as [Hlen Hb Hp Ht Hd Hs Hl]. split.
  - by rewrite length_insert.
  - intros s. rewrite Hid. apply Hb.
  - intros s. rewrite Hid, Hbuf, pending_insert, Hh, <-pending_lookup by done.
    apply Hp.
  - intros j q Hj. rewrite Hidp.
    destruct (decide (i = j)) as [<-|Hne].
    + rewrite list_lookup_insert_eq in Hj by done. by injection Hj as <-.
    + rewrite list_lookup_insert_ne in Hj by done. by apply Ht.
  - rewrite Hidp, Hbuf. intros Hin. destruct (Hd Hin) as (d & q & Hq & Hw).
    destruct (decide (i = d)) as [<-|Hne].
    + exists i, p'. rewrite list_lookup_insert_eq by done.
      split; [done|]. apply Hwd. congruence.
    + exists d, q. by rewrite list_lookup_insert_ne.
  - by rewrite Hbuf.
  - by rewrite Hbuf.
Qed.

Lemma thread_ok_mono (idp idp' own : Z) (p : pc) :
  idp ≤ idp' → thread_ok idp own p → thread_ok idp' own p.
Proof.
  intros Hle. destruct p as [| | | | |s id res pkg c|[]| | | |]; simpl; try done.
  - intros [? H]; split; [done|]. intros. specialize (H ltac:(done)). lia.
  - lia.
Qed.

(** A step that takes the id [x] past the counter of stream [s]. *)
Lemma core_advance (n : Z) (sh sh' : Shared) (ths : list pc) (i : nat)
    (p p' : pc) (s : stream) (x : Z) :
  n ≤ LONG_MAX →
  core_inv n sh ths → ths !! i = Some p →
  snk_id (sink s sh) = x →
  holds s (Z.of_nat i) p = [x] →
  holds s (Z.of_nat i) p' = [] →
  (∀ s', s' ≠ s → holds s' (Z.of_nat i) p' = holds s' (Z.of_nat i) p) →
  snk_id (sink s sh') = long_succ x →
  (∀ s', s' ≠ s → snk_id (sink s' sh') = snk_id (sink s' sh)) →
  buffer sh' = buffer sh →
  will_drain p' = true →
  thread_ok (id_pri sh') (Z.of_nat i) p' →
  core_inv n sh' (<[i := p']> ths).
Proof.
  intros Hn Hinv Hi Hx Hhx Hh' Hhne Hx' Hne Hbuf Hwd Hok.
  assert (Hlt := lookup_lt_Some _ _ _ Hi).
  assert (Hxb : snk_id (sink s sh) ≤ x < n).
  { eapply held_bounds; [done..|]. rewrite Hhx. by left. }
  assert (Hx0 := proj1 (ci_bounds _ _ _ Hinv s)).
  rewrite long_succ_exact in Hx' by (unfold LONG_MAX in *; lia).
  assert (Hmono : id_pri sh ≤ id_pri sh').
  { unfold id_pri. destruct (decide (s = Pri)) as [->|Hs].
    - change (pri ?a) with (sink Pri a). lia.
    - change (pri ?a) with (sink Pri a). rewrite Hne by done. lia. }
  destruct Hinv as [Hlen Hb Hp Ht Hd Hs Hl]. split.
  - by rewrite length_insert.
  - intros s'. destruct (decide (s' = s)) as [->|Hs'].
    + lia.
    + rewrite Hne by done. apply Hb.
  - intros s'. rewrite Hbuf, pending_insert by done.
    specialize (Hp s'). rewrite (pending_lookup _ _ _ _ _ Hi) in Hp.
    destruct (decide (s' = s)) as [->|Hs'].
    + rewrite Hh', Hx'. rewrite Hhx, Hx in Hp.
      rewrite seqZ_cons in Hp by lia. simpl in *.
      apply Permutation_cons_inv in Hp. rewrite Hp. f_equiv; lia.
    + by rewrite Hhne, Hne.
  - intros j q Hj.
    destruct (decide (i = j)) as [<-|Hij].
    + rewrite list_lookup_insert_eq in Hj by done. by injection Hj as <-.
    + rewrite list_lookup_insert_ne in Hj by done.
      eapply thread_ok_mono; [done|]. by apply Ht.
  - intros _. exists i, p'. by rewrite list_lookup_insert_eq.
  - by rewrite Hbuf.
  - by rewrite Hbuf.
Qed.

(** The worker leaves its result in the buffer and returns. *)
Lemma core_deposit (n : Z) (sh sh' : Shared) (ths : list pc) (i : nat)
    (p : pc) (bt : BufferedTask) :
  core_inv n sh ths → ths !! i = Some p →
  (∀ s, holds s (Z.of_nat i) p = [bt_id bt]) →
  will_drain p = false →
  id_pri sh ≠ bt_id bt →
  Z.of_nat (length (buffer sh)) < MAX_TASK_BUFFER_LEN →
  (∀ s, snk_id (sink s sh') = snk_id (sink s sh)) →
  buffer sh' = g_queue_insert_sorted (buffer sh) bt →
  core_inv n sh' (<[i := Returned]> ths).
Proof.
  intros Hinv Hi Hh Hwd Hne Hlen' Hid Hbuf.
  assert (Hlt := lookup_lt_Some _ _ _ Hi).
  assert (Hidp : id_pri sh' = id_pri sh) by apply (Hid Pri).
  destruct Hinv as [Hlen Hb Hp Ht Hd Hs Hl]. split.
  - by rewrite length_insert.
  - intros s. rewrite Hid. apply Hb.
  - intros s. rewrite Hid, <-Hp, (pending_lookup _ _ _ _ _ Hi), Hh, Hbuf.
    unfold pending. rewrite g_queue_insert_sorted_perm, fmap_cons.
    simpl. by rewrite <-Permutation_middle.
  - intros j q Hj. rewrite Hidp.
    destruct (decide (i = j)) as [<-|Hij].
    + rewrite list_lookup_insert_eq in Hj by done. by injection Hj as <-.
    + rewrite list_lookup_insert_ne in Hj by done. by apply Ht.
  - rewrite Hidp, Hbuf, g_queue_insert_sorted_perm, fmap_cons.
    intros [?|Hin]%elem_of_cons; [done|].
    destruct (Hd Hin) as (d & q & Hq & Hw).
    exists d, q. rewrite list_lookup_insert_ne; [done|]. congruence.
  - rewrite Hbuf. by apply g_queue_insert_sorted_sorted.
  - rewrite Hbuf, g_queue_insert_sorted_perm. simpl length. lia.
Qed.

(** The worker takes the head of the buffer. *)
Lemma core_pop (n : Z) (sh sh' : Shared) (ths : list pc) (i : nat)
    (p p' : pc) (bt : BufferedTask) (rest : list BufferedTask) :
  core_inv n sh ths → ths !! i = Some p →
  (∀ s, holds s (Z.of_nat i) p = []) →
  (∀ s, holds s (Z.of_nat i) p' = [bt_id bt]) →
  thread_ok (id_pri sh) (Z.of_nat i) p' →
  buffer sh = bt :: rest →
  bt_id bt = id_pri sh →
  (∀ s, snk_id (sink s sh') = snk_id (sink s sh)) →
  buffer sh' = rest →
  core_inv n sh' (<[i := p']> ths).
Proof.
  intros Hinv Hi Hh Hh' Hok Hbuf Hhead Hid Hbuf'.
  assert (Hlt := lookup_lt_Some _ _ _ Hi).
  assert (Hidp : id_pri sh' = id_pri sh) by apply (Hid Pri).
  destruct Hinv as [Hlen Hb Hp Ht Hd Hs Hl]. rewrite Hbuf in *. split.
  - by rewrite length_insert.
  - intros s. rewrite Hid. apply Hb.
  - intros s. rewrite Hid, <-Hp, (pending_lookup _ _ _ _ _ Hi), Hh, Hbuf'.
    rewrite pending_insert, Hh' by done.
    unfold pending. rewrite fmap_cons. simpl.
    by rewrite <-Permutation_middle.
  - intros j q Hj. rewrite Hidp.
    destruct (decide (i = j)) as [<-|Hij].
    + rewrite list_lookup_insert_eq in Hj by done. by injection Hj as <-.
    + rewrite list_lookup_insert_ne in Hj by done. by apply Ht.
  - rewrite Hidp, Hbuf', <-Hhead. intros Hin. exfalso.
    assert (Hnd : NoDup (pending Pri ths (bt :: rest))).
    { rewrite Hp. apply NoDup_seqZ. }
    unfold pending in Hnd. apply NoDup_app in Hnd as (_ & _ & Hnd).
    rewrite fmap_cons in Hnd. by apply NoDup_cons in Hnd as [? _].
  - rewrite Hbuf'. by apply StronglySorted_inv in Hs as [? _].
  - rewrite Hbuf'. simpl length in Hl. lia.
Qed.

(** The head of the buffer is not the next to write: the worker returns. *)
Lemma core_return (n : Z) (sh : Shared) (ths : list pc) (i : nat) (p : pc) :
  core_inv n sh ths → ths !! i = Some p →
  (∀ s, holds s (Z.of_nat i) p = []) →
  drain_peek sh = None →
  core_inv n sh (<[i := Returned]> ths).
Proof.
  intros Hinv Hi Hh Hpeek.
  assert (Hlt := lookup_lt_Some _ _ _ Hi).
  assert (Hnin : id_pri sh ∉ bt_id <$> buffer sh).
  { unfold drain_peek in Hpeek.
    destruct (buffer sh) as [|bt rest] eqn:Hbuf; [by apply not_elem_of_nil|].
    case_bool_decide as Hne; [done|].
    assert (id_pri sh ≤ bt_id bt).
    { eapply (buffered_bounds _ _ _ Pri); [done|]. rewrite Hbuf. by left. }
    assert (Hs := ci_sorted _ _ _ Hinv). rewrite Hbuf in Hs.
    apply StronglySorted_inv in Hs as [_ Hall].
    rewrite fmap_cons. intros [?|Hin]%elem_of_cons; [lia|].
    apply list_elem_of_fmap in Hin as (b & Hb & Hin).
    rewrite Forall_forall in Hall. specialize (Hall _ Hin). lia. }
  destruct Hinv as [Hlen Hb Hp Ht Hd Hs Hl]. split; try done.
  - by rewrite length_insert.
  - intros s. rewrite pending_insert by done. simpl.
    rewrite <-Hp, (pending_lookup _ _ _ _ _ Hi), Hh. done.
  - intros j q Hj.
    destruct (decide (i = j)) as [<-|Hij].
    + rewrite list_lookup_insert_eq in Hj by done. by injection Hj as <-.
    + rewrite list_lookup_insert_ne in Hj by done. by apply Ht.
Qed.

Lemma write_stream_sink_id (s : stream) (id : Z) (res : cr_XmlStruct)
    (pkg : cr_Package) (sh : Shared) (s' : stream) :
  snk_id (sink s' (write_stream s id res pkg sh).1)
  = if decide (s' = s) then long_succ (snk_id (sink s sh))
    else snk_id (sink s' sh).
Proof.
  unfold write_stream.
  pose proof (write_block_id s (db_err_arg s) id res pkg (sink s sh)) as Hid.
  destruct (write_block _ _ _ _ _ _) as [k ev]. simpl in *.
  case_decide as Hs; [subst s'|].
  - by rewrite sink_set_sink_eq.
  - by rewrite sink_set_sink_ne.
Qed.

Lemma write_stream_buffer (s : stream) (id : Z) (res : cr_XmlStruct)
    (pkg : cr_Package) (sh : Shared) :
  buffer (write_stream s id res pkg sh).1 = buffer sh.
Proof.
  unfold write_stream. destruct (write_block _ _ _ _ _ _) as [k ev].
  apply buffer_set_sink.
Qed.

Lemma write_stream_old_metadata (s : stream) (id : Z) (res : cr_XmlStruct)
    (pkg : cr_Package) (sh : Shared) :
  old_metadata (write_stream s id res pkg sh).1 = old_metadata sh.
Proof.
  unfold write_stream. destruct (write_block _ _ _ _ _ _) as [k ev].
  apply old_metadata_set_sink.
Qed.

Lemma skip_block_sink_id (s : stream) (id : Z) (sh : Shared) (s' : stream) :
  snk_id (sink s' (skip_block s id sh).1)
  = if decide (s' = s) then long_succ (snk_id (sink s sh))
    else snk_id (sink s' sh).
Proof.
  unfold skip_block. simpl. case_decide as Hs; [subst s'|].
  - by rewrite sink_set_sink_eq.
  - by rewrite sink_set_sink_ne.
Qed.

Lemma deposit_sink (u : UserData) (sh : Shared) (task : PoolTask)
    (res : cr_XmlStruct) (pkg : pkg_ptr) (s : stream) :
  sink s (deposit u sh task res pkg) = sink s sh.
Proof. unfold deposit. by destruct pkg, s. Qed.

Lemma deposit_buffer (u : UserData) (sh : Shared) (task : PoolTask)
    (res : cr_XmlStruct) (pkg : pkg_ptr) :
  buffer (deposit u sh task res pkg)
  = g_queue_insert_sorted (buffer sh)
      {| bt_id := pt_id task; bt_res := res; bt_pkg := pkg;
         bt_location_href :=
           if is_md pkg then Some (location_href_of u task) else None;
         bt_pkg_from_md := is_md pkg |}.
Proof. unfold deposit. by destruct pkg. Qed.

Lemma drain_peek_some (sh : Shared) (bt : BufferedTask) :
  drain_peek sh = Some bt →
  buffer sh = bt :: tail (buffer sh) ∧ bt_id bt = id_pri sh.
Proof.
  unfold drain_peek. destruct (buffer sh) as [|b rest]; [done|].
  case_bool_decide; [|done]. by intros [= ->].
Qed.

Lemma holds_after_write (s s' : stream) (own id : Z) (res : cr_XmlStruct)
    (pkg : pkg_ptr) (c : caller) :
  holds s' own (after_write s id res pkg c)
  = if decide (s' = s) then [] else holds s' own (L_write s id res pkg c).
Proof. by destruct s, s', c. Qed.

Lemma holds_after_skip (s s' : stream) (own : Z) :
  holds s' own (after_skip s)
  = if decide (s' = s) then [] else holds s' own (L_skip s).
Proof. by destruct s, s'. Qed.

Lemma will_drain_after_write (s : stream) (id : Z) (res : cr_XmlStruct)
    (pkg : pkg_ptr) (c : caller) :
  will_drain (after_write s id res pkg c) = true.
Proof. by destruct s, c. Qed.

Lemma will_drain_after_skip (s : stream) : will_drain (after_skip s) = true.
Proof. by destruct s. Qed.

Lemma pending_queued (s : stream) (m : nat) (l : list PoolTask) :
  concat (imap (λ i p, holds s (Z.of_nat (m + i)) p) ((λ _, Queued) <$> l))
  = seqZ (Z.of_nat m) (Z.of_nat (length l)).
Proof.
  revert m. induction l as [|t l IH]; intros m; [done|].
  rewrite fmap_cons, imap_cons. simpl concat.
  rewrite seqZ_cons by (simpl length; lia). f_equal; [f_equal; lia|].
  replace (Z.succ (Z.of_nat m)) with (Z.of_nat (S m)) by lia.
  replace (Z.pred (Z.of_nat (length (t :: l)))) with (Z.of_nat (length l))
    by (simpl length; lia).
  rewrite <-IH. f_equal. apply imap_ext. intros i p _. simpl.
  do 3 f_equal. lia.
Qed.

Lemma init_core (sh : Shared) (tasks : list PoolTask) :
  fresh sh →
  core_inv (Z.of_nat (length tasks)) sh (threads (init sh tasks)).
Proof.
  intros [Hid Hbuf]. split; simpl.
  - by rewrite length_fmap.
  - intros s. rewrite Hid. lia.
  - intros s. rewrite Hid, Hbuf. unfold pending. rewrite fmap_nil, app_nil_r.
    rewrite Z.sub_0_r. by rewrite <-(pending_queued s 0).
  - intros i p [t [-> _]]%list_lookup_fmap_Some. done.
  - rewrite Hbuf. by intros ?%elem_of_nil.
  - rewrite Hbuf. constructor.
  - rewrite Hbuf. by cbv.
Qed.

Lemma pending_all_returned (s : stream) (ths : list pc) (buf : list BufferedTask) :
  Forall (λ p, p = Returned) ths → pending s ths buf = bt_id <$> buf.
Proof.
  intros Hall. unfold pending.
  assert (Hnil : ∀ (f : nat → pc → list Z), (∀ i, f i Returned = []) →
            concat (imap f ths) = []).
  { induction Hall as [|p ths -> _ IH]; intros f Hf; [done|].
    simpl. rewrite Hf. simpl. apply IH. intros i. apply Hf. }
  by rewrite Hnil.
Qed.

(** When every worker has returned, the three counters are at [n] and the
    buffer is empty. *)
Lemma core_all_returned (n : Z) (sh : Shared) (ths : list pc) :
  core_inv n sh ths → Forall (λ p, p = Returned) ths →
  (∀ s, snk_id (sink s sh) = n) ∧ buffer sh = [].
Proof.
  intros Hinv Hall.
  assert (Hpend := ci_pending _ _ _ Hinv).
  setoid_rewrite pending_all_returned in Hpend; [|done..].
  assert (Hpri : id_pri sh = n).
  { destruct (decide (id_pri sh = n)) as [|Hne]; [done|]. exfalso.
    assert (Hb := ci_bounds _ _ _ Hinv Pri).
    destruct (ci_drain _ _ _ Hinv) as (d & p & Hd & Hw).
    - rewrite (Hpend Pri). apply elem_of_seqZ.
      unfold id_pri in *. simpl in *. lia.
    - rewrite Forall_forall in Hall.
      rewrite (Hall p) in Hw; [done|]. by eapply list_elem_of_lookup_2. }
  assert (Hbuf : buffer sh = []).
  { specialize (Hpend Pri). change (sink Pri sh) with (pri sh) in Hpend.
    fold (id_pri sh) in Hpend. rewrite Hpri, Z.sub_diag, seqZ_nil in Hpend by done.
    apply Permutation_nil_r in Hpend.
    by apply fmap_nil_inv in Hpend. }
  split; [|done]. intros s.
  specialize (Hpend s). rewrite Hbuf in Hpend. symmetry in Hpend.
  apply Permutation_nil_r in Hpend.
  assert (Hb := ci_bounds _ _ _ Hinv s).
  apply (f_equal length) in Hpend. rewrite length_seqZ in Hpend.
  simpl in Hpend. lia.
Qed.

(** ** The record of a run *)

Lemma project_app (f : Event → option Z) (a b : list (nat * Event)) :
  project f (a ++ b) = project f a ++ project f b.
Proof. apply omap_app. Qed.

Lemma project_tag (f : Event → option Z) (i : nat) (ev : list Event) :
  project f ((λ e, (i, e)) <$> ev) = omap f ev.
Proof.
  unfold project. induction ev as [|e ev IH]; [done|].
  rewrite fmap_cons. change (omap ?g (?x :: ?l))
    with (match g x with Some y => y :: omap g l | None => omap g l end).
  simpl. by rewrite IH.
Qed.

Lemma failed_failedb (evs : list (nat * Event)) (id : Z) :
  failed evs id ↔ failedb evs id = true.
Proof.
  unfold failed, failedb. rewrite existsb_exists. split.
  - intros (w & e & Hin & Hw & He). exists (w, e).
    rewrite <-list_elem_of_In. split; [done|]. simpl.
    by rewrite bool_decide_eq_true_2.
  - intros ([w e] & Hin & [Hw He]%andb_prop). simpl in *.
    apply bool_decide_eq_true in Hw. rewrite <-list_elem_of_In in Hin. eauto.
Qed.

Lemma failed_app (evs : list (nat * Event)) (i : nat) (ev : list Event) (id : Z) :
  failed (evs ++ ((λ e, (i, e)) <$> ev)) id ↔
  failed evs id ∨ (Z.of_nat i = id ∧ existsb is_failure ev = true).
Proof.
  unfold failed. split.
  - intros (w & e & [Hin|Hin]%elem_of_app & Hw & He); [left; eauto|].
    apply list_elem_of_fmap in Hin as (e' & [= -> ->] & Hin).
    right. split; [done|]. apply existsb_exists. exists e'.
    by rewrite <-list_elem_of_In.
  - intros [(w & e & Hin & Hw & He)|[Hi (e & Hin & He)%existsb_exists]].
    + exists w, e. rewrite elem_of_app. eauto.
    + exists i, e. rewrite elem_of_app, list_elem_of_fmap.
      rewrite <-list_elem_of_In in Hin. eauto 6.
Qed.

Lemma failed_app_quiet (evs : list (nat * Event)) (i : nat) (ev : list Event)
    (id : Z) :
  existsb is_failure ev = false →
  failed (evs ++ ((λ e, (i, e)) <$> ev)) id ↔ failed evs id.
Proof. intros Hq. rewrite failed_app, Hq. naive_solver. Qed.

Lemma write_block_events (s : stream) (b : bool) (id : Z) (res : cr_XmlStruct)
    (pkg : cr_Package) (k : Sink) (s' : stream) :
  let ev := (write_block s b id res pkg k).2 in
  omap (written_id s') ev = (if decide (s = s') then [id] else []) ∧
  omap (skipped_id s') ev = [] ∧
  omap (advanced_id s') ev = (if decide (s = s') then [id] else []) ∧
  existsb is_failure ev = false.
Proof.
  unfold write_block.
  destruct (cr_xmlfile_add_chunk _ _) as [f' [e|]];
    (destruct (snk_db k) as [d|]; [destruct (cr_db_add_pkg d pkg) as [d' [e'|]]|]);
    destruct b; simpl; case_decide; done.
Qed.

Lemma load_rpm_events (filename : string) (ct : cr_ChecksumType)
    (cd : option string) (href : string) (base : option string) (lim : Z)
    (sb : option Stat) (s' : stream) :
  let ev := lr_events (load_rpm filename ct cd href base lim sb) in
  omap (advanced_id s') ev = [] ∧ omap (written_id s') ev = [] ∧
  omap (skipped_id s') ev = [] ∧ existsb is_failure ev = false.
Proof.
  unfold load_rpm, get_checksum.
  destruct (cr_package_from_rpm_base _ _) as [pkg0|e]; simpl; [|done].
  destruct sb as [sb|]; [|destruct (stat filename) as [sb|]]; simpl;
    try done;
    destruct (cr_checksum_file _ _) as [c|e]; simpl; try done;
    by destruct (cr_get_header_byte_range _) as [h|e].
Qed.

Lemma dump_phase_events (pkg : cr_Package) (ptr : pkg_ptr) (s' : stream) :
  let '(o, ev) := dump_phase pkg ptr in
  omap (advanced_id s') ev = [] ∧ omap (written_id s') ev = [] ∧
  omap (skipped_id s') ev = [] ∧
  existsb is_failure ev
  = match o with LoadFailed => true | _ => false end ∧
  o ≠ LoadAbort.
Proof. unfold dump_phase. by destruct (cr_xml_dump pkg). Qed.

Lemma load_phase_events (u : UserData) (omd : option (gmap string cr_Package))
    (task : PoolTask) (sb : option Stat) (old_used : bool) (o : LoadOutcome)
    (ev : list Event) (s' : stream) :
  load_phase u omd task sb old_used = Some (o, ev) →
  omap (advanced_id s') ev = [] ∧ omap (written_id s') ev = [] ∧
  omap (skipped_id s') ev = [] ∧
  existsb is_failure ev = match o with LoadFailed => true | _ => false end.
Proof.
  unfold load_phase. destruct old_used; simpl.
  - destruct (omd ≫= _) as [md|]; [|done]. intros [= Hd].
    pose proof (dump_phase_events md (FromMd (pt_filename task)) s') as H.
    rewrite Hd in H. naive_solver.
  - intros [= Hl]. unfold load_fresh_with in Hl.
    pose proof (load_rpm_events (pt_full_path task) (checksum_type u)
      (checksum_cachedir u) (location_href_of u task) (location_base u)
      (changelog_limit u) None s') as (Ha & Hw & Hs & Hf).
    destruct (lr_pkg _) as [pkg|].
    + pose proof (dump_phase_events pkg (FromFile pkg) s') as H.
      destruct (dump_phase pkg (FromFile pkg)) as [o' ev'].
      injection Hl as <- <-. rewrite !omap_app, existsb_app, Ha, Hw, Hs, Hf.
      naive_solver.
    + destruct (lr_err _) as [e|]; injection Hl as <- <-.
      * rewrite !omap_app, existsb_app, Ha, Hw, Hs, Hf. done.
      * done.
Qed.

Lemma thread_step_events (u : UserData) (task : PoolTask) (p p' : pc)
    (sh sh' : Shared) (ev : list Event) (s' : stream) :
  thread_step u task p sh = Some (p', sh', ev) →
  omap (written_id s') ev = step_written p s' ∧
  omap (skipped_id s') ev = step_skipped (pt_id task) p s' ∧
  omap (advanced_id s') ev
  = step_written p s' ++ step_skipped (pt_id task) p s' ∧
  existsb is_failure ev = step_fails p p'.
Proof.
  destruct p as [| |stat_buf|stat_buf old_used|res pkg|s id res pkg c|failed|s| | |];
    simpl; intros Hstep.
  - by injection Hstep as <- <- <-.
  - unfold stat_phase in Hstep. destruct (_ && _).
    + destruct (stat _); by injection Hstep as <- <- <-.
    + by injection Hstep as <- <- <-.
  - unfold update_phase in Hstep.
    destruct (old_metadata sh) as [ht|]; [|by injection Hstep as <- <- <-].
    destruct (ht !! _) as [md|]; [|by injection Hstep as <- <- <-].
    destruct (skip_stat u); [by injection Hstep as <- <- <-|].
    destruct stat_buf as [sb|]; [|done].
    destruct (_ && _); by injection Hstep as <- <- <-.
  - destruct (load_phase _ _ _ _ _) as [[o ev']|] eqn:Hl; [|done].
    apply (load_phase_events _ _ _ _ _ _ _ s') in Hl as (Ha & Hw & Hs & Hf).
    destruct o; by injection Hstep as <- <- <-.
  - destruct (buffer_admits _ _ _); by injection Hstep as <- <- <-.
  - case_bool_decide; [|done]. destruct (deref sh pkg) as [pk|]; [|done].
    unfold write_stream in Hstep.
    pose proof (write_block_events s (db_err_arg s) id res pk (sink s sh) s')
      as (Hw & Hs & Ha & Hf).
    destruct (write_block _ _ _ _ _ _) as [k ev'].
    injection Hstep as <- <- <-. simpl in *. rewrite Hw, Hs, Ha, Hf.
    rewrite app_nil_r. by destruct s, c.
  - case_bool_decide; by injection Hstep as <- <- <-.
  - case_bool_decide; [|done]. injection Hstep as <- <- <-. simpl.
    case_decide; by destruct s.
  - destruct (drain_peek sh); by injection Hstep as <- <- <-.
  - done.
  - done.
Qed.

Lemma project_written_advanced (s : stream) (evs : list (nat * Event)) (id : Z) :
  id ∈ project (written_id s) evs → id ∈ project (advanced_id s) evs.
Proof.
  unfold project. rewrite !list_elem_of_omap.
  intros ([w e] & Hin & He). exists (w, e). split; [done|].
  by destruct e.
Qed.

Lemma project_skipped_advanced (s : stream) (evs : list (nat * Event)) (id : Z) :
  id ∈ project (skipped_id s) evs → id ∈ project (advanced_id s) evs.
Proof.
  unfold project. rewrite !list_elem_of_omap.
  intros ([w e] & Hin & He). exists (w, e). split; [done|].
  by destruct e.
Qed.

(** No id has two holders. *)
Lemma holder_unique_threads (n : Z) (sh : Shared) (ths : list pc) (s : stream)
    (i j : nat) (p q : pc) (x : Z) :
  core_inv n sh ths → ths !! i = Some p → ths !! j = Some q → i ≠ j →
  x ∈ holds s (Z.of_nat i) p → x ∈ holds s (Z.of_nat j) q → False.
Proof.
  intros Hinv Hi Hj Hne Hx Hy.
  assert (Hnd : NoDup (pending s ths (buffer sh))).
  { rewrite (ci_pending _ _ _ Hinv). apply NoDup_seqZ. }
  rewrite (pending_lookup _ _ _ _ _ Hi) in Hnd.
  apply NoDup_app in Hnd as (_ & Hnd & _). apply (Hnd x Hx).
  rewrite (pending_lookup _ _ _ j q) by by rewrite list_lookup_insert_ne.
  apply elem_of_app. by left.
Qed.

Lemma holder_unique_buffer (n : Z) (sh : Shared) (ths : list pc) (s : stream)
    (i : nat) (p : pc) (bt : BufferedTask) :
  core_inv n sh ths → ths !! i = Some p → bt ∈ buffer sh →
  bt_id bt ∈ holds s (Z.of_nat i) p → False.
Proof.
  intros Hinv Hi Hbt Hx.
  assert (Hnd : NoDup (pending s ths (buffer sh))).
  { rewrite (ci_pending _ _ _ Hinv). apply NoDup_seqZ. }
  rewrite (pending_lookup _ _ _ _ _ Hi) in Hnd.
  apply NoDup_app in Hnd as (_ & Hnd & _). apply (Hnd _ Hx).
  unfold pending. apply elem_of_app. right. by apply list_elem_of_fmap_2.
Qed.

(** A worker that still holds its own id on every stream: nothing has been
    written for that id, and nobody else has it. *)
Lemma own_id_untouched (n : Z) (sh : Shared) (ths : list pc)
    (evs : list (nat * Event)) (i : nat) (p : pc) :
  core_inv n sh ths → trace_inv sh ths evs → ths !! i = Some p →
  (∀ s, holds s (Z.of_nat i) p = [Z.of_nat i]) →
  (∀ s, Z.of_nat i ∉ project (written_id s) evs) ∧
  (∀ j s id res pkg c, j ≠ i → ths !! j = Some (L_write s id res pkg c) →
                       id ≠ Z.of_nat i) ∧
  (∀ bt, bt ∈ buffer sh → bt_id bt ≠ Z.of_nat i).
Proof.
  intros Hinv Htr Hi Hh. split_and!.
  - intros s Hin%project_written_advanced.
    rewrite (ti_adv _ _ _ Htr) in Hin. apply elem_of_seqZ in Hin.
    assert (snk_id (sink s sh) ≤ Z.of_nat i < n); [|lia].
    eapply held_bounds; [done..|]. rewrite Hh. by left.
  - intros j s id res pkg c Hne Hj ->.
    eapply (holder_unique_threads _ _ _ s i j); [done..| |].
    + rewrite Hh. by left.
    + simpl. rewrite stream_le_refl. by left.
  - intros bt Hbt Heq.
    eapply (holder_unique_buffer _ _ _ Pri); [done..|]. rewrite Hh, Heq. by left.
Qed.

Lemma thread_step_counter (u : UserData) (task : PoolTask) (p p' : pc)
    (sh sh' : Shared) (ev : list Event) (s' : stream) :
  thread_step u task p sh = Some (p', sh', ev) →
  let adv := step_written p s' ++ step_skipped (pt_id task) p s' in
  (adv = [] ∧ snk_id (sink s' sh') = snk_id (sink s' sh)) ∨
  (adv = [snk_id (sink s' sh)] ∧
   snk_id (sink s' sh') = long_succ (snk_id (sink s' sh))).
Proof.
  destruct p as [| |stat_buf|stat_buf old_used|res pkg|s id res pkg c|failed|s| | |];
    simpl; intros Hstep.
  - injection Hstep as <- <- <-. by left.
  - destruct (stat_phase _ _ _) as [[|sb] ev']; injection Hstep as <- <- <-;
      by left.
  - destruct (update_phase _ _ _ _) as [[[omd ou] ev']|]; [|done].
    injection Hstep as <- <- <-. left. by destruct s'.
  - destruct (load_phase _ _ _ _ _) as [[[| |res pkg] ev']|]; [..|done];
      injection Hstep as <- <- <-; by left.
  - destruct (buffer_admits _ _ _); injection Hstep as <- <- <-; left;
      [|done]. by rewrite deposit_sink.
  - case_bool_decide as Hid; [|done]. destruct (deref sh pkg) as [pk|]; [|done].
    pose proof (write_stream_sink_id s id res pk sh s') as Hsink.
    destruct (write_stream _ _ _ _ _) as [sh1 ev1]. simpl in *.
    injection Hstep as <- <- <-. rewrite Hsink.
    destruct (decide (s = s')) as [->|Hne].
    + right. rewrite decide_True by done. by rewrite Hid.
    + left. by rewrite decide_False.
  - case_bool_decide; injection Hstep as <- <- <-; by left.
  - case_bool_decide as Hid; [|done]. injection Hstep as <- <- <-.
    destruct (decide (s = s')) as [->|Hne].
    + right. by rewrite sink_set_sink_eq, Hid.
    + left. by rewrite sink_set_sink_ne.
  - destruct (drain_peek sh); injection Hstep as <- <- <-; left; [|done].
    by destruct s'.
  - done.
  - done.
Qed.

Lemma thread_step_buffer (u : UserData) (task : PoolTask) (p p' : pc)
    (sh sh' : Shared) (ev : list Event) (bt : BufferedTask) :
  thread_step u task p sh = Some (p', sh', ev) →
  bt ∈ buffer sh' →
  bt ∈ buffer sh ∨
  (∃ res pkg, p = L_buffering res pkg ∧ bt_id bt = pt_id task).
Proof.
  destruct p as [| |stat_buf|stat_buf old_used|res pkg|s id res pkg c|failed|s| | |];
    simpl; intros Hstep.
  - injection Hstep as <- <- <-. by left.
  - destruct (stat_phase _ _ _) as [[|sb] ev']; injection Hstep as <- <- <-;
      by left.
  - destruct (update_phase _ _ _ _) as [[[omd ou] ev']|]; [|done].
    injection Hstep as <- <- <-. by left.
  - destruct (load_phase _ _ _ _ _) as [[[| |res pkg] ev']|]; [..|done];
      injection Hstep as <- <- <-; by left.
  - destruct (buffer_admits _ _ _); injection Hstep as <- <- <-; [|by left].
    rewrite deposit_buffer, g_queue_insert_sorted_perm.
    intros [->|Hin]%elem_of_cons; [right; eauto|by left].
  - case_bool_decide as Hid; [|done]. destruct (deref sh pkg) as [pk|]; [|done].
    pose proof (write_stream_buffer s id res pk sh) as Hbuf.
    destruct (write_stream _ _ _ _ _) as [sh1 ev1]. simpl in *.
    injection Hstep as <- <- <-. rewrite Hbuf. by left.
  - case_bool_decide; injection Hstep as <- <- <-; by left.
  - case_bool_decide as Hid; [|done]. injection Hstep as <- <- <-.
    rewrite buffer_set_sink. by left.
  - destruct (drain_peek sh); injection Hstep as <- <- <-; [|by left].
    simpl. intros Hin. left. destruct (buffer sh); [done|]. by right.
  - done.
  - done.
Qed.

(** Only the first two phases report a failure, and they touch neither the
    counters nor the buffer. *)
Lemma thread_step_fails (u : UserData) (task : PoolTask) (p p' : pc)
    (sh sh' : Shared) (ev : list Event) (own : Z) :
  thread_step u task p sh = Some (p', sh', ev) →
  step_fails p p' = true →
  sh' = sh ∧ ∀ s, holds s own p = [own].
Proof.
  destruct p as [| |stat_buf|stat_buf old_used|res pkg|s id res pkg c|failed|s| | |];
    destruct p' as [| | | | | |[]| | | |]; try done; simpl; intros Hstep _.
  - by destruct (stat_phase _ _ _) as [[|sb] ev']; simplify_eq.
  - by destruct (load_phase _ _ _ _ _) as [[[| |res pkg] ev']|]; simplify_eq.
Qed.

Lemma occurrences_app (id : Z) (l1 l2 : list Z) :
  occurrences id (l1 ++ l2) = (occurrences id l1 + occurrences id l2)%nat.
Proof. unfold occurrences. by rewrite filter_app, length_app. Qed.

Lemma occurrences_zero (id : Z) (l : list Z) :
  occurrences id l = 0%nat ↔ id ∉ l.
Proof.
  unfold occurrences. induction l as [|x l IH]; simpl.
  - split; [intros _; apply not_elem_of_nil|done].
  - rewrite filter_cons, not_elem_of_cons. case_decide; simpl; [|naive_solver].
    split; [done|]. naive_solver.
Qed.

Lemma occurrences_NoDup (id : Z) (l : list Z) :
  NoDup l → occurrences id l = if decide (id ∈ l) then 1%nat else 0%nat.
Proof.
  intros Hnd. case_decide as Hin; [|by apply occurrences_zero].
  induction Hnd as [|x l Hx Hnd IH]; [by apply elem_of_nil in Hin|].
  unfold occurrences in *. rewrite filter_cons.
  case_decide as Heq; simpl.
  - subst x. f_equal. by apply occurrences_zero.
  - apply IH. apply elem_of_cons in Hin as [?|?]; done.
Qed.

Lemma occurrences_advanced (s : stream) (id : Z) (evs : list (nat * Event)) :
  occurrences id (project (advanced_id s) evs)
  = (records s id evs + skips s id evs)%nat.
Proof.
  unfold records, skips, project.
  induction evs as [|[w e] evs IH]; [done|].
  change (omap ?g (?x :: ?l))
    with (match g x with Some y => y :: omap g l | None => omap g l end).
  destruct e as [| |s' id' c| |s' id']; simpl; try done;
    case_decide; try done;
    change (?x :: ?l) with ([x] ++ l); rewrite !occurrences_app, IH; lia.
Qed.

Lemma init_trace (sh : Shared) (tasks : list PoolTask) :
  fresh sh → trace_inv sh (threads (init sh tasks)) [].
Proof.
  intros [Hid Hbuf].
  assert (Hnf : ∀ id, ¬ failed [] id).
  { intros id (w & e & Hin & _). by apply elem_of_nil in Hin. }
  split; simpl.
  - intros s. by rewrite Hid.
  - intros s id Hin. by apply elem_of_nil in Hin.
  - intros s id Hin. by apply elem_of_nil in Hin.
  - intros i p [t [-> _]]%list_lookup_fmap_Some. apply Hnf.
  - intros bt _. apply Hnf.
Qed.

(** ** The table of the old metadata *)

Lemma with_loc_with_loc (a c : string) (b d : option string) (p : cr_Package) :
  with_loc a b (with_loc c d p) = with_loc a b p.
Proof. done. Qed.

Lemma strip_with_loc (a : string) (b : option string) (p : cr_Package) :
  strip (with_loc a b p) = strip p.
Proof. done. Qed.

Lemma strip_eq_with_loc (a : string) (b : option string) (p q : cr_Package) :
  strip p = strip q → with_loc a b p = with_loc a b q.
Proof.
  intros H. by rewrite <-(with_loc_with_loc a EmptyString b None p), <-(with_loc_with_loc a EmptyString b None q);
    unfold strip in H; rewrite H.
Qed.

Lemma strip_eq_fields (p q : cr_Package) :
  strip p = strip q →
  pkg_time_file p = pkg_time_file q ∧ pkg_size_package p = pkg_size_package q ∧
  pkg_checksum_type p = pkg_checksum_type q.
Proof. intros H. apply (f_equal pkg_time_file) in H as H1.
  apply (f_equal pkg_size_package) in H as H2.
  apply (f_equal pkg_checksum_type) in H as H3. done.
Qed.

Lemma store_rel_refl (md0 : option (gmap string cr_Package)) : store_rel md0 md0.
Proof. by split. Qed.

Lemma entry_some (ht : gmap string cr_Package) (key : string) :
  entry (Some ht) key = ht !! key.
Proof. done. Qed.

Lemma entry_insert (ht : gmap string cr_Package) (k key : string) (p : cr_Package) :
  entry (Some (<[k := p]> ht)) key
  = if decide (k = key) then Some p else entry (Some ht) key.
Proof. unfold entry. simpl. apply lookup_insert. Qed.

Lemma store_rel_entry (md0 omd : option (gmap string cr_Package)) (key : string) :
  store_rel md0 omd →
  match entry md0 key, entry omd key with
  | Some m0, Some m => strip m = strip m0
  | None, None => True
  | _, _ => False
  end.
Proof.
  intros [_ H]. specialize (H key).
  destruct (entry md0 key), (entry omd key); simpl in H; try done.
  by apply (inj Some).
Qed.

(** The first phase looks at the table only to see whether there is one. *)
Lemma stat_phase_rel (u : UserData) (md0 omd : option (gmap string cr_Package))
    (task : PoolTask) :
  store_rel md0 omd → stat_phase u omd task = stat_phase u md0 task.
Proof.
  intros [H _]. unfold stat_phase.
  by rewrite (bool_decide_ext _ _ H).
Qed.

(** The second phase computes the same [old_used] and writes the same log
    on both tables, and leaves them related. *)
Lemma update_phase_rel (u : UserData) (md0 omd : option (gmap string cr_Package))
    (task : PoolTask) (stat_buf : option Stat) :
  store_rel md0 omd →
  match update_phase u md0 task stat_buf, update_phase u omd task stat_buf with
  | Some (omd0', old_used0, ev0), Some (omd', old_used, ev) =>
      old_used0 = old_used ∧ ev0 = ev ∧ store_rel md0 omd' ∧
      (old_used = true →
       entry omd' (pt_filename task) = exp_entry u md0 task) ∧
      (old_used = false → omd' = omd) ∧
      (∀ key, key ≠ pt_filename task → entry omd' key = entry omd key)
  | None, None => True
  | _, _ => False
  end.
Proof.
  intros Hrel. pose proof (store_rel_entry _ _ (pt_filename task) Hrel) as He.
  unfold update_phase, exp_entry.
  destruct md0 as [h0|], omd as [h|]; simpl; try (by split_and!);
    try (exfalso; destruct Hrel as [[H1 H2] _];
         first [by destruct H1 as [? [=]]; eauto
               |by destruct H2 as [? [=]]; eauto]).
  rewrite !entry_some in He.
  destruct (h0 !! pt_filename task) as [m0|] eqn:Hm0,
    (h !! pt_filename task) as [m|] eqn:Hm; try done; try by split_and!.
  destruct (strip_eq_fields _ _ He) as (-> & -> & ->).
  destruct (skip_stat u).
  - split_and!; try done.
    + split; [by split; eauto|]. intros key. rewrite entry_insert.
      case_decide as Hk; [subst key|apply Hrel]. unfold entry; simpl; rewrite ?Hm0. simpl. by rewrite strip_with_loc, He.
    + intros _. rewrite entry_insert, decide_True by done.
      unfold entry; simpl; rewrite ?Hm0. simpl.
      f_equal. by apply strip_eq_with_loc.
    + intros key Hk. by rewrite entry_insert, decide_False.
  - destruct stat_buf as [sb|]; [|done]. destruct (_ && _).
    + split_and!; try done.
      * split; [by split; eauto|]. intros key. rewrite entry_insert.
        case_decide as Hk; [subst key|apply Hrel].
        unfold entry; simpl; rewrite ?Hm0. simpl. by rewrite strip_with_loc, He.
      * intros _. rewrite entry_insert, decide_True by done.
        unfold entry; simpl; rewrite ?Hm0. simpl.
        f_equal. by apply strip_eq_with_loc.
      * intros key Hk. by rewrite entry_insert, decide_False.
    + by split_and!.
Qed.

Lemma load_phase_entry (u : UserData) (omd omd' : option (gmap string cr_Package))
    (task : PoolTask) (sb : option Stat) (old_used : bool) :
  (old_used = true →
   entry omd (pt_filename task) = entry omd' (pt_filename task)) →
  load_phase u omd task sb old_used = load_phase u omd' task sb old_used.
Proof.
  intros H. unfold load_phase. destruct old_used; simpl; [|done].
  fold (entry omd (pt_filename task)). fold (entry omd' (pt_filename task)).
  by rewrite H.
Qed.

Lemma load_phase_ptr (u : UserData) (omd : option (gmap string cr_Package))
    (task : PoolTask) (sb : option Stat) (old_used : bool) (res : cr_XmlStruct)
    (pkg : pkg_ptr) (ev : list Event) :
  load_phase u omd task sb old_used = Some (Loaded res pkg, ev) →
  match pkg with
  | FromMd key => old_used = true ∧ key = pt_filename task
  | FromFile _ => old_used = false
  end.
Proof.
  unfold load_phase, load_fresh_with, dump_phase. destruct old_used; simpl.
  - destruct (omd ≫= _) as [md|]; [|done].
    destruct (cr_xml_dump md); by intros [= <- <- <-].
  - destruct (lr_pkg _) as [p|]; [|by destruct (lr_err _)].
    destruct (cr_xml_dump p); by intros [= <- <- <-].
Qed.

Lemma outcome_of_stat_error (u : UserData)
    (md0 : option (gmap string cr_Package)) (task : PoolTask) :
  (stat_phase u md0 task).1 = StatError →
  outcome_of u md0 task = Some LoadFailed.
Proof.
  unfold outcome_of, prepare. destruct (stat_phase _ _ _) as [o ev].
  simpl. by intros ->.
Qed.

Lemma outcome_of_load (u : UserData) (md0 omd : option (gmap string cr_Package))
    (task : PoolTask) (sb : option Stat) (old_used : bool) (o : LoadOutcome)
    (ev : list Event) :
  (stat_phase u md0 task).1 = StatDone sb →
  (∃ omd' ev', update_phase u md0 task sb = Some (omd', old_used, ev')) →
  (old_used = true → entry omd (pt_filename task) = exp_entry u md0 task) →
  load_phase u omd task sb old_used = Some (o, ev) →
  outcome_of u md0 task = Some o.
Proof.
  intros Hstat (omd' & ev' & Hupd) Hent Hload.
  unfold outcome_of, prepare. destruct (stat_phase _ _ _) as [so ev1].
  simpl in Hstat. subst so.
  pose proof (update_phase_rel u md0 md0 task sb (store_rel_refl _)) as Hrel.
  rewrite Hupd in Hrel. destruct Hrel as (_ & _ & _ & Hent' & _).
  rewrite Hupd. rewrite (load_phase_entry u omd' omd), Hload; [done|].
  intros Hou. by rewrite Hent, Hent'.
Qed.

Lemma filenames_distinct (tasks : list PoolTask) (i j : nat) (ti tj : PoolTask) :
  NoDup (pt_filename <$> tasks) →
  tasks !! i = Some ti → tasks !! j = Some tj → i ≠ j →
  pt_filename ti ≠ pt_filename tj.
Proof.
  intros Hnd Hi Hj Hne Heq. apply Hne.
  eapply (NoDup_lookup _ i j); [done| |];
    rewrite list_lookup_fmap; [by rewrite Hi|by rewrite Hj, Heq].
Qed.

(** A result stays right when the table changes at the key of another
    task. *)
Lemma ptr_ok_store (u : UserData) (md0 omd omd' : option (gmap string cr_Package))
    (task : PoolTask) (pkg : pkg_ptr) :
  entry omd' (pt_filename task) = entry omd (pt_filename task) →
  ptr_ok u md0 omd task pkg → ptr_ok u md0 omd' task pkg.
Proof. destruct pkg as [|key]; [done|]. simpl. intros H [-> <-]. done. Qed.

Lemma job_ok_store (u : UserData) (tasks : list PoolTask)
    (md0 omd omd' : option (gmap string cr_Package)) (id : Z)
    (res : cr_XmlStruct) (pkg : pkg_ptr) :
  (∀ task, tasks !! Z.to_nat id = Some task →
           entry omd' (pt_filename task) = entry omd (pt_filename task)) →
  job_ok u tasks md0 omd id res pkg → job_ok u tasks md0 omd' id res pkg.
Proof.
  intros H (task & Ht & Hid & Ho & Hp). exists task. split_and!; try done.
  eapply ptr_ok_store; [|done]. by apply H.
Qed.

Lemma data_ok_agree (P : string → Prop) (u : UserData) (tasks : list PoolTask)
    (md0 omd omd' : option (gmap string cr_Package)) (task : PoolTask) (q : pc) :
  (∀ key, P key → entry omd' key = entry omd key) →
  P (pt_filename task) →
  tasks !! Z.to_nat (pt_id task) = Some task →
  (∀ s id res pkg c t', q = L_write s id res pkg c →
                        tasks !! Z.to_nat id = Some t' → P (pt_filename t')) →
  data_ok u tasks md0 omd task q → data_ok u tasks md0 omd' task q.
Proof.
  intros Hagree Hown Htask Hjob.
  destruct q as [| |sb|sb ou|res pkg|s id res pkg c|[]| | | |]; simpl; try done.
  - intros (? & ? & He). split_and!; try done. intros Hou.
    rewrite Hagree by done. by apply He.
  - apply job_ok_store. intros t' Ht'. apply Hagree. by simplify_eq.
  - apply job_ok_store. intros t' Ht'. apply Hagree. by eapply Hjob.
Qed.

Lemma serial_sink_snoc (u : UserData) (md0 : option (gmap string cr_Package))
    (s : stream) (tasks : list PoolTask) (k : Sink) (m : Z) (task : PoolTask) :
  0 ≤ m → tasks !! Z.to_nat m = Some task →
  serial_sink u md0 s (take (Z.to_nat (m + 1)) tasks) k
  = serial_step u md0 s (serial_sink u md0 s (take (Z.to_nat m) tasks) k) task.
Proof.
  intros Hm Ht. unfold serial_sink.
  replace (Z.to_nat (m + 1)) with (S (Z.to_nat m)) by lia.
  by rewrite (take_S_r _ _ _ Ht), foldl_app.
Qed.

Lemma deref_exp (u : UserData) (md0 : option (gmap string cr_Package))
    (sh : Shared) (task : PoolTask) (pkg : pkg_ptr) (pk : cr_Package) :
  ptr_ok u md0 (old_metadata sh) task pkg → deref sh pkg = Some pk →
  match pkg with
  | FromFile p => p = pk
  | FromMd _ => exp_entry u md0 task = Some pk
  end.
Proof.
  destruct pkg as [p|key]; simpl.
  - by intros _ [= ->].
  - intros [-> <-]. done.
Qed.

Lemma serial_step_written (u : UserData) (md0 : option (gmap string cr_Package))
    (s : stream) (sh : Shared) (task : PoolTask) (res : cr_XmlStruct)
    (pkg : pkg_ptr) (pk : cr_Package) :
  outcome_of u md0 task = Some (Loaded res pkg) →
  ptr_ok u md0 (old_metadata sh) task pkg → deref sh pkg = Some pk →
  serial_step u md0 s (sink s sh) task
  = sink s (write_stream s (pt_id task) res pk sh).1.
Proof.
  intros Ho Hp Hd. unfold serial_step. rewrite Ho.
  pose proof (deref_exp _ _ _ _ _ _ Hp Hd) as He.
  unfold write_stream.
  destruct pkg as [p|key]; [subst p|rewrite He];
    destruct (write_block _ _ _ _ _) as [k ev]; simpl;
    by rewrite sink_set_sink_eq.
Qed.

Lemma serial_step_skipped (u : UserData) (md0 : option (gmap string cr_Package))
    (s : stream) (sh : Shared) (task : PoolTask) :
  outcome_of u md0 task = Some LoadFailed →
  serial_step u md0 s (sink s sh) task
  = sink s (skip_block s (pt_id task) sh).1.
Proof.
  intros Ho. unfold serial_step, skip_block. rewrite Ho. simpl.
  by rewrite sink_set_sink_eq.
Qed.

Lemma deposit_entry (u : UserData) (md0 : option (gmap string cr_Package))
    (sh : Shared) (task : PoolTask) (res : cr_XmlStruct) (pkg : pkg_ptr)
    (key : string) :
  ptr_ok u md0 (old_metadata sh) task pkg →
  entry (old_metadata (deposit u sh task res pkg)) key
  = entry (old_metadata sh) key.
Proof.
  unfold deposit. destruct pkg as [p|k]; simpl; [done|].
  intros [-> He]. unfold exp_entry in He.
  destruct (old_metadata sh) as [ht|]; simpl; [|done].
  rewrite entry_some in *. rewrite lookup_alter. case_decide; [subst key|done].
  rewrite He.
  destruct (entry md0 (pt_filename task)); simpl; [|done]. done.
Qed.

Lemma deposit_is_Some (u : UserData) (sh : Shared) (task : PoolTask)
    (res : cr_XmlStruct) (pkg : pkg_ptr) :
  is_Some (old_metadata (deposit u sh task res pkg)) ↔ is_Some (old_metadata sh).
Proof.
  unfold deposit. destruct pkg as [p|k]; simpl; [done|].
  by rewrite fmap_is_Some.
Qed.

(** ** The serial run *)

Lemma load_phase_loaded_entry (u : UserData)
    (omd : option (gmap string cr_Package)) (task : PoolTask)
    (sb : option Stat) (old_used : bool) (res : cr_XmlStruct) (key : string)
    (ev : list Event) :
  load_phase u omd task sb old_used = Some (Loaded res (FromMd key), ev) →
  is_Some (entry omd key).
Proof.
  intros Hl. pose proof (load_phase_ptr _ _ _ _ _ _ _ _ Hl) as [-> ->].
  unfold load_phase in Hl. simpl in Hl. unfold entry.
  by destruct (omd ≫= _).
Qed.

Lemma deref_entry (sh : Shared) (pkg : pkg_ptr) :
  deref sh pkg
  = match pkg with
    | FromFile p => Some p
    | FromMd key => entry (old_metadata sh) key
    end.
Proof. done. Qed.

(** Lines 246-324 give the same on two related tables. *)
Lemma prepare_rel (u : UserData) (md0 omd : option (gmap string cr_Package))
    (task : PoolTask) (omd0' : option (gmap string cr_Package))
    (o : LoadOutcome) (ev : list Event) :
  store_rel md0 omd →
  prepare u md0 task = Some (omd0', o, ev) →
  ∃ omd', prepare u omd task = Some (omd', o, ev) ∧ store_rel md0 omd' ∧
          ∀ res pkg, o = Loaded res pkg →
                     ptr_ok u md0 omd' task pkg ∧
                     match pkg with
                     | FromFile _ => True
                     | FromMd key => is_Some (entry omd' key)
                     end.
Proof.
  intros Hrel. unfold prepare. rewrite (stat_phase_rel _ _ _ _ Hrel).
  destruct (stat_phase u md0 task) as [[|sb] ev1].
  - intros [= <- <- <-]. exists omd. by split_and!.
  - pose proof (update_phase_rel u md0 omd task sb Hrel) as Hu.
    pose proof (update_phase_rel u md0 md0 task sb (store_rel_refl _)) as Hu0.
    destruct (update_phase u md0 task sb) as [[[m0' ou0] ev0]|]; [|done].
    destruct (update_phase u omd task sb) as [[[omd' ou] ev2]|]; [|done].
    destruct Hu as (-> & -> & Hrel' & Hent & _ & _).
    destruct Hu0 as (_ & _ & _ & Hent0 & _ & _).
    rewrite (load_phase_entry u m0' omd') by (intros; by rewrite Hent, Hent0).
    destruct (load_phase u omd' task sb ou) as [[o' ev3]|] eqn:Hl; [|done].
    intros [= <- <- <-]. exists omd'. split_and!; try done.
    intros res pkg ->. pose proof (load_phase_ptr _ _ _ _ _ _ _ _ Hl) as Hp.
    destruct pkg as [pk|key]; [done|]. destruct Hp as [-> ->].
    split; [by split; [|apply Hent]|].
    by eapply load_phase_loaded_entry.
Qed.

Lemma write_pkg_alone (id : Z) (res : cr_XmlStruct) (pk : cr_Package)
    (sh : Shared) :
  (∀ s, snk_id (sink s sh) = id) →
  ∃ sh' ev, write_pkg id res pk sh = Some (sh', ev) ∧
            (∀ s, sink s sh' = sink s (write_stream s id res pk sh).1) ∧
            old_metadata sh' = old_metadata sh.
Proof.
  intros Hid. unfold write_pkg, id_pri, id_fil, id_oth.
  change (pri ?x) with (sink Pri x). change (fil ?x) with (sink Fil x).
  change (oth ?x) with (sink Oth x).
  unfold write_stream.
  rewrite bool_decide_eq_true_2 by apply Hid.
  destruct (write_block Pri _ id res pk (sink Pri sh)) as [k1 ev1] eqn:H1.
  rewrite sink_set_sink_ne by done.
  rewrite bool_decide_eq_true_2 by apply Hid.
  destruct (write_block Fil _ id res pk (sink Fil sh)) as [k2 ev2] eqn:H2.
  rewrite !sink_set_sink_ne by done.
  rewrite bool_decide_eq_true_2 by apply Hid.
  destruct (write_block Oth _ id res pk (sink Oth sh)) as [k3 ev3] eqn:H3.
  eexists _, _. split; [done|]. split; [|done].
  intros []; [rewrite H1|rewrite H2|rewrite H3]; done.
Qed.

Lemma skip_pkg_alone (id : Z) (sh : Shared) :
  (∀ s, snk_id (sink s sh) = id) →
  ∃ sh' ev, skip_pkg id sh = Some (sh', ev) ∧
            (∀ s, sink s sh' = sink s (skip_block s id sh).1) ∧
            old_metadata sh' = old_metadata sh.
Proof.
  intros Hid. unfold skip_pkg, id_pri, id_fil, id_oth, skip_block.
  change (pri ?x) with (sink Pri x). change (fil ?x) with (sink Fil x).
  change (oth ?x) with (sink Oth x).
  rewrite bool_decide_eq_true_2 by apply Hid.
  rewrite sink_set_sink_ne by done.
  rewrite bool_decide_eq_true_2 by apply Hid.
  rewrite !sink_set_sink_ne by done.
  rewrite bool_decide_eq_true_2 by apply Hid.
  eexists _, _. split; [done|]. split; [by intros []|done].
Qed.

(** *** The three claims about the cache and the extractor *)



Lemma thread_step_is_Some (u : UserData) (task : PoolTask) (p p' : pc)
    (sh sh' : Shared) (ev : list Event) :
  thread_step u task p sh = Some (p', sh', ev) →
  is_Some (old_metadata sh') ↔ is_Some (old_metadata sh).
Proof.
  destruct p as [| |stat_buf|stat_buf old_used|res pkg|s id res pkg c|failed|s| | |];
    simpl; intros Hstep.
  - by simplify_eq.
  - by destruct (stat_phase _ _ _) as [[|sb] ev']; simplify_eq.
  - unfold update_phase in Hstep.
    destruct (old_metadata sh) as [ht|]; [|by simplify_eq].
    destruct (ht !! _) as [md|]; [|by simplify_eq].
    destruct (skip_stat u); [simplify_eq; simpl; by split; eauto|].
    destruct stat_buf as [sb|]; [|done].
    destruct (_ && _); simplify_eq; simpl; by split; eauto.
  - by destruct (load_phase _ _ _ _ _) as [[[| |res pkg] ev']|]; simplify_eq.
  - destruct (buffer_admits _ _ _); simplify_eq; [|done].
    apply deposit_is_Some.
  - case_bool_decide; [|done]. destruct (deref sh pkg) as [pk|]; [|done].
    pose proof (write_stream_old_metadata s id res pk sh) as Hmd.
    destruct (write_stream _ _ _ _ _). simplify_eq. simpl in Hmd. by rewrite Hmd.
  - by case_bool_decide; simplify_eq.
  - case_bool_decide; [|done]. simplify_eq. simpl.
    by rewrite old_metadata_set_sink.
  - by destruct (drain_peek sh); simplify_eq.
  - done.
  - done.
Qed.

(** *** More on [load_rpm], [write_pkg] and the buffer *)

(** X1: [load_rpm] returns no package and leaves [*err] unset exactly when
    the package was parsed, a [stat] is at hand and the checksum could not
    be computed; an error left in [*err] comes with no package and is the
    error of the parser, the message of the failed [stat] or the prefixed
    error of the header range. *)
Theorem load_rpm_error_contract (filename : string) (ct : cr_ChecksumType)
    (cd : option string) (href : string) (base : option string) (lim : Z)
    (stat_buf : option Stat) :
  let r := load_rpm filename ct cd href base lim stat_buf in
  ((lr_pkg r = None ∧ lr_err r = None) ↔
   (∃ pkg0, cr_package_from_rpm_base filename lim = inl pkg0) ∧
   (is_Some stat_buf ∨ is_Some (stat filename)) ∧
   (∃ e, cr_checksum_file filename ct = inr e)) ∧
  (∀ e, lr_err r = Some e →
        lr_pkg r = None ∧
        (cr_package_from_rpm_base filename lim = inr e ∨
         (stat_buf = None ∧ stat filename = None ∧
          e = "stat(" +:+ filename +:+ ") failed: "
              +:+ strerror_errno filename) ∨
         (∃ e', cr_get_header_byte_range filename = inr e' ∧
                e = "Error while determinig header range: " +:+ e'))).
Proof.
  clear cr_xml_dump.
  unfold load_rpm, get_checksum.
  destruct (cr_package_from_rpm_base _ _) as [pkg0|e0]; simpl.
  2:{ split; [naive_solver|]. intros e [= <-]. eauto. }
  destruct stat_buf as [sb|]; [|destruct (stat filename) as [sb|]]; simpl.
  - destruct (cr_checksum_file _ _) as [c|e1]; simpl.
    + destruct (cr_get_header_byte_range _) as [h|e2]; simpl;
        (split; [naive_solver|]); [done|].
      intros e [= <-]. eauto 10.
    + split; [|done]. split; [|done]. intros _. eauto 10.
  - destruct (cr_checksum_file _ _) as [c|e1]; simpl.
    + destruct (cr_get_header_byte_range _) as [h|e2]; simpl;
        (split; [naive_solver|]); [done|].
      intros e [= <-]. eauto 10.
    + split; [|done]. split; [|done]. intros _. eauto 10.
  - split.
    + split; [by intros [_ [=]]|]. intros (_ & [[? [=]]|[? [=]]] & _).
    + intros e [= <-]. eauto 10.
Qed.

(** X2: the package [load_rpm] returns is the one the parser gave with the
    two locations it was called with, the name of the checksum type, the
    checksum of the file as [pkgId], the time and the size of the [stat]
    (the one passed, or its own when none is passed) and the header range
    of the file; it returns one exactly when these four calls succeed. *)
Theorem load_rpm_fills_package (filename : string) (ct : cr_ChecksumType)
    (cd : option string) (href : string) (base : option string) (lim : Z)
    (stat_buf : option Stat) (pkg : cr_Package) :
  lr_pkg (load_rpm filename ct cd href base lim stat_buf) = Some pkg ↔
  ∃ pkg0 sb c h,
    cr_package_from_rpm_base filename lim = inl pkg0 ∧
    (stat_buf = Some sb ∨ stat_buf = None ∧ stat filename = Some sb) ∧
    cr_checksum_file filename ct = inl c ∧
    cr_get_header_byte_range filename = inl h ∧
    pkg = {| pkg_name := pkg_name pkg0; pkg_pkgId := c;
             pkg_checksum_type := cr_checksum_name_str ct;
             pkg_location_href := href; pkg_location_base := base;
             pkg_time_file := st_mtime sb; pkg_size_package := st_size sb;
             pkg_rpm_header_start := h.1; pkg_rpm_header_end := h.2;
             pkg_rest := pkg_rest pkg0 |}.
Proof.
  clear cr_xml_dump.
  unfold load_rpm, get_checksum.
  destruct (cr_package_from_rpm_base _ _) as [pkg0|e0]; simpl;
    [|naive_solver].
  destruct stat_buf as [sb|]; [|destruct (stat filename) as [sb|]]; simpl.
  - destruct (cr_checksum_file _ _) as [c|e1]; simpl; [|naive_solver].
    destruct (cr_get_header_byte_range _) as [h|e2]; simpl; [|naive_solver].
    unfold with_header, with_pkgId, with_stat, with_checksum_type, with_loc.
    simpl. split.
    + intros [= <-]. by exists pkg0, sb, c, h; split_and!; eauto.
    + intros (? & ? & ? & ? & [= <-] & [[= <-]|[[=] _]] & [= <-] & [= <-] & ->).
      done.
  - destruct (cr_checksum_file _ _) as [c|e1]; simpl; [|naive_solver].
    destruct (cr_get_header_byte_range _) as [h|e2]; simpl; [|naive_solver].
    unfold with_header, with_pkgId, with_stat, with_checksum_type, with_loc.
    simpl. split.
    + intros [= <-]. by exists pkg0, sb, c, h; split_and!; eauto.
    + intros (? & ? & ? & ? & [= <-] & [[=]|[_ [= <-]]] & [= <-] & [= <-] & ->).
      done.
  - naive_solver.
Qed.

(** X3: one block of [write_pkg] advances the counter of its stream and
    keeps the handles its two callees return, whatever they report; a
    failed append is logged at the critical level in every block; a failed
    insert is logged in the primary and the filelists block; the database is
    called exactly when one is configured; and nothing else is logged. *)
Theorem write_stream_reports_failures (s : stream) (id : Z)
    (res : cr_XmlStruct) (pkg : cr_Package) (sh : Shared) :
  let k := sink s sh in
  let k' := sink s (write_stream s id res pkg sh).1 in
  let ev := (write_stream s id res pkg sh).2 in
  snk_id k' = long_succ (snk_id k) ∧
  snk_f k' = (cr_xmlfile_add_chunk (snk_f k) (chunk_of s res)).1 ∧
  snk_db k' = (λ d, (cr_db_add_pkg d pkg).1) <$> snk_db k ∧
  (∀ e, EvLog Critical (CannotAddChunk s (chunk_of s res) e) ∈ ev ↔
        (cr_xmlfile_add_chunk (snk_f k) (chunk_of s res)).2 = Some e) ∧
  (s ≠ Oth →
   ∀ e, EvLog Critical (CannotAddDb s (pkg_name pkg) (pkg_pkgId pkg) e) ∈ ev ↔
        ∃ d, snk_db k = Some d ∧ (cr_db_add_pkg d pkg).2 = Some e) ∧
  (EvDbAdd s id pkg ∈ ev ↔ is_Some (snk_db k)) ∧
  (∀ lvl msg, EvLog lvl msg ∈ ev →
     lvl = Critical ∧
     ((∃ e, msg = CannotAddChunk s (chunk_of s res) e) ∨
      (∃ e, msg = CannotAddDb s (pkg_name pkg) (pkg_pkgId pkg) e))).
Proof.
  clear cr_xml_dump cr_package_from_rpm_base cr_checksum_file
    cr_get_header_byte_range cr_checksum_name_str stat strerror_errno.
  unfold write_stream, write_block.
  destruct (cr_xmlfile_add_chunk _ _) as [f' [e1|]]; simpl;
    (destruct (snk_db (sink s sh)) as [d|]; simpl;
     [destruct (cr_db_add_pkg d pkg) as [d' [e2|]] eqn:Hdb; simpl|]);
    rewrite !sink_set_sink_eq; simpl;
    (split_and!; [done..| | | |]);
    destruct s; simpl; try list_mem;
    (intros _ e; rewrite ?elem_of_cons, ?elem_of_nil; split;
     [intros H; exists d; rewrite Hdb; simpl; naive_solver
     |intros (d0 & [= <-] & H); rewrite Hdb in H; simpl in H; naive_solver]).
Qed.

(** X4: [buf_task_sort_func] compares the ids, and [g_queue_insert_sorted]
    with it puts a result into a buffer that is in the order of the ids
    after all the results of lower ids and before all the others, moving
    none of them. *)
Theorem buffer_insert_keeps_id_order (q : list BufferedTask) (x : BufferedTask) :
  StronglySorted (λ a b, bt_id a ≤ bt_id b) q →
  (∀ a b, (buf_task_sort_func a b < 0 ↔ bt_id a < bt_id b) ∧
          (buf_task_sort_func a b = 0 ↔ bt_id a = bt_id b) ∧
          (buf_task_sort_func a b > 0 ↔ bt_id a > bt_id b)) ∧
  ∃ q1 q2,
    q = q1 ++ q2 ∧ g_queue_insert_sorted q x = q1 ++ x :: q2 ∧
    Forall (λ y, bt_id y < bt_id x) q1 ∧
    Forall (λ y, bt_id x ≤ bt_id y) q2.
Proof.
  intros Hq. split.
  { intros a b. unfold buf_task_sort_func. repeat case_bool_decide; lia. }
  induction Hq as [|y q Hq IH Hy]; simpl.
  - by exists [], [].
  - unfold buf_task_sort_func at 1. repeat case_bool_decide; try lia.
    + destruct IH as (q1 & q2 & -> & -> & H1 & H2).
      exists (y :: q1), q2. split_and!; [done..| |done]. by constructor.
    + exists [], (y :: q). split_and!; [done..|].
      constructor; [lia|]. eapply Forall_impl; [done|]. simpl. lia.
    + exists [], (y :: q). split_and!; [done..|].
      constructor; [lia|]. eapply Forall_impl; [done|]. simpl. lia.
Qed.

Lemma thread_step_cachedir (u : UserData) (cd : option string)
    (task : PoolTask) (p : pc) (sh : Shared) :
  thread_step (with_cachedir cd u) task p sh = thread_step u task p sh.
Proof. by destruct p. Qed.

(** X5: the directory [checksum_cachedir] is handed down to [get_checksum]
    and not used: no run of the pool depends on it. *)
Theorem checksum_cachedir_is_ignored (u : UserData) (cd : option string)
    (tasks : list PoolTask) (max_threads : nat) (sched : list nat)
    (st : System) :
  run (with_cachedir cd u) tasks max_threads sched st
  = run u tasks max_threads sched st.
Proof.
  revert st. induction sched as [|i sched IH]; intros st; simpl; [done|].
  assert (Hs : step (with_cachedir cd u) tasks max_threads i st
               = step u tasks max_threads i st).
  { unfold step. destruct (existsb _ _); [done|].
    destruct (tasks !! i) as [task|]; [|done].
    destruct (threads st !! i) as [p|]; [|done].
    by rewrite thread_step_cachedir. }
  rewrite Hs. by destruct (step _ _ _ _ _).
Qed.

(** *** Termination, [abort] and the table of the old metadata *)

Lemma thread_step_rank (u : UserData) (task : PoolTask) (p p' : pc)
    (sh sh' : Shared) (ev : list Event) :
  thread_step u task p sh = Some (p', sh', ev) →
  (rank p' + 4 * length (buffer sh') < rank p + 4 * length (buffer sh))%nat.
Proof.
  destruct p as [| |stat_buf|stat_buf old_used|res pkg|s id res pkg c|failed|s| | |];
    simpl; intros Hstep.
  - simplify_eq. simpl. lia.
  - destruct (stat_phase _ _ _) as [[|sb] ev']; simplify_eq; simpl; lia.
  - destruct (update_phase _ _ _ _) as [[[omd ou] ev']|]; simplify_eq.
    simpl. lia.
  - destruct (load_phase _ _ _ _ _) as [[[| |res pkg] ev']|]; simplify_eq;
      simpl; lia.
  - destruct (buffer_admits _ _ _); simplify_eq; [|simpl; lia].
    rewrite deposit_buffer, g_queue_insert_sorted_perm. simpl. lia.
  - case_bool_decide; [|done]. destruct (deref sh pkg) as [pk|]; [|done].
    pose proof (write_stream_buffer s id res pk sh) as Hb.
    destruct (write_stream _ _ _ _ _). simplify_eq. simpl in Hb. rewrite Hb.
    destruct s, c; simpl; lia.
  - case_bool_decide; simplify_eq; simpl; lia.
  - case_bool_decide; [|done]. simplify_eq. simpl.
    rewrite buffer_set_sink. destruct s; simpl; lia.
  - destruct (drain_peek sh) as [bt|] eqn:Hpeek; simplify_eq; simpl; [|lia].
    apply drain_peek_some in Hpeek as [Hbuf _]. rewrite Hbuf. simpl. lia.
  - done.
  - done.
Qed.

Lemma sum_list_rank_insert (ths : list pc) (i : nat) (p p' : pc) :
  ths !! i = Some p →
  (sum_list (rank <$> <[i := p']> ths) + rank p
   = sum_list (rank <$> ths) + rank p')%nat.
Proof.
  revert i. induction ths as [|q ths IH]; intros [|i] Hi; simplify_eq/=.
  - lia.
  - specialize (IH _ Hi). lia.
Qed.

Lemma step_weight (u : UserData) (tasks : list PoolTask) (max_threads : nat)
    (i : nat) (st st' : System) :
  step u tasks max_threads i st = Some st' → (weight st' < weight st)%nat.
Proof.
  unfold step. destruct (existsb _ _); [done|].
  destruct (tasks !! i) as [task|]; [|done].
  destruct (threads st !! i) as [p|] eqn:Hi; [|done].
  destruct (_ && _); [done|].
  destruct (thread_step u task p (shared st)) as [[[p' sh'] ev]|] eqn:Hts;
    [|done].
  intros [= <-]. unfold weight. simpl.
  pose proof (thread_step_rank _ _ _ _ _ _ _ Hts).
  pose proof (sum_list_rank_insert _ _ _ p' Hi). lia.
Qed.

(** X10: every run is finite: a run of the pool on [N] tasks, started with
    an empty buffer, has at most [13 * N] steps, whatever the schedule and
    the pool size; the loop of lines 408-430 cannot go on for ever. *)
Theorem run_takes_boundedly_many_steps (u : UserData) (tasks : list PoolTask)
    (max_threads : nat) (sh0 : Shared) (sched : list nat) (st : System) :
  buffer sh0 = [] →
  run u tasks max_threads sched (init sh0 tasks) = Some st →
  (length sched + weight st ≤ 13 * length tasks)%nat.
Proof.
  intros Hbuf.
  assert (Hgen : ∀ sched st st',
            run u tasks max_threads sched st = Some st' →
            (length sched + weight st' ≤ weight st)%nat).
  { clear. induction sched as [|i sched IH]; intros st st'; simpl.
    - intros [= <-]. lia.
    - destruct (step _ _ _ _ _) as [st1|] eqn:Hstep; [|done].
      intros Hrun. apply IH in Hrun. apply step_weight in Hstep. lia. }
  intros Hrun. apply Hgen in Hrun.
  assert (weight (init sh0 tasks) = (13 * length tasks)%nat); [|lia].
  unfold weight, init. simpl. rewrite Hbuf. simpl.
  rewrite <-list_fmap_compose.
  rewrite (sum_list_fmap_same 13) by (apply Forall_forall; done). lia.
Qed.

Lemma thread_step_aborts (u : UserData) (task : PoolTask) (p p' : pc)
    (sh sh' : Shared) (ev : list Event) :
  thread_step u task p sh = Some (p', sh', ev) → is_aborted p' = true →
  ∃ sb, p = L_load sb false ∧ (load_fresh_with u task None).1 = LoadAbort.
Proof.
  destruct p as [| |stat_buf|stat_buf old_used|res pkg|s id res pkg c|failed|s| | |];
    simpl; intros Hstep Hab.
  - by simplify_eq.
  - by destruct (stat_phase _ _ _) as [[|sb] ev']; simplify_eq.
  - by destruct (update_phase _ _ _ _) as [[[omd ou] ev']|]; simplify_eq.
  - destruct (load_phase _ _ _ _ _) as [[[| |res pkg] ev']|] eqn:Hl;
      simplify_eq; try done.
    unfold load_phase in Hl. destruct old_used; simpl in Hl.
    + destruct (_ ≫= _) as [md|]; [|done]. unfold dump_phase in Hl.
      by destruct (cr_xml_dump md); simplify_eq.
    + injection Hl as Hl. exists stat_buf. by rewrite Hl.
  - by destruct (buffer_admits _ _ _); simplify_eq.
  - case_bool_decide; [|done]. destruct (deref sh pkg) as [pk|]; [|done].
    destruct (write_stream _ _ _ _ _). simplify_eq. by destruct s, c.
  - by case_bool_decide; simplify_eq.
  - case_bool_decide; [|done]. simplify_eq. by destruct s.
  - by destruct (drain_peek sh); simplify_eq.
  - done.
  - done.
Qed.

Lemma load_fresh_aborts (u : UserData) (task : PoolTask) :
  (load_fresh_with u task None).1 = LoadAbort ↔
  (∃ pkg0, cr_package_from_rpm_base (pt_full_path task) (changelog_limit u)
           = inl pkg0) ∧
  is_Some (stat (pt_full_path task)) ∧
  (∃ e, cr_checksum_file (pt_full_path task) (checksum_type u) = inr e).
Proof.
  unfold load_fresh_with, load_rpm, get_checksum.
  destruct (cr_package_from_rpm_base _ _) as [pkg0|e0]; simpl;
    [|naive_solver].
  destruct (stat (pt_full_path task)) as [sb|]; simpl.
  2:{ split; [done|]. by intros (_ & [? [=]] & _). }
  destruct (cr_checksum_file _ _) as [c|e1]; simpl;
    [|split; [intros _; split_and!; eauto|done]].
  destruct (cr_get_header_byte_range _) as [h|e2]; simpl; [|naive_solver].
  unfold dump_phase. destruct (cr_xml_dump _); simpl; naive_solver.
Qed.

(** X11: a worker calls [abort] (the [assert] of line 298 fails) exactly
    when it reads the package from the file, the parser and [stat] succeed
    and the checksum cannot be computed; so no worker of a run ever does
    when the checksum of every task whose file can be parsed and examined
    can be computed. *)
Theorem abort_only_on_checksum_failure (u : UserData) (tasks : list PoolTask)
    (max_threads : nat) (sh0 : Shared) (sched : list nat) (st : System) :
  (∀ task sb ou sh,
     (∃ sh' ev, thread_step u task (L_load sb ou) sh = Some (Aborted, sh', ev)) ↔
     ou = false ∧
     (∃ pkg0, cr_package_from_rpm_base (pt_full_path task) (changelog_limit u)
              = inl pkg0) ∧
     is_Some (stat (pt_full_path task)) ∧
     (∃ e, cr_checksum_file (pt_full_path task) (checksum_type u) = inr e)) ∧
  ((∀ task pkg0,
      task ∈ tasks →
      cr_package_from_rpm_base (pt_full_path task) (changelog_limit u)
      = inl pkg0 →
      is_Some (stat (pt_full_path task)) →
      ∃ c, cr_checksum_file (pt_full_path task) (checksum_type u) = inl c) →
   run u tasks max_threads sched (init sh0 tasks) = Some st →
   existsb is_aborted (threads st) = false).
Proof.
  split.
  - intros task sb ou sh. rewrite <-load_fresh_aborts. split.
    + intros (sh' & ev & Hstep).
      destruct (thread_step_aborts _ _ _ _ _ _ _ Hstep) as (sb' & [= _ <-] & Hl);
        done.
    + intros [-> Hl]. simpl. unfold load_phase. simpl.
      destruct (load_fresh_with u task None) as [o ev]. simpl in Hl. subst o.
      by eexists _, _.
  - intros Hsum.
    assert (Hgen : ∀ sched st st',
              existsb is_aborted (threads st) = false →
              run u tasks max_threads sched st = Some st' →
              existsb is_aborted (threads st') = false).
    { clear sched st. induction sched as [|i sched IH]; intros st st' Hab; simpl.
      - by intros [= <-].
      - destruct (step _ _ _ _ _) as [st1|] eqn:Hstep; [|done].
        apply IH. clear IH st'.
        unfold step in Hstep. rewrite Hab in Hstep.
        destruct (tasks !! i) as [task|] eqn:Htask; [|done].
        destruct (threads st !! i) as [p|] eqn:Hi; [|done].
        destruct (_ && _); [done|].
        destruct (thread_step u task p (shared st)) as [[[p' sh'] ev]|] eqn:Hts;
          [|done].
        injection Hstep as <-. simpl.
        apply not_true_is_false. intros Hex.
        apply existsb_exists in Hex as (q & Hq%list_elem_of_In & Hqa).
        apply list_elem_of_lookup in Hq as [j Hj].
        destruct (decide (i = j)) as [<-|Hne].
        + rewrite list_lookup_insert_eq in Hj by by eapply lookup_lt_Some.
          injection Hj as <-.
          destruct (thread_step_aborts _ _ _ _ _ _ _ Hts Hqa) as (sb & _ & Hl).
          apply load_fresh_aborts in Hl as ([pkg0 Hp] & Hs & [e He]).
          destruct (Hsum task pkg0) as [c Hc]; [|done..|congruence].
          by eapply list_elem_of_lookup_2.
        + rewrite list_lookup_insert_ne in Hj by done.
          apply not_true_iff_false in Hab. apply Hab.
          apply existsb_exists. exists q. split; [|done].
          apply list_elem_of_In. by eapply list_elem_of_lookup_2. }
    apply Hgen. simpl. clear. by induction tasks.
Qed.

Lemma deposit_store (u : UserData) (md0 : option (gmap string cr_Package))
    (sh : Shared) (task : PoolTask) (res : cr_XmlStruct) (pkg : pkg_ptr) :
  store_rel md0 (old_metadata sh) →
  store_rel md0 (old_metadata (deposit u sh task res pkg)) ∧
  ∀ key, pkg ≠ FromMd key →
         entry (old_metadata (deposit u sh task res pkg)) key
         = entry (old_metadata sh) key.
Proof.
  intros [Hs Hrel]. unfold deposit. destruct pkg as [pk|k]; simpl; [by split|].
  split; [split|].
  - by rewrite fmap_is_Some.
  - intros key. rewrite <-Hrel.
    destruct (old_metadata sh) as [ht|]; simpl; [|done].
    unfold entry. simpl. rewrite lookup_alter. case_decide; [subst k|done].
    by destruct (ht !! key).
  - intros key Hne. destruct (old_metadata sh) as [ht|]; simpl; [|done].
    unfold entry. simpl. rewrite lookup_alter_ne; [done|congruence].
Qed.

(** What a step does to the table. *)
Lemma thread_step_table (u : UserData) (md0 : option (gmap string cr_Package))
    (task : PoolTask) (p p' : pc) (sh sh' : Shared) (ev : list Event) :
  thread_step u task p sh = Some (p', sh', ev) →
  (∀ res key, p = L_buffering res (FromMd key) → key = pt_filename task) →
  store_rel md0 (old_metadata sh) →
  store_rel md0 (old_metadata sh') ∧
  (∀ key, key ≠ pt_filename task →
          entry (old_metadata sh') key = entry (old_metadata sh) key) ∧
  (∀ res key, p' = L_buffering res (FromMd key) → key = pt_filename task).
Proof.
  destruct p as [| |stat_buf|stat_buf old_used|res pkg|s id res pkg c|failed|s| | |];
    simpl; intros Hstep Hp Hrel.
  - by simplify_eq.
  - by destruct (stat_phase _ _ _) as [[|sb] ev']; simplify_eq.
  - pose proof (update_phase_rel u md0 (old_metadata sh) task stat_buf Hrel)
      as Hu.
    destruct (update_phase u (old_metadata sh) _ _) as [[[omd ou] ev']|];
      [|done].
    destruct (update_phase u md0 _ _) as [[[omd0 ou0] ev0]|]; [|done].
    destruct Hu as (_ & _ & Hrel' & _ & _ & Hne). by simplify_eq.
  - destruct (load_phase _ _ _ _ _) as [[[| |res pkg] ev']|] eqn:Hl;
      simplify_eq; try done.
    split_and!; [done..|]. intros res' key [= -> ->].
    by destruct (load_phase_ptr _ _ _ _ _ _ _ _ Hl).
  - destruct (buffer_admits _ _ _); simplify_eq; [|done].
    destruct (deposit_store u md0 sh task res pkg Hrel) as [Hrel' Hne].
    split_and!; [done| |done].
    intros key Hk. apply Hne. intros ->. by destruct Hk; apply (Hp res).
  - case_bool_decide; [|done]. destruct (deref sh pkg) as [pk|]; [|done].
    pose proof (write_stream_old_metadata s id res pk sh) as Hmd.
    destruct (write_stream _ _ _ _ _). simplify_eq. simpl in Hmd.
    rewrite Hmd. split_and!; [done..|]. by destruct s, c.
  - by case_bool_decide; simplify_eq.
  - case_bool_decide; [|done]. simplify_eq. simpl.
    rewrite old_metadata_set_sink. split_and!; [done..|]. by destruct s.
  - by destruct (drain_peek sh); simplify_eq.
  - done.
  - done.
Qed.

Lemma with_loc_own (p : cr_Package) :
  with_loc (pkg_location_href p) (pkg_location_base p) p = p.
Proof. by destruct p. Qed.

(** X12: the workers give the table of the old metadata no entry and take
    none from it; of an entry they change nothing but [location_href] and
    [location_base], and they change no entry but those under the file name
    of a task. *)
Theorem old_metadata_keeps_all_but_locations (u : UserData)
    (tasks : list PoolTask) (max_threads : nat) (sh0 : Shared)
    (sched : list nat) (st : System) :
  run u tasks max_threads sched (init sh0 tasks) = Some st →
  (is_Some (old_metadata (shared st)) ↔ is_Some (old_metadata sh0)) ∧
  ∀ key,
    match entry (old_metadata sh0) key,
          entry (old_metadata (shared st)) key with
    | Some p0, Some p =>
        p = with_loc (pkg_location_href p) (pkg_location_base p) p0 ∧
        (key ∉ pt_filename <$> tasks → p = p0)
    | None, None => True
    | _, _ => False
    end.
Proof.
  intros Hrun.
  set (J := λ st : System,
         store_rel (old_metadata sh0) (old_metadata (shared st)) ∧
         (∀ key, key ∉ pt_filename <$> tasks →
                 entry (old_metadata (shared st)) key
                 = entry (old_metadata sh0) key) ∧
         (∀ i task res key,
            tasks !! i = Some task →
            threads st !! i = Some (L_buffering res (FromMd key)) →
            key = pt_filename task)).
  assert (Hgen : ∀ sched st st',
            J st → run u tasks max_threads sched st = Some st' → J st').
  { clear sched st Hrun.
    induction sched as [|i sched IH]; intros st st' HJ; simpl.
    - by intros [= <-].
    - destruct (step _ _ _ _ _) as [st1|] eqn:Hstep; [|done].
      apply IH. clear IH st'. destruct HJ as (Hrel & Hfr & Hbuf).
      unfold step in Hstep. destruct (existsb _ _); [done|].
      destruct (tasks !! i) as [task|] eqn:Htask; [|done].
      destruct (threads st !! i) as [p|] eqn:Hi; [|done].
      destruct (_ && _); [done|].
      destruct (thread_step u task p (shared st)) as [[[p' sh'] ev]|] eqn:Hts;
        [|done].
      injection Hstep as <-.
      destruct (thread_step_table _ (old_metadata sh0) _ _ _ _ _ _ Hts)
        as (Hrel' & Hne & Hnew);
        [|done|].
      { intros res key ->. by eapply Hbuf. }
      split_and!; simpl; [done| |].
      + intros key Hk. rewrite Hne; [by apply Hfr|]. intros ->. apply Hk.
        apply list_elem_of_fmap_2. by eapply list_elem_of_lookup_2.
      + intros j tj res key Htj Hj. destruct (decide (i = j)) as [<-|Hij].
        * rewrite list_lookup_insert_eq in Hj by by eapply lookup_lt_Some.
          injection Hj as ->. simplify_eq. by eapply Hnew.
        * rewrite list_lookup_insert_ne in Hj by done. by eapply Hbuf. }
  assert (H0 : J (init sh0 tasks)).
  { split_and!; [apply store_rel_refl|done|]. simpl.
    by intros i task res key _ [t [[=] _]]%list_lookup_fmap_Some. }
  destruct (Hgen _ _ _ H0 Hrun) as ([Hs Hrel] & Hfr & _).
  split; [done|]. intros key.
  pose proof (store_rel_entry _ _ key (conj Hs Hrel)) as He.
  specialize (Hfr key).
  destruct (entry (old_metadata sh0) key) as [p0|],
           (entry (old_metadata (shared st)) key) as [p|]; try done.
  split.
  - rewrite <-(strip_eq_with_loc _ _ p p0 He). symmetry. apply with_loc_own.
  - intros Hk. specialize (Hfr Hk). by injection Hfr.
Qed.

Section Pool.

Variable u : UserData.
Variable tasks : list PoolTask.
Variable max_threads : nat.

(** The ids of the tasks are their ranks in the queue (I1), and they fit
    a [long]. *)
Hypothesis dense_ids : ∀ i task, tasks !! i = Some task → pt_id task = Z.of_nat i.
Hypothesis count_fits : Z.of_nat (length tasks) ≤ LONG_MAX.

Local Abbreviation n := (Z.of_nat (length tasks)).

Lemma thread_step_core (sh sh' : Shared) (ths : list pc) (i : nat)
    (task : PoolTask) (p p' : pc) (ev : list Event) :
  core_inv n sh ths → tasks !! i = Some task → ths !! i = Some p →
  thread_step u task p sh = Some (p', sh', ev) →
  core_inv n sh' (<[i := p']> ths).
Proof.
  intros Hinv Htask Hi Hstep.
  assert (Hown := dense_ids _ _ Htask).
  destruct p as [| |stat_buf|stat_buf old_used|res pkg|s id res pkg c|failed|s| | |];
    simpl in Hstep.
  - (* Queued *)
    injection Hstep as <- <- <-. by eapply core_local.
  - (* L_stat *)
    destruct (stat_phase _ _ _) as [[|sb] ev']; injection Hstep as <- <- <-;
      by eapply core_local.
  - (* L_update *)
    destruct (update_phase _ _ _ _) as [[[omd ou] ev']|]; [|done].
    injection Hstep as <- <- <-. by eapply core_local.
  - (* L_load *)
    destruct (load_phase _ _ _ _ _) as [[[| |res pkg] ev']|]; [..|done];
      injection Hstep as <- <- <-; by eapply core_local.
  - (* L_buffering *)
    destruct (buffer_admits _ _ _) eqn:Hadm; injection Hstep as <- <- <-.
    + unfold buffer_admits in Hadm.
      apply andb_prop in Hadm as [[Hl Hne]%andb_prop _].
      apply bool_decide_eq_true in Hl. apply negb_true_iff in Hne.
      apply bool_decide_eq_false in Hne.
      apply (core_deposit _ _ _ _ _ _
               {| bt_id := pt_id task; bt_res := res; bt_pkg := pkg;
                  bt_location_href :=
                    if is_md pkg then Some (location_href_of u task) else None;
                  bt_pkg_from_md := is_md pkg |} Hinv Hi); simpl; try done.
      * intros s. by rewrite Hown.
      * intros s. by rewrite deposit_sink.
      * apply deposit_buffer.
    + eapply core_local; [done..| | |done]; simpl.
      * intros s. by rewrite Hown.
      * by rewrite Hown.
  - (* L_write *)
    case_bool_decide as Hid; [|done].
    destruct (deref sh pkg) as [pk|]; [|done].
    pose proof (write_stream_sink_id s id res pk sh) as Hsink.
    pose proof (write_stream_buffer s id res pk sh) as Hbuf.
    destruct (write_stream _ _ _ _ _) as [sh1 ev1]. simpl in *.
    injection Hstep as <- <- <-.
    assert (Hb : snk_id (sink s sh) ≤ id < n).
    { eapply held_bounds; [done..|]. simpl. rewrite stream_le_refl. by left. }
    assert (H0 := proj1 (ci_bounds _ _ _ Hinv s)).
    assert (Hok := ci_threads _ _ _ Hinv _ _ Hi). simpl in Hok.
    eapply (core_advance _ _ _ _ _ _ _ s id); try done.
    + simpl. by rewrite stream_le_refl.
    + rewrite holds_after_write. by case_decide.
    + intros s' Hs'. rewrite holds_after_write. by case_decide.
    + rewrite Hsink. case_decide; [|done]. by rewrite Hid.
    + intros s' Hs'. rewrite Hsink. by case_decide.
    + apply will_drain_after_write.
    + unfold id_pri. change (pri ?a) with (sink Pri a). rewrite Hsink.
      destruct Hok as [Hc Hlt].
      destruct s; simpl in *; try case_decide; try done.
      * split; [done|]. intros _. rewrite Hid.
        rewrite long_succ_exact by (unfold LONG_MAX in *; lia). lia.
      * split; [done|]. intros _. by apply Hlt.
      * destruct c; [|done]. rewrite <-Hc by done. by apply Hlt.
  - (* L_task_cleanup *)
    assert (Hok := ci_threads _ _ _ Hinv _ _ Hi).
    case_bool_decide as Hle; injection Hstep as <- <- <-.
    + destruct failed; simpl in Hok; [|lia].
      by eapply core_local.
    + destruct failed; simpl in Hok.
      * exfalso. apply Hle. rewrite Hown.
        eapply (held_bounds _ _ _ Pri); [done..|]. simpl. by left.
      * by eapply core_local.
  - (* L_skip *)
    case_bool_decide as Hid; [|done].
    injection Hstep as <- <- <-.
    eapply (core_advance _ _ _ _ _ _ _ s (Z.of_nat i)); try done.
    + by rewrite Hid.
    + simpl. by rewrite stream_le_refl.
    + rewrite holds_after_skip. by case_decide.
    + intros s' Hs'. rewrite holds_after_skip. by case_decide.
    + by rewrite sink_set_sink_eq, Hid, Hown.
    + intros s' Hs'. by rewrite sink_set_sink_ne.
    + apply buffer_set_sink.
    + apply will_drain_after_skip.
    + by destruct s.
  - (* L_drain *)
    destruct (drain_peek sh) as [bt|] eqn:Hpeek; injection Hstep as <- <- <-.
    + apply drain_peek_some in Hpeek as [Hbuf Hhead].
      eapply core_pop; try done.
    + by eapply core_return.
  - done.
  - done.
Qed.

(** The invariant holds along every run. *)
Lemma step_core (i : nat) (st st' : System) :
  core_inv n (shared st) (threads st) →
  step u tasks max_threads i st = Some st' →
  core_inv n (shared st') (threads st').
Proof.
  intros Hinv. unfold step. destruct (existsb _ _); [done|].
  destruct (tasks !! i) as [task|] eqn:Htask; [|done].
  destruct (threads st !! i) as [p|] eqn:Hi; [|done].
  destruct (_ && _); [done|].
  destruct (thread_step u task p (shared st)) as [[[p' sh'] ev]|] eqn:Hstep;
    [|done].
  intros [= <-]. simpl. by eapply thread_step_core.
Qed.

Lemma run_core (sched : list nat) (st st' : System) :
  core_inv n (shared st) (threads st) →
  run u tasks max_threads sched st = Some st' →
  core_inv n (shared st') (threads st').
Proof.
  revert st. induction sched as [|i sched IH]; intros st Hinv; simpl.
  - by intros [= <-].
  - destruct (step _ _ _ _ _) as [st1|] eqn:Hstep; [|done].
    apply IH. by eapply step_core.
Qed.

Lemma reachable_core (sh : Shared) (sched : list nat) (st : System) :
  fresh sh →
  run u tasks max_threads sched (init sh tasks) = Some st →
  core_inv n (shared st) (threads st).
Proof.
  intros Hfresh Hrun. eapply run_core; [|done]. by apply init_core.
Qed.

(** C2: for every number of tasks and whatever fails (the collaborators
    are arbitrary), once every call of [cr_dumper_thread] has returned the
    counters [id_pri], [id_fil] and [id_oth] all equal the number of
    tasks. *)
Theorem counters_reach_package_count (sh : Shared) (sched : list nat)
    (st : System) :
  fresh sh →
  run u tasks max_threads sched (init sh tasks) = Some st →
  all_returned st →
  id_pri (shared st) = n ∧ id_fil (shared st) = n ∧ id_oth (shared st) = n.
Proof.
  intros Hfresh Hrun Hall.
  destruct (core_all_returned n (shared st) (threads st)) as [Hid _];
    [by eapply reachable_core|done|].
  split_and!; [apply (Hid Pri)|apply (Hid Fil)|apply (Hid Oth)].
Qed.

Lemma thread_step_trace_ok (sh sh' : Shared) (ths : list pc)
    (evs : list (nat * Event)) (i : nat) (task : PoolTask) (p p' : pc)
    (ev : list Event) :
  core_inv n sh ths → trace_inv sh ths evs →
  tasks !! i = Some task → ths !! i = Some p →
  thread_step u task p sh = Some (p', sh', ev) →
  trace_ok (evs ++ ((λ e, (i, e)) <$> ev)) (Z.of_nat i) p'.
Proof.
  intros Hinv Htr Htask Hi Hstep.
  assert (Hown := dense_ids _ _ Htask).
  assert (Hold := ti_threads _ _ _ Htr _ _ Hi).
  assert (Hcore := ci_threads _ _ _ Hinv _ _ Hi).
  pose proof (thread_step_events _ _ _ _ _ _ _ Pri Hstep) as (_ & _ & _ & Hf).
  assert (Hfail : ∀ id, failed (evs ++ ((λ e, (i, e)) <$> ev)) id ↔
            failed evs id ∨ (Z.of_nat i = id ∧ step_fails p p' = true)).
  { intros id. by rewrite failed_app, Hf. }
  destruct p as [| |stat_buf|stat_buf old_used|res pkg|s id res pkg c|failed|s| | |];
    simpl in Hstep, Hold, Hcore.
  - simplify_eq. simpl. rewrite Hfail. naive_solver.
  - destruct (stat_phase _ _ _) as [[|sb] ev']; simplify_eq; simpl;
      rewrite Hfail; naive_solver.
  - destruct (update_phase _ _ _ _) as [[[omd ou] ev']|]; [|done].
    simplify_eq. simpl. rewrite Hfail. naive_solver.
  - destruct (load_phase _ _ _ _ _) as [[[| |res pkg] ev']|]; [..|done];
      simplify_eq; simpl; rewrite ?Hfail; naive_solver.
  - destruct (buffer_admits _ _ _); simplify_eq; simpl; [done|].
    rewrite Hfail, Hown. naive_solver.
  - case_bool_decide as Hid; [|done]. destruct (deref sh pkg) as [pk|]; [|done].
    destruct (write_stream _ _ _ _ _) as [sh1 ev1]. simplify_eq.
    destruct s, c; simpl; rewrite ?Hfail; naive_solver.
  - case_bool_decide as Hle; simplify_eq; simpl; [|done].
    rewrite Hfail. destruct failed; [by left|]. rewrite Hown in Hle. lia.
  - case_bool_decide as Hid; [|done]. simplify_eq.
    destruct s; simpl; rewrite ?Hfail; naive_solver.
  - destruct (drain_peek sh) as [bt|] eqn:Hpeek; simplify_eq; simpl; [|done].
    apply drain_peek_some in Hpeek as [Hbuf _].
    rewrite Hfail. intros [Hfl|[_ ?]]; [|done].
    eapply (ti_buffer _ _ _ Htr); [|done]. rewrite Hbuf. by left.
  - done.
  - done.
Qed.

Lemma thread_step_trace (sh sh' : Shared) (ths : list pc)
    (evs : list (nat * Event)) (i : nat) (task : PoolTask) (p p' : pc)
    (ev : list Event) :
  core_inv n sh ths → trace_inv sh ths evs →
  tasks !! i = Some task → ths !! i = Some p →
  thread_step u task p sh = Some (p', sh', ev) →
  trace_inv sh' (<[i := p']> ths) (evs ++ ((λ e, (i, e)) <$> ev)).
Proof.
  intros Hinv Htr Htask Hi Hstep.
  assert (Hown := dense_ids _ _ Htask).
  assert (Hlt := lookup_lt_Some _ _ _ Hi).
  pose proof (thread_step_events _ _ _ _ _ _ _ Pri Hstep) as (_ & _ & _ & Hf).
  assert (Hfail : ∀ id, failed (evs ++ ((λ e, (i, e)) <$> ev)) id ↔
            failed evs id ∨ (Z.of_nat i = id ∧ step_fails p p' = true)).
  { intros id. by rewrite failed_app, Hf. }
  assert (Hfresh : step_fails p p' = true →
            (∀ s, Z.of_nat i ∉ project (written_id s) evs) ∧
            (∀ j s id res pkg c, j ≠ i →
               ths !! j = Some (L_write s id res pkg c) → id ≠ Z.of_nat i) ∧
            (∀ bt, bt ∈ buffer sh → bt_id bt ≠ Z.of_nat i)).
  { intros Hsf.
    destruct (thread_step_fails _ _ _ _ _ _ _ (Z.of_nat i) Hstep Hsf) as [_ Hh].
    by eapply own_id_untouched. }
  split.
  - (* the advances *)
    intros s. rewrite project_app, project_tag, (ti_adv _ _ _ Htr).
    pose proof (thread_step_events _ _ _ _ _ _ _ s Hstep) as (_ & _ & -> & _).
    assert (H0 := proj1 (ci_bounds _ _ _ Hinv s)).
    destruct (thread_step_counter _ _ _ _ _ _ _ s Hstep) as [[-> ->]|[Ha ->]].
    + by rewrite app_nil_r.
    + rewrite Ha.
      assert (snk_id (sink s sh) ≤ snk_id (sink s sh) < n).
      { destruct p; simpl in Ha; try done; case_decide; try done; subst.
        - rewrite app_nil_r in Ha. injection Ha as Ha.
          eapply (held_bounds _ _ _ s); [done..|]. simpl.
          rewrite stream_le_refl, Ha. by left.
        - injection Ha as Ha.
          eapply (held_bounds _ _ _ s); [done..|]. simpl.
          rewrite stream_le_refl, <-Hown, Ha. by left. }
      rewrite long_succ_exact by (unfold LONG_MAX in *; lia).
      rewrite (seqZ_app 0 (snk_id (sink s sh)) 1) by lia.
      by rewrite Z.add_0_l.
  - (* the records *)
    intros s id. rewrite project_app, project_tag, Hfail.
    pose proof (thread_step_events _ _ _ _ _ _ _ s Hstep) as (-> & _ & _ & _).
    intros [Hin|Hin]%elem_of_app [Hfl|[<- Hsf]].
    + by eapply (ti_written _ _ _ Htr).
    + by eapply (proj1 (Hfresh Hsf)).
    + destruct p; simpl in Hin; try by apply elem_of_nil in Hin.
      case_decide; [|by apply elem_of_nil in Hin].
      apply list_elem_of_singleton in Hin as ->.
      by apply (ti_threads _ _ _ Htr _ _ Hi).
    + destruct p; simpl in Hin; try by apply elem_of_nil in Hin.
      by destruct p'.
  - (* the skips *)
    intros s id. rewrite project_app, project_tag, Hfail.
    pose proof (thread_step_events _ _ _ _ _ _ _ s Hstep) as (_ & -> & _ & _).
    intros [Hin|Hin]%elem_of_app.
    + left. by eapply (ti_skipped _ _ _ Htr).
    + left. destruct p; simpl in Hin; try by apply elem_of_nil in Hin.
      case_decide; [|by apply elem_of_nil in Hin].
      apply list_elem_of_singleton in Hin as ->. rewrite Hown.
      by apply (ti_threads _ _ _ Htr _ _ Hi).
  - (* the workers *)
    intros j q Hj. destruct (decide (i = j)) as [<-|Hne].
    + rewrite list_lookup_insert_eq in Hj by done. injection Hj as <-.
      by eapply thread_step_trace_ok.
    + rewrite list_lookup_insert_ne in Hj by done.
      assert (Hq := ti_threads _ _ _ Htr _ _ Hj).
      assert (Hother : ¬ failed evs (Z.of_nat j) →
                ¬ failed (evs ++ ((λ e, (i, e)) <$> ev)) (Z.of_nat j)).
      { rewrite Hfail. intros ? [?|[? _]]; [done|lia]. }
      destruct q as [| | | | |s id res pkg c|[]| | | |]; simpl in *;
        try done; try by apply Hother.
      * rewrite Hfail. intros [?|[<- Hsf]]; [done|].
        by eapply (proj1 (proj2 (Hfresh Hsf)) j).
      * rewrite Hfail. by left.
      * rewrite Hfail. by left.
  - (* the buffer *)
    intros bt Hbt. rewrite Hfail.
    destruct (thread_step_buffer _ _ _ _ _ _ _ bt Hstep Hbt)
      as [Hin|(res & pkg & -> & Hid)].
    + intros [Hfl|[Heq Hsf]].
      * by eapply (ti_buffer _ _ _ Htr).
      * by eapply (proj2 (proj2 (Hfresh Hsf))).
    + intros [Hfl|[_ Hsf]]; [|by destruct p'].
      rewrite Hid, Hown in Hfl. by apply (ti_threads _ _ _ Htr _ _ Hi).
Qed.

Lemma step_pool_inv (i : nat) (st st' : System) :
  pool_inv n st → step u tasks max_threads i st = Some st' → pool_inv n st'.
Proof.
  intros [Hinv Htr]. unfold step. destruct (existsb _ _); [done|].
  destruct (tasks !! i) as [task|] eqn:Htask; [|done].
  destruct (threads st !! i) as [p|] eqn:Hi; [|done].
  destruct (_ && _); [done|].
  destruct (thread_step u task p (shared st)) as [[[p' sh'] ev]|] eqn:Hstep;
    [|done].
  intros [= <-]. split; simpl.
  - by eapply thread_step_core.
  - by eapply thread_step_trace.
Qed.

Lemma run_pool_inv (sched : list nat) (st st' : System) :
  pool_inv n st → run u tasks max_threads sched st = Some st' → pool_inv n st'.
Proof.
  revert st. induction sched as [|i sched IH]; intros st Hinv; simpl.
  - by intros [= <-].
  - destruct (step _ _ _ _ _) as [st1|] eqn:Hstep; [|done].
    apply IH. by eapply step_pool_inv.
Qed.

Lemma reachable_pool_inv (sh : Shared) (sched : list nat) (st : System) :
  fresh sh →
  run u tasks max_threads sched (init sh tasks) = Some st →
  pool_inv n st.
Proof.
  intros Hfresh Hrun. eapply run_pool_inv; [|done].
  split; [by apply init_core|by apply init_trace].
Qed.

(** In every state of every run, each stream has exactly one record or one
    skip for each id below its counter and nothing for the others; records
    and skips never mix for one id. *)
Lemma reachable_advances (st : System) (s : stream) (id : Z) :
  pool_inv n st →
  (records s id (events st) + skips s id (events st))%nat
  = if decide (0 ≤ id < snk_id (sink s (shared st))) then 1%nat else 0%nat.
Proof.
  intros [Hinv Htr].
  rewrite <-occurrences_advanced, (ti_adv _ _ _ Htr).
  rewrite occurrences_NoDup by apply NoDup_seqZ.
  repeat case_decide; try done; rewrite elem_of_seqZ in *; lia.
Qed.

Lemma reachable_records_not_failed (st : System) (s : stream) (id : Z) :
  pool_inv n st → records s id (events st) ≠ 0%nat → ¬ failed (events st) id.
Proof.
  intros [_ Htr] Hrec. apply (ti_written _ _ _ Htr s).
  destruct (decide (id ∈ project (written_id s) (events st))) as [|Hn];
    [done|].
  by apply occurrences_zero in Hn.
Qed.

Lemma reachable_skips_failed (st : System) (s : stream) (id : Z) :
  pool_inv n st → skips s id (events st) ≠ 0%nat → failed (events st) id.
Proof.
  intros [_ Htr] Hrec. apply (ti_skipped _ _ _ Htr s).
  destruct (decide (id ∈ project (skipped_id s) (events st))) as [|Hn];
    [done|].
  by apply occurrences_zero in Hn.
Qed.

Lemma seqZ_sorted (m k : Z) : StronglySorted Z.lt (seqZ m k).
Proof.
  destruct (decide (0 < k)) as [Hk|Hk]; [|rewrite seqZ_nil by lia; constructor].
  rewrite <-(Z2Nat.id k) by lia. clear Hk. revert m.
  induction (Z.to_nat k) as [|j IH]; intros m.
  - rewrite seqZ_nil by lia. constructor.
  - rewrite seqZ_cons by lia.
    replace (Z.pred (Z.of_nat (S j))) with (Z.of_nat j) by lia.
    constructor; [apply IH|]. apply Forall_forall. intros x Hx.
    apply elem_of_seqZ in Hx. lia.
Qed.

Lemma omap_sorted_sub {A} (f g : A → option Z) (l : list A) :
  (∀ a x, f a = Some x → g a = Some x) →
  StronglySorted Z.lt (omap g l) → StronglySorted Z.lt (omap f l).
Proof.
  intros Hsub. induction l as [|a l IH]; simpl; [done|].
  destruct (f a) as [x|] eqn:Hf.
  - rewrite (Hsub _ _ Hf). intros [Hs Hall]%StronglySorted_inv.
    constructor; [by apply IH|]. rewrite Forall_forall in *.
    intros y (b & Hb & Hy)%list_elem_of_omap. apply Hall.
    apply list_elem_of_omap. exists b. eauto.
  - destruct (g a) as [y|]; [|done].
    intros [Hs _]%StronglySorted_inv. by apply IH.
Qed.









Lemma length_project_advanced (s : stream) (evs : list (nat * Event)) :
  length (project (advanced_id s) evs)
  = (length (project (written_id s) evs)
     + length (project (skipped_id s) evs))%nat.
Proof.
  unfold project. induction evs as [|[w e] evs IH]; [done|].
  change (omap ?g (?x :: ?l))
    with (match g x with Some y => y :: omap g l | None => omap g l end).
  destruct e as [| |s' id' c| |s' id']; simpl; try done;
    case_decide; simpl; lia.
Qed.

(** C9: at [task_cleanup] the failure path runs exactly when [id_pri] has
    not passed the id of the task; in every state of every run that is the
    case exactly when the label was reached by a [goto]; no counter is ever
    skipped twice for an id, none is skipped for an id that has a record,
    only ids whose worker reported a failure are skipped, and when every
    worker has returned each counter has been skipped exactly once for each
    such id.  A skip is an advance of the counter: the block of the failure
    path for a stream waits until the counter of the stream is the id of
    the task, then takes it to the id plus one and touches nothing else; in
    every state of every run the value of each counter is the number of
    records and skips of its stream, the advance that takes it from [k] to
    [k + 1] being the one of id [k]; and the counter has passed a failed id
    exactly when that id has its one skip. *)
Theorem skip_runs_once_per_failed_id (sh : Shared) (sched : list nat)
    (st : System) :
  fresh sh →
  run u tasks max_threads sched (init sh tasks) = Some st →
  (∀ task fl sh1,
     thread_step u task (L_task_cleanup fl) sh1
     = Some (if bool_decide (id_pri sh1 ≤ pt_id task) then L_skip Pri
             else L_drain, sh1, [])) ∧
  (∀ i fl, threads st !! i = Some (L_task_cleanup fl) →
           (id_pri (shared st) ≤ Z.of_nat i ↔ fl = true)) ∧
  (∀ s id, (skips s id (events st) ≤ 1)%nat) ∧
  (∀ s s' id, records s' id (events st) ≠ 0%nat → skips s id (events st) = 0%nat) ∧
  (∀ s id, skips s id (events st) ≠ 0%nat → failed (events st) id) ∧
  (all_returned st →
   ∀ s id, 0 ≤ id < n → failed (events st) id → skips s id (events st) = 1%nat) ∧
  (∀ i task s sh1,
     tasks !! i = Some task →
     (snk_id (sink s sh1) ≠ pt_id task →
      thread_step u task (L_skip s) sh1 = None) ∧
     (snk_id (sink s sh1) = pt_id task →
      ∃ sh',
        thread_step u task (L_skip s) sh1
        = Some (after_skip s, sh', [EvSkip s (pt_id task)]) ∧
        snk_id (sink s sh') = pt_id task + 1 ∧
        snk_f (sink s sh') = snk_f (sink s sh1) ∧
        snk_db (sink s sh') = snk_db (sink s sh1) ∧
        (∀ s', s' ≠ s → sink s' sh' = sink s' sh1) ∧
        buffer sh' = buffer sh1 ∧ old_metadata sh' = old_metadata sh1)) ∧
  (∀ s,
     project (advanced_id s) (events st)
     = seqZ 0 (snk_id (sink s (shared st))) ∧
     snk_id (sink s (shared st))
     = Z.of_nat (length (project (written_id s) (events st))
                 + length (project (skipped_id s) (events st)))) ∧
  (∀ s id,
     failed (events st) id →
     (0 ≤ id < snk_id (sink s (shared st)) ↔ skips s id (events st) = 1%nat)).
Proof.
  intros Hfresh Hrun.
  assert (Hinv := reachable_pool_inv _ _ _ Hfresh Hrun).
  split_and!.
  - intros task fl sh1. simpl. by case_bool_decide.
  - intros i fl Hi. destruct Hinv as [Hinv _].
    assert (Hok := ci_threads _ _ _ Hinv _ _ Hi).
    destruct fl; simpl in Hok.
    + split; [done|]. intros _.
      eapply (held_bounds _ _ _ Pri); [done..|]. simpl. by left.
    + split; [lia|done].
  - intros s id. pose proof (reachable_advances st s id Hinv).
    case_decide; lia.
  - intros s s' id Hrec.
    destruct (skips s id (events st)) eqn:Hsk; [done|].
    exfalso. eapply reachable_records_not_failed; [done..|].
    eapply (reachable_skips_failed _ s); [done|]. by rewrite Hsk.
  - intros s id. by apply reachable_skips_failed.
  - intros Hall s id Hid Hf.
    destruct (core_all_returned n (shared st) (threads st)) as [Hcnt _];
      [apply Hinv|done|].
    pose proof (reachable_advances st s id Hinv) as Hsum.
    rewrite Hcnt, decide_True in Hsum by done.
    pose proof (reachable_records_not_failed st s id Hinv).
    destruct (records s id (events st)); [lia|]. naive_solver.
  - intros i task s sh1 Htask.
    assert (Hown := dense_ids _ _ Htask).
    assert (Hlt := lookup_lt_Some _ _ _ Htask).
    split; intros Hc; simpl.
    + by rewrite bool_decide_eq_false_2.
    + rewrite bool_decide_eq_true_2 by done.
      eexists. split; [done|]. simpl.
      rewrite sink_set_sink_eq, buffer_set_sink, old_metadata_set_sink. simpl.
      split_and!; [|done|done| |done|done].
      * rewrite Hc. apply long_succ_exact. unfold LONG_MAX in *. lia.
      * intros s' Hne. by apply sink_set_sink_ne.
  - intros s. destruct Hinv as [Hc Htr].
    assert (Hadv := ti_adv _ _ _ Htr s). split; [done|].
    rewrite <-length_project_advanced, Hadv, length_seqZ.
    pose proof (ci_bounds _ _ _ Hc s). lia.
  - intros s id Hf.
    pose proof (reachable_advances st s id Hinv) as Hsum.
    pose proof (reachable_records_not_failed st s id Hinv) as Hrec.
    destruct (records s id (events st)) as [|r]; [|by destruct Hrec].
    case_decide; split; intros; (done || lia).
Qed.



Lemma write_stream_sink_ne (s s' : stream) (id : Z) (res : cr_XmlStruct)
    (pkg : cr_Package) (sh : Shared) :
  s ≠ s' → sink s' (write_stream s id res pkg sh).1 = sink s' sh.
Proof.
  intros Hne. unfold write_stream. destruct (write_block _ _ _ _ _ _) as [k ev].
  by apply sink_set_sink_ne.
Qed.

Lemma step_write (i : nat) (st : System) (task : PoolTask) (s : stream)
    (id : Z) (res : cr_XmlStruct) (pk : cr_Package) (c : caller) :
  existsb is_aborted (threads st) = false →
  tasks !! i = Some task →
  threads st !! i = Some (L_write s id res (FromFile pk) c) →
  step u tasks max_threads i st
  = if bool_decide (snk_id (sink s (shared st)) = id) then
      Some {| shared := (write_stream s id res pk (shared st)).1;
              threads := <[i := after_write s id res (FromFile pk) c]> (threads st);
              events := events st ++
                ((λ e, (i, e)) <$> (write_stream s id res pk (shared st)).2) |}
    else None.
Proof.
  intros Hab Htask Hi. unfold step. rewrite Hab, Htask, Hi. simpl.
  case_bool_decide; [|done]. by destruct (write_stream _ _ _ _ _).
Qed.

(** C8: [write_pkg] goes through the streams in the order primary,
    filelists, other; on each stream it waits until the counter of that
    stream equals the id, then adds one to that counter and appends, and
    touches nothing of the two other streams; so a worker that has written
    the primary record of [id] and has still to write its filelists record
    lets the worker of [id + 1] write its primary record. *)
Theorem write_pkg_streams_in_order :
  (∀ task res pkg sh,
     buffer_admits u sh task = false →
     thread_step u task (L_buffering res pkg) sh
     = Some (L_write Pri (pt_id task) res pkg Main, sh, [])) ∧
  (∀ id res pkg c,
     after_write Pri id res pkg c = L_write Fil id res pkg c ∧
     after_write Fil id res pkg c = L_write Oth id res pkg c ∧
     after_write Oth id res pkg c
     = match c with Main => L_task_cleanup false | Drain => L_drain end) ∧
  (∀ task s id res pkg c sh,
     snk_id (sink s sh) ≠ id →
     thread_step u task (L_write s id res pkg c) sh = None) ∧
  (∀ task s id res pkg c sh pk,
     snk_id (sink s sh) = id → deref sh pkg = Some pk →
     ∃ sh' ev,
       thread_step u task (L_write s id res pkg c) sh
       = Some (after_write s id res pkg c, sh', ev) ∧
       snk_id (sink s sh') = long_succ id ∧
       snk_f (sink s sh')
       = (cr_xmlfile_add_chunk (snk_f (sink s sh)) (chunk_of s res)).1 ∧
       (∀ s', s ≠ s' → sink s' sh' = sink s' sh) ∧
       omap (written_id s) ev = [id]) ∧
  (∀ st a b ta tb id resa pka ca resb pkb cb,
     a ≠ b → tasks !! a = Some ta → tasks !! b = Some tb →
     existsb is_aborted (threads st) = false →
     threads st !! a = Some (L_write Pri id resa (FromFile pka) ca) →
     threads st !! b = Some (L_write Pri (id + 1) resb (FromFile pkb) cb) →
     id_pri (shared st) = id → 0 ≤ id → id + 1 < LONG_MAX →
     step u tasks max_threads b st = None ∧
     ∃ st', run u tasks max_threads [a; b] st = Some st' ∧
            threads st' !! a = Some (L_write Fil id resa (FromFile pka) ca) ∧
            threads st' !! b = Some (L_write Fil (id + 1) resb (FromFile pkb) cb) ∧
            id_pri (shared st') = id + 2 ∧
            sink Fil (shared st') = sink Fil (shared st) ∧
            sink Oth (shared st') = sink Oth (shared st)).
Proof.
  split_and!.
  - intros task res pkg sh Hadm. simpl. by rewrite Hadm.
  - done.
  - intros task s id res pkg c sh Hne. simpl. by rewrite bool_decide_eq_false_2.
  - intros task s id res pkg c sh pk Hid Hpk. simpl.
    rewrite bool_decide_eq_true_2, Hpk by done.
    pose proof (write_stream_sink_id s id res pk sh s) as Hcnt.
    pose proof (write_stream_sink_ne s) as Hne.
    pose proof (write_block_f s (db_err_arg s) id res pk (sink s sh)) as Hf.
    pose proof (write_block_events s (db_err_arg s) id res pk (sink s sh) s)
      as (Hw & _).
    rewrite decide_True in Hw by done. rewrite decide_True in Hcnt by done.
    unfold write_stream in *.
    destruct (write_block _ _ _ _ _ _) as [k ev]. simpl in *.
    eexists _, _. split; [done|].
    rewrite sink_set_sink_eq in *. rewrite Hid in Hcnt. split_and!; try done.
    intros s' Hs'. by apply sink_set_sink_ne.
  - intros st a b ta tb id resa pka ca resb pkb cb Hab Hta Htb Hnab Ha Hb Hid
      H0 Hmax.
    assert (Hla := lookup_lt_Some _ _ _ Ha).
    assert (Hlb := lookup_lt_Some _ _ _ Hb).
    unfold id_pri in Hid. change (pri ?x) with (sink Pri x) in Hid.
    split.
    + rewrite (step_write _ _ _ _ _ _ _ _ Hnab Htb Hb).
      rewrite bool_decide_eq_false_2; [done|lia].
    + simpl. rewrite (step_write _ _ _ _ _ _ _ _ Hnab Hta Ha).
      rewrite bool_decide_eq_true_2 by done.
      pose proof (write_stream_sink_id Pri id resa pka (shared st) Pri) as Hcnt.
      pose proof (write_stream_sink_ne Pri Fil id resa pka (shared st)) as Hfil.
      pose proof (write_stream_sink_ne Pri Oth id resa pka (shared st)) as Hoth.
      destruct (write_stream Pri id resa pka (shared st)) as [sh1 ev1].
      simpl in *. rewrite Hid in Hcnt.
      rewrite long_succ_exact in Hcnt by (unfold LONG_MAX in *; lia).
      match goal with |- context [step _ _ _ b ?x] => set (st1 := x) end.
      assert (Hb1 : threads st1 !! b
                = Some (L_write Pri (id + 1) resb (FromFile pkb) cb))
        by (simpl; by rewrite list_lookup_insert_ne).
      assert (Hnab1 : existsb is_aborted (threads st1) = false).
      { clear -Hnab Ha Hla. revert Hnab. simpl.
        rewrite <-!not_true_iff_false, !existsb_exists.
        intros Hn (p & Hin & Hp). apply Hn.
        apply list_elem_of_In, list_elem_of_lookup in Hin as [j Hj].
        destruct (decide (a = j)) as [<-|Hne].
        - rewrite list_lookup_insert_eq in Hj by done.
          injection Hj as <-. by destruct ca.
        - rewrite list_lookup_insert_ne in Hj by done.
          exists p. split; [|done].
          apply list_elem_of_In. by eapply list_elem_of_lookup_2. }
      rewrite (step_write _ _ _ _ _ _ _ _ Hnab1 Htb Hb1). simpl.
      rewrite bool_decide_eq_true_2 by done.
      pose proof (write_stream_sink_id Pri (id + 1) resb pkb sh1 Pri) as Hcnt2.
      pose proof (write_stream_sink_ne Pri Fil (id + 1) resb pkb sh1) as Hfil2.
      pose proof (write_stream_sink_ne Pri Oth (id + 1) resb pkb sh1) as Hoth2.
      destruct (write_stream Pri (id + 1) resb pkb sh1) as [sh2 ev2].
      simpl in *. eexists. split; [done|]. simpl.
      rewrite list_lookup_insert_ne, list_lookup_insert_eq by done.
      rewrite list_lookup_insert_eq by by rewrite length_insert.
      rewrite Hcnt in Hcnt2.
      rewrite long_succ_exact in Hcnt2 by (unfold LONG_MAX in *; lia).
      unfold id_pri. rewrite Hfil2, Hoth2, Hfil, Hoth by done.
      split_and!; try done. lia.
Qed.

Section Distinct.

(** No two tasks have the same file name, and [sh0] is the state the run
    starts with. *)
Hypothesis distinct_filenames : NoDup (pt_filename <$> tasks).
Variable sh0 : Shared.

Local Abbreviation md0 := (old_metadata sh0).

Lemma task_at_own_id (i : nat) (task : PoolTask) :
  tasks !! i = Some task → tasks !! Z.to_nat (pt_id task) = Some task.
Proof. intros Ht. by rewrite (dense_ids _ _ Ht), Nat2Z.id. Qed.

(** The part of the invariant that speaks of the table, the workers and
    the buffer, after a step of worker [i] that leaves the table as it was
    at the keys that satisfy [P]. *)
Lemma data_frame (P : string → Prop) (sh sh' : Shared) (ths : list pc)
    (i : nat) (task : PoolTask) (p' : pc) :
  data_inv u tasks sh0 sh ths →
  tasks !! i = Some task → (i < length ths)%nat →
  store_rel md0 (old_metadata sh') →
  (∀ key, P key → entry (old_metadata sh') key = entry (old_metadata sh) key) →
  (∀ j tj, j ≠ i → tasks !! j = Some tj → P (pt_filename tj)) →
  (∀ j s id res pkg c t',
     j ≠ i → ths !! j = Some (L_write s id res pkg c) →
     tasks !! Z.to_nat id = Some t' → P (pt_filename t')) →
  (∀ bt, bt ∈ buffer sh' →
     (bt ∈ buffer sh ∧
      ∀ t', tasks !! Z.to_nat (bt_id bt) = Some t' → P (pt_filename t')) ∨
     job_ok u tasks md0 (old_metadata sh') (bt_id bt) (bt_res bt) (bt_pkg bt)) →
  data_ok u tasks md0 (old_metadata sh') task p' →
  (∀ s, sink s sh'
        = serial_sink u md0 s
            (take (Z.to_nat (snk_id (sink s sh'))) tasks) (sink s sh0)) →
  (∀ j tj, tasks !! j = Some tj → Z.of_nat j < id_pri sh' →
           ∃ o, outcome_of u md0 tj = Some o ∧ o ≠ LoadAbort) →
  data_inv u tasks sh0 sh' (<[i := p']> ths).
Proof.
  intros Hd Htask Hlt Hrel Hagree Hthr Hjob Hbuf Hown Hsinks Hdone.
  split; try done.
  - intros j tj q Htj Hj. destruct (decide (i = j)) as [<-|Hne].
    + rewrite list_lookup_insert_eq in Hj by done. by simplify_eq.
    + rewrite list_lookup_insert_ne in Hj by done.
      eapply (data_ok_agree P); [done|by eapply Hthr|by eapply task_at_own_id| |].
      * intros s id res pkg c t' -> Ht'. by eapply Hjob.
      * by eapply (di_threads _ _ _ _ _ Hd).
  - intros bt Hbt. destruct (Hbuf bt Hbt) as [[Hin HP]|?]; [|done].
    eapply job_ok_store; [|by apply (di_buffer _ _ _ _ _ Hd)].
    intros t' Ht'. apply Hagree. by apply HP.
Qed.

Lemma data_sinks_same (sh sh' : Shared) (ths : list pc) :
  data_inv u tasks sh0 sh ths →
  (∀ s, sink s sh' = sink s sh) →
  (∀ s, sink s sh'
        = serial_sink u md0 s
            (take (Z.to_nat (snk_id (sink s sh'))) tasks) (sink s sh0)) ∧
  (∀ j tj, tasks !! j = Some tj → Z.of_nat j < id_pri sh' →
           ∃ o, outcome_of u md0 tj = Some o ∧ o ≠ LoadAbort).
Proof.
  intros Hd Hs. split.
  - intros s. rewrite Hs. apply (di_sinks _ _ _ _ _ Hd).
  - intros j tj Htj. unfold id_pri. change (pri ?x) with (sink Pri x).
    rewrite Hs. by apply (di_done _ _ _ _ _ Hd).
Qed.

Lemma data_sinks_advance (sh sh' : Shared) (ths : list pc) (s : stream)
    (tx : PoolTask) (o : LoadOutcome) :
  data_inv u tasks sh0 sh ths →
  0 ≤ snk_id (sink s sh) →
  tasks !! Z.to_nat (snk_id (sink s sh)) = Some tx →
  sink s sh' = serial_step u md0 s (sink s sh) tx →
  snk_id (sink s sh') = snk_id (sink s sh) + 1 →
  (∀ s', s ≠ s' → sink s' sh' = sink s' sh) →
  outcome_of u md0 tx = Some o → o ≠ LoadAbort →
  (∀ s, sink s sh'
        = serial_sink u md0 s
            (take (Z.to_nat (snk_id (sink s sh'))) tasks) (sink s sh0)) ∧
  (∀ j tj, tasks !! j = Some tj → Z.of_nat j < id_pri sh' →
           ∃ o, outcome_of u md0 tj = Some o ∧ o ≠ LoadAbort).
Proof.
  intros Hd H0 Htx Hstep Hcnt Hother Ho Hno. split.
  - intros s'. destruct (decide (s = s')) as [<-|Hne].
    + rewrite Hcnt, (serial_sink_snoc _ _ _ _ _ _ tx) by done.
      by rewrite <-(di_sinks _ _ _ _ _ Hd).
    + rewrite Hother by done. apply (di_sinks _ _ _ _ _ Hd).
  - intros j tj Htj. unfold id_pri. change (pri ?x) with (sink Pri x).
    destruct (decide (s = Pri)) as [->|Hne].
    + rewrite Hcnt. intros Hj.
      destruct (decide (Z.of_nat j = snk_id (sink Pri sh))) as [Heq|Hneq].
      * rewrite <-Heq, Nat2Z.id in Htx. simplify_eq. eauto.
      * apply (di_done _ _ _ _ _ Hd _ _ Htj). unfold id_pri.
        change (pri ?x) with (sink Pri x). lia.
    + rewrite Hother by done. by apply (di_done _ _ _ _ _ Hd).
Qed.

Lemma foreign_job_not_own (sh : Shared) (ths : list pc) (i j : nat) (p : pc)
    (s : stream) (id : Z) (res : cr_XmlStruct) (pkg : pkg_ptr) (c : caller) :
  core_inv n sh ths → ths !! i = Some p →
  (∀ s, holds s (Z.of_nat i) p = [Z.of_nat i]) →
  j ≠ i → ths !! j = Some (L_write s id res pkg c) → Z.to_nat id ≠ i.
Proof.
  intros Hinv Hi Hh Hne Hj <-.
  assert (snk_id (sink s sh) ≤ id < n).
  { eapply held_bounds; [done..|]. simpl. rewrite stream_le_refl. by left. }
  assert (H0 := proj1 (ci_bounds _ _ _ Hinv s)).
  eapply (holder_unique_threads _ _ _ s (Z.to_nat id) j); [done..| |].
  - rewrite Hh. by left.
  - simpl. rewrite stream_le_refl, Z2Nat.id by lia. by left.
Qed.

Lemma buffered_not_own (sh : Shared) (ths : list pc) (i : nat) (p : pc)
    (bt : BufferedTask) :
  core_inv n sh ths → ths !! i = Some p →
  (∀ s, holds s (Z.of_nat i) p = [Z.of_nat i]) →
  bt ∈ buffer sh → Z.to_nat (bt_id bt) ≠ i.
Proof.
  intros Hinv Hi Hh Hbt <-.
  assert (snk_id (sink Pri sh) ≤ bt_id bt < n) by by eapply buffered_bounds.
  assert (H0 := proj1 (ci_bounds _ _ _ Hinv Pri)).
  eapply (holder_unique_buffer _ _ _ Pri); [done..|].
  rewrite Hh, Z2Nat.id by lia. by left.
Qed.

Lemma thread_step_data (sh sh' : Shared) (ths : list pc) (i : nat)
    (task : PoolTask) (p p' : pc) (ev : list Event) :
  core_inv n sh ths → data_inv u tasks sh0 sh ths →
  tasks !! i = Some task → ths !! i = Some p →
  thread_step u task p sh = Some (p', sh', ev) →
  data_inv u tasks sh0 sh' (<[i := p']> ths).
Proof.
  intros Hinv Hd Htask Hi Hstep.
  assert (Hown := dense_ids _ _ Htask).
  assert (Hlt := lookup_lt_Some _ _ _ Hi).
  assert (Hold := di_threads _ _ _ _ _ Hd _ _ _ Htask Hi).
  assert (Hrel := di_store _ _ _ _ _ Hd).
  assert (Hsame : ∀ q, data_ok u tasks md0 (old_metadata sh) task q →
            data_inv u tasks sh0 sh (<[i := q]> ths)).
  { intros q Hq. destruct (data_sinks_same sh sh ths Hd) as [Hs Hdn]; [done|].
    eapply (data_frame (λ _, True)); try done. intros bt Hbt. by left. }
  destruct p as [| |stat_buf|stat_buf old_used|res pkg|s id res pkg c|failed|s| | |];
    simpl in Hstep, Hold.
  - (* Queued *)
    simplify_eq. by apply Hsame.
  - (* L_stat *)
    rewrite (stat_phase_rel _ _ _ _ Hrel) in Hstep.
    destruct (stat_phase u md0 task) as [[|sb] ev'] eqn:Hst; simplify_eq;
      apply Hsame; simpl.
    + apply outcome_of_stat_error. by rewrite Hst.
    + by rewrite Hst.
  - (* L_update *)
    pose proof (update_phase_rel u md0 (old_metadata sh) task stat_buf Hrel) as Hu.
    destruct (update_phase u (old_metadata sh) task stat_buf)
      as [[[omd' ou] ev']|] eqn:Hup; [|done].
    destruct (update_phase u md0 task stat_buf)
      as [[[omd0' ou0] ev0]|] eqn:Hup0; [|done].
    destruct Hu as (-> & -> & Hrel' & Hent & _ & Hagree). simplify_eq.
    destruct (data_sinks_same sh (set_old_metadata omd' sh) ths Hd)
      as [Hs Hdn]; [by intros []|].
    eapply (data_frame (λ key, key ≠ pt_filename task)); try done.
    + intros j tj Hne Htj. by eapply filenames_distinct.
    + intros j s id res pkg c t' Hne Hj Ht'.
      eapply filenames_distinct; [done..|].
      by eapply foreign_job_not_own.
    + intros bt Hbt. left. split; [done|]. intros t' Ht'.
      eapply filenames_distinct; [done..|].
      by eapply buffered_not_own.
    + simpl. split_and!; eauto.
  - (* L_load *)
    destruct Hold as (Hst & Hupd & Hent).
    destruct (load_phase _ _ _ _ _) as [[o ev']|] eqn:Hl; [|done].
    pose proof (outcome_of_load _ _ _ _ _ _ _ _ Hst Hupd Hent Hl) as Ho.
    destruct o as [| |res pkg]; simplify_eq; apply Hsame; simpl; try done.
    exists task. split_and!; [by eapply task_at_own_id|done..|].
    pose proof (load_phase_ptr _ _ _ _ _ _ _ _ Hl) as Hp.
    destruct pkg as [pk|key]; simpl; [done|].
    destruct Hp as [-> ->]. split; [done|]. by apply Hent.
  - (* L_buffering *)
    destruct (buffer_admits _ _ _); simplify_eq; [|by apply Hsame].
    destruct Hold as (t' & Ht' & _ & Ho & Hp).
    rewrite (task_at_own_id _ _ Htask) in Ht'. injection Ht' as <-.
    destruct (data_sinks_same sh (deposit u sh task res pkg) ths Hd)
      as [Hs Hdn]; [intros s; apply deposit_sink|].
    assert (Hag : ∀ key,
              entry (old_metadata (deposit u sh task res pkg)) key
              = entry (old_metadata sh) key).
    { intros key. by eapply deposit_entry. }
    eapply (data_frame (λ _, True)); try done.
    + split; [rewrite deposit_is_Some; apply Hrel|].
      intros key. rewrite Hag. apply Hrel.
    + intros bt. rewrite deposit_buffer, g_queue_insert_sorted_perm.
      intros [->|Hin]%elem_of_cons; [right|by left]. simpl.
      exists task. split_and!; [by eapply task_at_own_id|done..|].
      eapply ptr_ok_store; [apply Hag|done].
  - (* L_write *)
    case_bool_decide as Hid; [|done].
    destruct (deref sh pkg) as [pk|] eqn:Hpk; [|done].
    destruct Hold as (t' & Ht' & Hidt & Ho & Hp).
    pose proof (serial_step_written _ _ s _ _ _ _ _ Ho Hp Hpk) as Hser.
    pose proof (write_stream_sink_id s id res pk sh s) as Hcnt.
    pose proof (λ s' H, write_stream_sink_ne s s' id res pk sh H) as Hne.
    pose proof (write_stream_buffer s id res pk sh) as Hbuf.
    pose proof (write_stream_old_metadata s id res pk sh) as Hmd.
    rewrite Hidt in Hser.
    destruct (write_stream s id res pk sh) as [sh1 ev1]. simpl in *.
    simplify_eq. rewrite decide_True in Hcnt by done.
    assert (Hb : snk_id (sink s sh) ≤ pt_id t' < n).
    { eapply held_bounds; [done..|]. simpl. rewrite stream_le_refl. by left. }
    assert (H0 := proj1 (ci_bounds _ _ _ Hinv s)).
    rewrite long_succ_exact in Hcnt by (unfold LONG_MAX in *; lia).
    destruct (data_sinks_advance sh sh' ths s t' (Loaded res pkg) Hd)
      as [Hs Hdn]; try done.
    { by rewrite Hid. }
    eapply (data_frame (λ _, True)); try done.
    + by rewrite Hmd.
    + intros key _. by rewrite Hmd.
    + intros bt. rewrite Hbuf. by left.
    + rewrite Hmd.
      assert (job_ok u tasks md0 (old_metadata sh) (pt_id t') res pkg)
        by (by exists t').
      by destruct s, c.
  - (* L_task_cleanup *)
    case_bool_decide as Hle; simplify_eq; apply Hsame; simpl; [|done].
    destruct failed; [done|].
    assert (Hok := ci_threads _ _ _ Hinv _ _ Hi). simpl in Hok. lia.
  - (* L_skip *)
    case_bool_decide as Hid; [|done]. simplify_eq.
    pose proof (serial_step_skipped _ _ s sh _ Hold) as Hser.
    assert (Hb : snk_id (sink s sh) ≤ Z.of_nat i < n).
    { eapply held_bounds; [done..|]. simpl. rewrite stream_le_refl. by left. }
    assert (H0 := proj1 (ci_bounds _ _ _ Hinv s)).
    destruct (data_sinks_advance sh (skip_block s (pt_id task) sh).1 ths s
                task LoadFailed Hd) as [Hs Hdn]; try done.
    { rewrite Hid. by eapply task_at_own_id. }
    { simpl. rewrite sink_set_sink_eq. simpl.
      rewrite long_succ_exact by (unfold LONG_MAX in *; lia). done. }
    { intros s' Hs'. simpl. by apply sink_set_sink_ne. }
    simpl in *.
    eapply (data_frame (λ _, True)); try done.
    + by rewrite old_metadata_set_sink.
    + intros key _. by rewrite old_metadata_set_sink.
    + intros bt. rewrite buffer_set_sink. by left.
    + by destruct s.
  - (* L_drain *)
    destruct (drain_peek sh) as [bt|] eqn:Hpeek; simplify_eq;
      [|by apply Hsame].
    apply drain_peek_some in Hpeek as [Hbuf _].
    destruct (data_sinks_same sh (set_buffer (tail (buffer sh)) sh) ths Hd)
      as [Hs Hdn]; [by intros []|].
    eapply (data_frame (λ _, True)); try done.
    + intros bt'. simpl. intros Hin. left. split; [|done].
      rewrite Hbuf. by right.
    + simpl. apply (di_buffer _ _ _ _ _ Hd). rewrite Hbuf. by left.
  - done.
  - done.
Qed.

Lemma init_data :
  fresh sh0 → data_inv u tasks sh0 sh0 (threads (init sh0 tasks)).
Proof.
  intros [Hid Hbuf]. split.
  - apply store_rel_refl.
  - intros s. by rewrite Hid.
  - intros i task p _ [t [-> _]]%list_lookup_fmap_Some. done.
  - rewrite Hbuf. by intros bt ?%elem_of_nil.
  - intros i task _. unfold id_pri. change (pri ?x) with (sink Pri x).
    rewrite Hid. lia.
Qed.

Lemma reachable_data (sched : list nat) (st : System) :
  fresh sh0 →
  run u tasks max_threads sched (init sh0 tasks) = Some st →
  data_inv u tasks sh0 (shared st) (threads st).
Proof.
  intros Hfresh.
  assert (Hgen : ∀ sched st st',
            core_inv n (shared st) (threads st) →
            data_inv u tasks sh0 (shared st) (threads st) →
            run u tasks max_threads sched st = Some st' →
            data_inv u tasks sh0 (shared st') (threads st')).
  { clear sched st. induction sched as [|i sched IH]; intros st st' Hc Hd; simpl.
    - by intros [= <-].
    - destruct (step _ _ _ _ _) as [st1|] eqn:Hstep; [|done].
      apply IH; [by eapply step_core|].
      unfold step in Hstep. destruct (existsb _ _); [done|].
      destruct (tasks !! i) as [task|] eqn:Htask; [|done].
      destruct (threads st !! i) as [p|] eqn:Hi; [|done].
      destruct (_ && _); [done|].
      destruct (thread_step u task p (shared st)) as [[[p' sh'] ev]|] eqn:Hts;
        [|done].
      injection Hstep as <-. simpl. by eapply thread_step_data. }
  apply Hgen; [by apply init_core|by apply init_data].
Qed.

(** One task of the serial run. *)
Lemma serial_one_spec (sh : Shared) (m : nat) (task : PoolTask) :
  tasks !! m = Some task →
  store_rel md0 (old_metadata sh) →
  (∀ s, snk_id (sink s sh) = Z.of_nat m) →
  (∃ o, outcome_of u md0 task = Some o ∧ o ≠ LoadAbort) →
  ∃ sh', serial_one u task sh = Some sh' ∧
         store_rel md0 (old_metadata sh') ∧
         (∀ s, sink s sh' = serial_step u md0 s (sink s sh) task) ∧
         (∀ s, snk_id (sink s sh') = Z.of_nat (S m)).
Proof.
  intros Htask Hrel Hcnt (o & Ho & Hno).
  assert (Hown := dense_ids _ _ Htask).
  assert (Hlt := lookup_lt_Some _ _ _ Htask).
  assert (Hsucc : long_succ (Z.of_nat m) = Z.of_nat (S m)).
  { rewrite long_succ_exact by (unfold LONG_MAX in *; lia). lia. }
  pose proof Ho as Ho'. unfold outcome_of in Ho'.
  destruct (prepare u md0 task) as [[[omd0' o'] ev]|] eqn:Hprep; [|done].
  simpl in Ho'. injection Ho' as ->.
  destruct (prepare_rel _ _ _ _ _ _ _ Hrel Hprep) as (omd' & Hp & Hrel' & Hptr).
  unfold serial_one. rewrite Hp.
  set (sh1 := set_old_metadata omd' sh).
  assert (Hs1 : ∀ s, sink s sh1 = sink s sh) by by intros [].
  assert (Hcnt1 : ∀ s, snk_id (sink s sh1) = pt_id task).
  { intros s. by rewrite Hs1, Hcnt, Hown. }
  destruct o as [| |res pkg]; [done| |].
  - destruct (skip_pkg_alone _ _ Hcnt1) as (sh' & ev' & -> & Hsk & Hmd).
    exists sh'. simpl. split_and!; try done.
    + by rewrite Hmd.
    + intros s. rewrite Hsk, <-(serial_step_skipped _ _ s sh1 _ Ho).
      by rewrite Hs1.
    + intros s. rewrite Hsk, skip_block_sink_id, decide_True by done.
      by rewrite Hcnt1, Hown.
  - destruct (Hptr res pkg eq_refl) as [Hok Hsome].
    assert (∃ pk, deref sh1 pkg = Some pk) as [pk Hpk].
    { rewrite deref_entry. destruct pkg; [eauto|].
      destruct Hsome as [pk ?]. by exists pk. }
    rewrite Hpk.
    destruct (write_pkg_alone _ res pk _ Hcnt1) as (sh' & ev' & -> & Hw & Hmd).
    exists sh'. simpl. split_and!; try done.
    + by rewrite Hmd.
    + intros s.
      rewrite Hw, <-(serial_step_written _ _ s sh1 _ _ _ _ Ho Hok Hpk).
      by rewrite Hs1.
    + intros s. rewrite Hw, write_stream_sink_id, decide_True by done.
      by rewrite Hcnt1, Hown.
Qed.

(** The serial run ends, and each stream is then what [serial_sink] says. *)
Lemma serial_run_spec (done rest : list PoolTask) (sh : Shared) :
  tasks = done ++ rest →
  store_rel md0 (old_metadata sh) →
  (∀ s, snk_id (sink s sh) = Z.of_nat (length done)) →
  (∀ task, task ∈ rest →
           ∃ o, outcome_of u md0 task = Some o ∧ o ≠ LoadAbort) →
  ∃ sh', serial_run u rest sh = Some sh' ∧
         ∀ s, sink s sh' = serial_sink u md0 s rest (sink s sh).
Proof.
  revert done sh. induction rest as [|task rest IH]; intros done sh Ht Hrel Hcnt Ho.
  - exists sh. by split.
  - assert (Htask : tasks !! length done = Some task).
    { rewrite Ht. by rewrite list_lookup_middle. }
    destruct (serial_one_spec sh (length done) task)
      as (sh1 & H1 & Hrel1 & Hs1 & Hc1); try done.
    { apply Ho. by left. }
    destruct (IH (done ++ [task]) sh1) as (sh' & Hrun & Hs'); try done.
    + by rewrite <-(assoc_L (++)).
    + intros s. rewrite Hc1, length_app. simpl. f_equal. lia.
    + intros t Hin. apply Ho. by right.
    + exists sh'. simpl. rewrite H1. split; [done|].
      intros s. by rewrite Hs', Hs1.
Qed.

(** C1, with the assumption of section 5 of the specification that no two
    tasks have the same file name: for every number of tasks, every pool
    size and every schedule, once all the workers have returned each of
    the three streams (its counter, its XML file and its database) is what
    the serial run leaves, and the serial run does end. *)
Theorem streams_equal_serial_run (sched : list nat) (st : System) :
  fresh sh0 →
  run u tasks max_threads sched (init sh0 tasks) = Some st →
  all_returned st →
  ∃ sh_ser, serial_run u tasks sh0 = Some sh_ser ∧
            ∀ s, sink s (shared st) = sink s sh_ser.
Proof.
  intros Hfresh Hrun Hall.
  assert (Hc := reachable_core _ _ _ Hfresh Hrun).
  assert (Hd := reachable_data _ _ Hfresh Hrun).
  destruct (core_all_returned _ _ _ Hc Hall) as [Hcnt _].
  destruct (serial_run_spec [] tasks sh0) as (sh_ser & Hser & Hs).
  - done.
  - apply store_rel_refl.
  - intros s. apply Hfresh.
  - intros task [i Hi]%list_elem_of_lookup.
    apply (di_done _ _ _ _ _ Hd i); [done|].
    unfold id_pri. change (pri ?x) with (sink Pri x). rewrite Hcnt.
    apply lookup_lt_Some in Hi. lia.
  - exists sh_ser. split; [done|]. intros s.
    rewrite Hs, (di_sinks _ _ _ _ _ Hd s), Hcnt, Nat2Z.id.
    by rewrite firstn_all.
Qed.

End Distinct.

Lemma thread_step_to_update (task : PoolTask) (p : pc) (sh sh' : Shared)
    (sb : option Stat) (ev : list Event) :
  thread_step u task p sh = Some (L_update sb, sh', ev) →
  stat_phase u (old_metadata sh) task = (StatDone sb, ev).
Proof.
  destruct p as [| |stat_buf|stat_buf old_used|res pkg|s id res pkg c|failed|s| | |];
    simpl; intros Hstep; try done.
  - by destruct (stat_phase _ _ _) as [[|sb'] ev']; simplify_eq.
  - by destruct (update_phase _ _ _ _) as [[[omd ou] ev']|]; simplify_eq.
  - by destruct (load_phase _ _ _ _ _) as [[[| |res pkg] ev']|]; simplify_eq.
  - by destruct (buffer_admits _ _ _); simplify_eq.
  - case_bool_decide; [|done]. destruct (deref sh pkg) as [pk|]; [|done].
    destruct (write_stream _ _ _ _ _). by destruct s, c; simplify_eq.
  - by case_bool_decide; simplify_eq.
  - case_bool_decide; [|done]. by destruct s; simplify_eq.
  - by destruct (drain_peek sh); simplify_eq.
Qed.

(** A worker that stands at line 260 has a written [stat_buf] whenever
    there is a table and [skip_stat] is unset. *)
Lemma reachable_stat_buf (sh : Shared) (sched : list nat) (st : System)
    (i : nat) (stat_buf : option Stat) :
  run u tasks max_threads sched (init sh tasks) = Some st →
  threads st !! i = Some (L_update stat_buf) →
  is_Some (old_metadata (shared st)) → skip_stat u = false →
  is_Some stat_buf.
Proof.
  intros Hrun.
  assert (Hgen : ∀ sched st st',
            (∀ i sb, threads st !! i = Some (L_update sb) →
                     is_Some (old_metadata (shared st)) →
                     skip_stat u = false → is_Some sb) →
            run u tasks max_threads sched st = Some st' →
            ∀ i sb, threads st' !! i = Some (L_update sb) →
                    is_Some (old_metadata (shared st')) →
                    skip_stat u = false → is_Some sb).
  { clear. induction sched as [|i sched IH]; intros st st' Hinv; simpl.
    - by intros [= <-].
    - destruct (step _ _ _ _ _) as [st1|] eqn:Hstep; [|done].
      apply IH. clear IH st'.
      unfold step in Hstep. destruct (existsb _ _); [done|].
      destruct (tasks !! i) as [task|] eqn:Htask; [|done].
      destruct (threads st !! i) as [p|] eqn:Hi; [|done].
      destruct (_ && _); [done|].
      destruct (thread_step u task p (shared st)) as [[[p' sh'] ev]|] eqn:Hts;
        [|done].
      injection Hstep as <-. simpl.
      assert (Hlt := lookup_lt_Some _ _ _ Hi).
      pose proof (thread_step_is_Some _ _ _ _ _ _ _ Hts) as Hmd.
      intros j sb Hj Hsome Hskip. rewrite Hmd in Hsome.
      destruct (decide (i = j)) as [<-|Hne].
      + rewrite list_lookup_insert_eq in Hj by done. injection Hj as ->.
        apply thread_step_to_update, stat_phase_done in Hts as Hst.
        rewrite bool_decide_eq_true_2, Hskip in Hst by done. simpl in Hst.
        by destruct Hst as (_ & ? & _).
      + rewrite list_lookup_insert_ne in Hj by done. by eapply Hinv. }
  eapply Hgen; [|done]. simpl.
  intros j sb [t [[=] _]]%list_lookup_fmap_Some.
Qed.

(** C10: the local [stat_buf] is never read before it is written.  When
    [stat] fails the worker goes to [task_cleanup]; otherwise the buffer is
    written exactly when there is a table and [skip_stat] is unset, and the
    comparison of line 271 then finds it written; when that condition does
    not hold, lines 259-289 do not depend on the buffer at all; the
    comparison reads an unwritten buffer only where no run ever gets. *)
Theorem stat_buf_read_only_when_written (sh0 : Shared) (sched : list nat)
    (st : System) :
  run u tasks max_threads sched (init sh0 tasks) = Some st →
  (∀ task sh ev,
     stat_phase u (old_metadata sh) task = (StatError, ev) →
     thread_step u task L_stat sh = Some (L_task_cleanup true, sh, ev)) ∧
  (∀ task omd sb ev,
     stat_phase u omd task = (StatDone sb, ev) →
     (is_Some sb ↔ is_Some omd ∧ skip_stat u = false) ∧
     update_phase u omd task sb ≠ None) ∧
  (∀ task omd sb sb',
     ¬ (is_Some omd ∧ skip_stat u = false) →
     update_phase u omd task sb = update_phase u omd task sb') ∧
  (∀ task omd sb,
     update_phase u omd task sb = None ↔
     sb = None ∧ skip_stat u = false ∧
     ∃ ht md, omd = Some ht ∧ ht !! pt_filename task = Some md) ∧
  (∀ i task sb,
     tasks !! i = Some task → threads st !! i = Some (L_update sb) →
     update_phase u (old_metadata (shared st)) task sb ≠ None).
Proof.
  intros Hrun. split_and!.
  - intros task sh ev Hst. simpl. by rewrite Hst.
  - intros task omd sb ev Hst.
    pose proof (stat_phase_done _ _ _ _ _ Hst) as Hsb.
    assert (Hiff : is_Some sb ↔ is_Some omd ∧ skip_stat u = false).
    { case_bool_decide as Hmd; destruct (skip_stat u); simpl in Hsb.
      - destruct Hsb as [-> _]. split; [by intros [? [=]]|by intros [_ [=]]].
      - destruct Hsb as (_ & ? & _). by split.
      - destruct Hsb as [-> _]. split; [by intros [? [=]]|by intros [_ [=]]].
      - destruct Hsb as [-> _]. split; [by intros [? [=]]|]. by intros [? _]. }
    split; [done|]. rewrite update_phase_undefined.
    intros (-> & Hskip & ht & md & -> & _).
    destruct Hiff as [_ [? [=]]]. by split; eauto.
  - intros task omd sb sb' Hn. unfold update_phase.
    destruct omd as [ht|]; [|done]. destruct (ht !! _) as [md|]; [|done].
    destruct (skip_stat u); [done|]. exfalso. apply Hn. by split; eauto.
  - intros task omd sb. apply update_phase_undefined.
  - intros i task sb Htask Hi. rewrite update_phase_undefined.
    intros (-> & Hskip & ht & md & Hmd & _).
    destruct (reachable_stat_buf _ _ _ _ _ Hrun Hi) as [? [=]]; [|done].
    by rewrite Hmd.
Qed.

(** ** The model is stuck only where the code waits *)

Lemma thread_step_entry_mono (task : PoolTask) (p p' : pc) (sh sh' : Shared)
    (ev : list Event) (key : string) :
  thread_step u task p sh = Some (p', sh', ev) →
  is_Some (entry (old_metadata sh) key) →
  is_Some (entry (old_metadata sh') key).
Proof.
  destruct p as [| |stat_buf|stat_buf old_used|res pkg|s id res pkg c|failed|s| | |];
    simpl; intros Hstep.
  - by simplify_eq.
  - by destruct (stat_phase _ _ _) as [[|sb] ev']; simplify_eq.
  - pose proof (update_phase_rel u (old_metadata sh) (old_metadata sh) task
                  stat_buf (store_rel_refl _)) as Hu.
    destruct (update_phase _ _ _ _) as [[[omd ou] ev']|]; [|done].
    destruct Hu as (_ & _ & [_ Hrel] & _). simplify_eq. simpl.
    intros He. apply (fmap_is_Some strip). rewrite Hrel.
    by apply (fmap_is_Some strip).
  - by destruct (load_phase _ _ _ _ _) as [[[| |res pkg] ev']|]; simplify_eq.
  - destruct (buffer_admits _ _ _); simplify_eq; [|done].
    unfold deposit. destruct pkg as [pk|k]; simpl; [done|].
    destruct (old_metadata sh) as [ht|]; simpl; [|done].
    unfold entry; simpl. rewrite lookup_alter. case_decide; [subst|done].
    by rewrite fmap_is_Some.
  - case_bool_decide; [|done]. destruct (deref sh pkg) as [pk|]; [|done].
    pose proof (write_stream_old_metadata s id res pk sh) as Hmd.
    destruct (write_stream _ _ _ _ _). simplify_eq. simpl in Hmd. by rewrite Hmd.
  - by case_bool_decide; simplify_eq.
  - case_bool_decide; [|done]. simplify_eq. simpl.
    by rewrite old_metadata_set_sink.
  - by destruct (drain_peek sh); simplify_eq.
  - done.
  - done.
Qed.

Lemma deref_mono (sh sh' : Shared) (pkg : pkg_ptr) :
  (∀ key, is_Some (entry (old_metadata sh) key) →
          is_Some (entry (old_metadata sh') key)) →
  is_Some (deref sh pkg) → is_Some (deref sh' pkg).
Proof. rewrite !deref_entry. intros H. destruct pkg; [done|]. apply H. Qed.

Lemma live_ok_mono (sh sh' : Shared) (task : PoolTask) (p : pc) :
  (∀ key, is_Some (entry (old_metadata sh) key) →
          is_Some (entry (old_metadata sh') key)) →
  live_ok sh task p → live_ok sh' task p.
Proof.
  intros H.
  destruct p as [| |sb|sb [] |res pkg|s id res pkg c|[]| | | |]; simpl;
    try done; try apply H; by apply deref_mono.
Qed.

Lemma thread_step_live (sh sh' : Shared) (ths : list pc) (i : nat)
    (task : PoolTask) (p p' : pc) (ev : list Event) :
  live_inv tasks sh ths →
  tasks !! i = Some task → ths !! i = Some p →
  thread_step u task p sh = Some (p', sh', ev) →
  live_inv tasks sh' (<[i := p']> ths).
Proof.
  intros [Ht Hb] Htask Hi Hstep.
  assert (Hlt := lookup_lt_Some _ _ _ Hi).
  assert (Hmono := λ key, thread_step_entry_mono _ _ _ _ _ _ key Hstep).
  assert (Hold := Ht _ _ _ Htask Hi).
  assert (Hown : live_ok sh' task p').
  { destruct p as [| |stat_buf|stat_buf old_used|res pkg|s id res pkg c|failed|s| | |];
      simpl in Hstep, Hold.
    - by simplify_eq.
    - by destruct (stat_phase _ _ _) as [[|sb] ev']; simplify_eq.
    - pose proof (update_phase_rel u (old_metadata sh) (old_metadata sh) task
                    stat_buf (store_rel_refl _)) as Hu.
      destruct (update_phase _ _ _ _) as [[[omd ou] ev']|] eqn:Hup; [|done].
      destruct Hu as (_ & _ & _ & Hent & _). simplify_eq.
      destruct ou; simpl; [|done]. rewrite Hent by done. unfold exp_entry.
      rewrite fmap_is_Some. unfold update_phase in Hup.
      destruct (old_metadata sh) as [ht|]; [|by simplify_eq].
      rewrite entry_some. by destruct (ht !! pt_filename task); simplify_eq.
    - destruct (load_phase _ _ _ _ _) as [[[| |res pkg] ev']|] eqn:Hl;
        simplify_eq; try done. simpl. rewrite deref_entry.
      destruct pkg as [pk|key]; [done|]. by eapply load_phase_loaded_entry.
    - destruct (buffer_admits _ _ _); by simplify_eq.
    - case_bool_decide; [|done]. destruct (deref sh pkg) as [pk|] eqn:Hpk;
        [|done].
      destruct (write_stream _ _ _ _ _). simplify_eq.
      assert (is_Some (deref sh' pkg)).
      { eapply deref_mono; [done|]. by rewrite Hpk. }
      by destruct s, c.
    - by case_bool_decide; simplify_eq.
    - case_bool_decide; [|done]. simplify_eq. by destruct s.
    - destruct (drain_peek sh) as [bt|] eqn:Hpeek; simplify_eq; [|done].
      apply drain_peek_some in Hpeek as [Hbuf _]. simpl.
      apply (Hb bt). rewrite Hbuf. by left.
    - done.
    - done. }
  split.
  - intros j tj q Htj Hj. destruct (decide (i = j)) as [<-|Hne].
    + rewrite list_lookup_insert_eq in Hj by done. by simplify_eq.
    + rewrite list_lookup_insert_ne in Hj by done.
      eapply live_ok_mono; [done|]. by eapply Ht.
  - intros bt Hbt.
    destruct (thread_step_buffer _ _ _ _ _ _ _ bt Hstep Hbt)
      as [Hin|(res & pkg & -> & _)].
    + eapply deref_mono; [done|]. by apply Hb.
    + simpl in Hstep, Hold.
      destruct (buffer_admits _ _ _); simplify_eq; [|by apply Hb].
      rewrite deposit_buffer, g_queue_insert_sorted_perm in Hbt.
      apply elem_of_cons in Hbt as [->|Hin]; simpl.
      * by eapply deref_mono.
      * eapply deref_mono; [done|]. by apply Hb.
Qed.

Lemma reachable_live (sh : Shared) (sched : list nat) (st : System) :
  buffer sh = [] →
  run u tasks max_threads sched (init sh tasks) = Some st →
  live_inv tasks (shared st) (threads st).
Proof.
  intros Hbuf.
  assert (Hgen : ∀ sched st st',
            live_inv tasks (shared st) (threads st) →
            run u tasks max_threads sched st = Some st' →
            live_inv tasks (shared st') (threads st')).
  { clear. induction sched as [|i sched IH]; intros st st' Hinv; simpl.
    - by intros [= <-].
    - destruct (step _ _ _ _ _) as [st1|] eqn:Hstep; [|done].
      apply IH. clear IH st'.
      unfold step in Hstep. destruct (existsb _ _); [done|].
      destruct (tasks !! i) as [task|] eqn:Htask; [|done].
      destruct (threads st !! i) as [p|] eqn:Hi; [|done].
      destruct (_ && _); [done|].
      destruct (thread_step u task p (shared st)) as [[[p' sh'] ev]|] eqn:Hts;
        [|done].
      injection Hstep as <-. simpl. by eapply thread_step_live. }
  apply Hgen. split; simpl.
  - by intros i task p _ [t [-> _]]%list_lookup_fmap_Some.
  - rewrite Hbuf. by intros bt ?%elem_of_nil.
Qed.

(** In every state of every run a worker has no step only when it waits on
    a condition variable or is done: the three undefined cases of the model
    (an unwritten [stat_buf], a pointer to no entry in lines 316-317 or in
    [write_pkg]) never arise. *)
Lemma reachable_step_defined (sh : Shared) (sched : list nat) (st : System)
    (i : nat) (task : PoolTask) (p : pc) :
  buffer sh = [] →
  run u tasks max_threads sched (init sh tasks) = Some st →
  tasks !! i = Some task → threads st !! i = Some p →
  thread_step u task p (shared st) = None → waits (shared st) task p.
Proof.
  intros Hbuf Hrun Htask Hi.
  pose proof (li_threads _ _ _ (reachable_live _ _ _ Hbuf Hrun) _ _ _ Htask Hi)
    as Hlive.
  destruct p as [| |stat_buf|stat_buf old_used|res pkg|s id res pkg c|failed|s| | |];
    simpl in *; try done.
  - by destruct (stat_phase _ _ _) as [[|sb] ev'].
  - intros Hn. exfalso. revert Hn.
    destruct (update_phase _ _ _ _) as [[[omd ou] ev']|] eqn:Hup; [done|].
    intros _. apply update_phase_undefined in Hup
      as (-> & Hskip & ht & md & Hmd & _).
    destruct (reachable_stat_buf _ _ _ _ _ Hrun Hi) as [? [=]]; [|done].
    by rewrite Hmd.
  - destruct (load_phase _ _ _ _ _) as [[[| |res pkg] ev']|] eqn:Hl; try done.
    intros _. unfold load_phase in Hl.
    destruct old_used; simpl in *; [|done].
    unfold entry in Hlive. destruct Hlive as [md Hmd]. by rewrite Hmd in Hl.
  - by destruct (buffer_admits _ _ _).
  - case_bool_decide; [|done]. destruct Hlive as [pk ->].
    by destruct (write_stream _ _ _ _ _).
  - by case_bool_decide.
  - by case_bool_decide.
  - by destruct (drain_peek _).
Qed.

(** ** A run in which every worker returns *)

Lemma thread_step_skip (task : PoolTask) (s : stream) (sh : Shared) :
  snk_id (sink s sh) = pt_id task →
  thread_step u task (L_skip s) sh
  = Some (after_skip s, (skip_block s (pt_id task) sh).1,
          (skip_block s (pt_id task) sh).2).
Proof. intros H. simpl. by rewrite bool_decide_eq_true_2. Qed.

Lemma thread_step_write (task : PoolTask) (s : stream) (id : Z)
    (res : cr_XmlStruct) (pkg : pkg_ptr) (pk : cr_Package) (c : caller)
    (sh : Shared) :
  snk_id (sink s sh) = id → deref sh pkg = Some pk →
  thread_step u task (L_write s id res pkg c) sh
  = Some (after_write s id res pkg c, (write_stream s id res pk sh).1,
          (write_stream s id res pk sh).2).
Proof.
  intros H Hpk. simpl. rewrite bool_decide_eq_true_2, Hpk by done.
  by destruct (write_stream _ _ _ _ _).
Qed.

Lemma thread_step_cleanup_skip (task : PoolTask) (failed : bool) (sh : Shared) :
  snk_id (sink Pri sh) ≤ pt_id task →
  thread_step u task (L_task_cleanup failed) sh = Some (L_skip Pri, sh, []).
Proof. intros H. simpl. by rewrite bool_decide_eq_true_2. Qed.

Lemma thread_step_cleanup_drain (task : PoolTask) (failed : bool) (sh : Shared) :
  pt_id task < snk_id (sink Pri sh) →
  thread_step u task (L_task_cleanup failed) sh = Some (L_drain, sh, []).
Proof.
  intros H. simpl. rewrite bool_decide_eq_false_2; [done|].
  unfold id_pri. simpl in H. lia.
Qed.

Lemma thread_step_buffering_own (task : PoolTask) (res : cr_XmlStruct)
    (pkg : pkg_ptr) (sh : Shared) :
  snk_id (sink Pri sh) = pt_id task →
  thread_step u task (L_buffering res pkg) sh
  = Some (L_write Pri (pt_id task) res pkg Main, sh, []).
Proof.
  intros H. simpl. unfold buffer_admits.
  rewrite (bool_decide_eq_true_2 (id_pri sh = pt_id task)) by done.
  by rewrite andb_false_r.
Qed.

Lemma skip_block_buffer (s : stream) (id : Z) (sh : Shared) :
  buffer (skip_block s id sh).1 = buffer sh.
Proof. apply buffer_set_sink. Qed.

Lemma thread_step_drain_empty (task : PoolTask) (sh : Shared) :
  buffer sh = [] → thread_step u task L_drain sh = Some (Returned, sh, []).
Proof. intros H. simpl. unfold drain_peek. by rewrite H. Qed.

(** The failure path of a worker whose id is the value of the three
    counters. *)
Lemma skip_path (task : PoolTask) (sh : Shared) (failed : bool) :
  (∀ s, snk_id (sink s sh) = pt_id task) → buffer sh = [] →
  0 ≤ pt_id task < LONG_MAX →
  ∃ sh', thread_runs u task (L_task_cleanup failed) sh Returned sh' ∧
         (∀ s, snk_id (sink s sh') = pt_id task + 1) ∧ buffer sh' = [].
Proof.
  intros Hc Hbuf Hid.
  set (sh1 := (skip_block Pri (pt_id task) sh).1).
  set (sh2 := (skip_block Fil (pt_id task) sh1).1).
  set (sh3 := (skip_block Oth (pt_id task) sh2).1).
  assert (Hsucc : long_succ (pt_id task) = pt_id task + 1).
  { apply long_succ_exact. unfold LONG_MAX in *. lia. }
  assert (H1 : ∀ s, snk_id (sink s sh1)
                    = if decide (s = Pri) then pt_id task + 1 else pt_id task).
  { intros s. unfold sh1. rewrite skip_block_sink_id, !Hc, Hsucc. done. }
  assert (H2 : ∀ s, snk_id (sink s sh2)
                    = if decide (s = Oth) then pt_id task else pt_id task + 1).
  { intros s. unfold sh2. rewrite skip_block_sink_id, !H1.
    destruct s; simpl; by rewrite ?Hsucc. }
  assert (H3 : ∀ s, snk_id (sink s sh3) = pt_id task + 1).
  { intros s. unfold sh3. rewrite skip_block_sink_id, !H2.
    destruct s; simpl; by rewrite ?Hsucc. }
  assert (Hb3 : buffer sh3 = []).
  { unfold sh3, sh2, sh1. by rewrite !skip_block_buffer. }
  exists sh3. split_and!; [|done..].
  eapply runs_step; [apply thread_step_cleanup_skip; rewrite Hc; lia|done|].
  eapply runs_step; [by apply thread_step_skip|done|].
  eapply runs_step; [apply thread_step_skip; by rewrite H1|done|].
  eapply runs_step; [apply thread_step_skip; by rewrite H2|done|].
  eapply runs_step; [by apply thread_step_drain_empty|done|apply runs_done].
Qed.

(** [write_pkg] and what follows it, for a worker whose id is the value of
    the three counters. *)
Lemma write_path (task : PoolTask) (sh : Shared) (res : cr_XmlStruct)
    (pkg : pkg_ptr) :
  (∀ s, snk_id (sink s sh) = pt_id task) → buffer sh = [] →
  0 ≤ pt_id task < LONG_MAX → is_Some (deref sh pkg) →
  ∃ sh', thread_runs u task (L_write Pri (pt_id task) res pkg Main) sh
           Returned sh' ∧
         (∀ s, snk_id (sink s sh') = pt_id task + 1) ∧ buffer sh' = [].
Proof.
  intros Hc Hbuf Hid [pk Hpk].
  set (sh1 := (write_stream Pri (pt_id task) res pk sh).1).
  set (sh2 := (write_stream Fil (pt_id task) res pk sh1).1).
  set (sh3 := (write_stream Oth (pt_id task) res pk sh2).1).
  assert (Hsucc : long_succ (pt_id task) = pt_id task + 1).
  { apply long_succ_exact. unfold LONG_MAX in *. lia. }
  assert (H1 : ∀ s, snk_id (sink s sh1)
                    = if decide (s = Pri) then pt_id task + 1 else pt_id task).
  { intros s. unfold sh1. rewrite write_stream_sink_id, !Hc, Hsucc. done. }
  assert (H2 : ∀ s, snk_id (sink s sh2)
                    = if decide (s = Oth) then pt_id task else pt_id task + 1).
  { intros s. unfold sh2. rewrite write_stream_sink_id, !H1.
    destruct s; simpl; by rewrite ?Hsucc. }
  assert (H3 : ∀ s, snk_id (sink s sh3) = pt_id task + 1).
  { intros s. unfold sh3. rewrite write_stream_sink_id, !H2.
    destruct s; simpl; by rewrite ?Hsucc. }
  assert (Hb3 : buffer sh3 = []).
  { unfold sh3, sh2, sh1. by rewrite !write_stream_buffer. }
  assert (Hp1 : deref sh1 pkg = Some pk).
  { rewrite deref_entry in *. unfold sh1.
    by rewrite write_stream_old_metadata. }
  assert (Hp2 : deref sh2 pkg = Some pk).
  { rewrite deref_entry in *. unfold sh2.
    by rewrite write_stream_old_metadata. }
  exists sh3. split_and!; [|done..].
  eapply runs_step; [by apply thread_step_write|done|].
  eapply runs_step; [apply thread_step_write; [by rewrite H1|done]|done|].
  eapply runs_step; [apply thread_step_write; [by rewrite H2|done]|done|].
  eapply runs_step; [apply thread_step_cleanup_drain; rewrite H3; lia|done|].
  eapply runs_step; [by apply thread_step_drain_empty|done|apply runs_done].
Qed.

(** A worker whose id is the value of the three counters returns if no
    other worker moves, and has then advanced each counter by one. *)
Lemma worker_alone_returns (task : PoolTask) (sh : Shared) :
  (∀ s, snk_id (sink s sh) = pt_id task) → buffer sh = [] →
  0 ≤ pt_id task < LONG_MAX →
  (load_fresh_with u task None).1 ≠ LoadAbort →
  ∃ sh', thread_runs u task Queued sh Returned sh' ∧
         (∀ s, snk_id (sink s sh') = pt_id task + 1) ∧ buffer sh' = [].
Proof.
  intros Hc Hbuf Hid Hnab.
  assert (Hfail : ∀ sh1,
            (∀ s, sink s sh1 = sink s sh) → buffer sh1 = [] →
            ∃ sh', thread_runs u task (L_task_cleanup true) sh1 Returned sh' ∧
                   (∀ s, snk_id (sink s sh') = pt_id task + 1) ∧ buffer sh' = []).
  { intros sh1 Hs Hb. apply skip_path; [|done..]. intros s. by rewrite Hs. }
  destruct (stat_phase u (old_metadata sh) task) as [[|sb] ev0] eqn:Hst.
  { destruct (Hfail sh) as (sh' & Hr & ?); [done..|].
    exists sh'. split; [|done].
    eapply runs_step; [done|done|].
    eapply runs_step; [simpl; by rewrite Hst|done|done]. }
  destruct (update_phase u (old_metadata sh) task sb) as [[[omd ou] ev1]|] eqn:Hup.
  2:{ exfalso. apply update_phase_undefined in Hup
        as (-> & Hskip & ht & md & Hmd & _).
      apply stat_phase_done in Hst. rewrite Hmd, Hskip in Hst.
      rewrite bool_decide_eq_true_2 in Hst by eauto. simpl in Hst.
      by destruct Hst as (_ & [? [=]] & _). }
  set (sh1 := set_old_metadata omd sh).
  assert (Hs1 : ∀ s, sink s sh1 = sink s sh) by (by intros []).
  assert (Hb1 : buffer sh1 = []) by done.
  assert (Hent : ou = true → is_Some (entry omd (pt_filename task))).
  { intros ->.
    pose proof (update_phase_rel u (old_metadata sh) (old_metadata sh) task
                  sb (store_rel_refl _)) as Hu.
    rewrite Hup in Hu. destruct Hu as (_ & _ & _ & He & _).
    rewrite He by done. unfold exp_entry. rewrite fmap_is_Some.
    unfold update_phase in Hup.
    destruct (old_metadata sh) as [ht|]; [|by simplify_eq].
    rewrite entry_some. by destruct (ht !! pt_filename task); simplify_eq. }
  destruct (load_phase u omd task sb ou) as [[[| |res pkg] ev2]|] eqn:Hl.
  - exfalso. unfold load_phase in Hl. destruct ou; simpl in Hl.
    + destruct (omd ≫= _) as [md|]; [|done]. unfold dump_phase in Hl.
      by destruct (cr_xml_dump md); simplify_eq.
    + injection Hl as Hl. by rewrite Hl in Hnab.
  - destruct (Hfail sh1) as (sh' & Hr & ?); [done..|].
    exists sh'. split; [|done].
    eapply runs_step; [done|done|].
    eapply runs_step; [simpl; by rewrite Hst|done|].
    eapply runs_step; [simpl; by rewrite Hup|done|].
    eapply runs_step; [simpl; by rewrite Hl|done|done].
  - destruct (write_path task sh1 res pkg) as (sh' & Hr & ?); [| |done| |].
    + intros s. by rewrite Hs1.
    + done.
    + rewrite deref_entry. destruct pkg as [pk|key]; [done|].
      by eapply load_phase_loaded_entry.
    + exists sh'. split; [|done].
      eapply runs_step; [done|done|].
      eapply runs_step; [simpl; by rewrite Hst|done|].
      eapply runs_step; [simpl; by rewrite Hup|done|].
      eapply runs_step; [simpl; by rewrite Hl|done|].
      eapply runs_step;
        [apply thread_step_buffering_own; by rewrite Hs1|done|done].
  - exfalso. unfold load_phase in Hl. destruct ou; simpl in Hl; [|done].
    destruct (Hent eq_refl) as [md Hmd]. unfold entry in Hmd.
    by rewrite Hmd in Hl.
Qed.

Lemma alone_not_aborted (i : nat) (ths : list pc) (p : pc) :
  alone i ths → ths !! i = Some p → is_aborted p = false →
  existsb is_aborted ths = false.
Proof.
  intros Hal Hi Hp. apply not_true_is_false. intros Hex.
  apply existsb_exists in Hex as (q & Hq%list_elem_of_In & Hab).
  apply list_elem_of_lookup in Hq as [j Hj].
  destruct (decide (j = i)) as [->|Hne].
  - rewrite Hi in Hj. injection Hj as <-. by rewrite Hp in Hab.
  - by destruct (Hal _ _ Hne Hj) as [-> | ->].
Qed.

Lemma alone_active (i : nat) (ths : list pc) :
  alone i ths → ths !! i = Some Queued → active ths = 0%nat.
Proof.
  intros Hal Hi.
  assert (Hall : Forall (λ q, running q = false) ths).
  { apply Forall_lookup. intros j q Hj. destruct (decide (j = i)) as [->|Hne].
    - rewrite Hi in Hj. by injection Hj as <-.
    - by destruct (Hal _ _ Hne Hj) as [-> | ->]. }
  unfold active. clear Hal Hi.
  induction Hall as [|q l Hq _ IH]; [done|].
  rewrite filter_cons. case_decide; [congruence|done].
Qed.

Lemma alone_insert (i : nat) (ths : list pc) (p : pc) :
  alone i ths → alone i (<[i := p]> ths).
Proof.
  intros Hal j q Hne. rewrite list_lookup_insert_ne by done. by apply Hal.
Qed.

Lemma run_app (sched1 sched2 : list nat) (st : System) :
  run u tasks max_threads (sched1 ++ sched2) st
  = run u tasks max_threads sched1 st ≫= run u tasks max_threads sched2.
Proof.
  revert st. induction sched1 as [|i sched1 IH]; intros st; simpl; [done|].
  by destruct (step _ _ _ _ _).
Qed.

(** The steps of a worker that is alone are steps of the pool. *)
Lemma thread_runs_run (i : nat) (task : PoolTask) (p p' : pc) (sh' : Shared)
    (st : System) :
  (0 < max_threads)%nat →
  tasks !! i = Some task → threads st !! i = Some p →
  alone i (threads st) → is_aborted p = false →
  thread_runs u task p (shared st) p' sh' →
  ∃ sched st',
    run u tasks max_threads sched st = Some st' ∧ shared st' = sh' ∧
    threads st' = <[i := p']> (threads st).
Proof.
  intros Hmax Htask Hi Hal Hp Hruns. remember (shared st) as sh eqn:Hsh.
  revert st Hsh Hi Hal Hp.
  induction Hruns as [p sh|p p1 p' sh sh1 sh' ev Hstep Hp1 Hruns IH];
    intros st Hsh Hi Hal Hp.
  - exists [], st. split_and!; [done..|]. symmetry. by apply list_insert_id.
  - set (st1 := {| shared := sh1; threads := <[i := p1]> (threads st);
                   events := events st ++ ((λ e, (i, e)) <$> ev) |}).
    assert (Hlt := lookup_lt_Some _ _ _ Hi).
    assert (Hs : step u tasks max_threads i st = Some st1).
    { unfold step. rewrite (alone_not_aborted i _ p), Htask, Hi by done.
      rewrite <-Hsh, Hstep.
      destruct (is_queued p) eqn:Hq; [|done]. destruct p; try done.
      rewrite (alone_active i) by done. simpl.
      by rewrite bool_decide_eq_true_2. }
    destruct (IH st1) as (sched & st' & Hrun & Hsh' & Hth); [done|..|done|].
    + simpl. by apply list_lookup_insert_eq.
    + by apply alone_insert.
    + exists (i :: sched), st'. simpl. rewrite Hs. split_and!; [done..|].
      rewrite Hth. simpl. by rewrite list_insert_insert_eq.
Qed.

(** X15: for every list of tasks and every pool of at least one thread
    there is a run in which every worker returns (the one that runs the
    workers one after the other, in the order of the ids), unless the
    extraction of some task calls [abort]. *)
Theorem complete_run_exists (sh0 : Shared) :
  fresh sh0 → (0 < max_threads)%nat →
  (∀ task, task ∈ tasks → (load_fresh_with u task None).1 ≠ LoadAbort) →
  ∃ sched st,
    run u tasks max_threads sched (init sh0 tasks) = Some st ∧
    all_returned st.
Proof.
  intros [Hc0 Hb0] Hmax Hnab.
  assert (Hm : ∀ m, (m ≤ length tasks)%nat →
            ∃ sched st,
              run u tasks max_threads sched (init sh0 tasks) = Some st ∧
              (∀ s, snk_id (sink s (shared st)) = Z.of_nat m) ∧
              buffer (shared st) = [] ∧
              length (threads st) = length tasks ∧
              ∀ j q, threads st !! j = Some q →
                     q = if decide (j < m)%nat then Returned else Queued).
  { induction m as [|m IH]; intros Hle.
    - exists [], (init sh0 tasks). simpl. split_and!; [done..| |].
      + by rewrite length_fmap.
      + by intros j q [t [-> _]]%list_lookup_fmap_Some.
    - destruct IH as (sched & st & Hrun & Hc & Hb & Hlen & Hth); [lia|].
      destruct (lookup_lt_is_Some_2 tasks m) as [task Htask]; [lia|].
      assert (Hid := dense_ids _ _ Htask).
      destruct (lookup_lt_is_Some_2 (threads st) m) as [q Hq]; [lia|].
      assert (q = Queued) as ->.
      { rewrite (Hth _ _ Hq). by rewrite decide_False by lia. }
      assert (Hal : alone m (threads st)).
      { intros j q Hne Hj. rewrite (Hth _ _ Hj). case_decide; auto. }
      destruct (worker_alone_returns task (shared st)) as (sh' & Hruns & Hc' & Hb').
      { intros s. by rewrite Hc, Hid. }
      { done. }
      { unfold LONG_MAX in *. lia. }
      { apply Hnab. by eapply list_elem_of_lookup_2. }
      destruct (thread_runs_run m task Queued Returned sh' st)
        as (sched' & st' & Hrun' & Hsh' & Hth'); [done..|].
      exists (sched ++ sched'), st'. rewrite run_app, Hrun. simpl.
      split_and!; [done| | | |].
      + intros s. rewrite Hsh', Hc', Hid. lia.
      + by rewrite Hsh'.
      + by rewrite Hth', length_insert.
      + intros j q. rewrite Hth'. destruct (decide (j = m)) as [->|Hne].
        * rewrite list_lookup_insert_eq by lia. intros [= <-].
          by rewrite decide_True by lia.
        * rewrite list_lookup_insert_ne by done. intros Hj.
          rewrite (Hth _ _ Hj). repeat case_decide; try done; lia. }
  destruct (Hm (length tasks)) as (sched & st & Hrun & _ & _ & Hlen & Hth);
    [done|].
  exists sched, st. split; [done|]. apply Forall_lookup. intros j q Hj.
  rewrite (Hth _ _ Hj). apply lookup_lt_Some in Hj.
  by rewrite decide_True by lia.
Qed.

(** ** More invariants of the counters, the buffer and the record *)

Lemma concat_imap_elem (f : nat → pc → list Z) (ths : list pc) (x : Z) :
  x ∈ concat (imap f ths) ↔ ∃ i p, ths !! i = Some p ∧ x ∈ f i p.
Proof.
  revert f. induction ths as [|q ths IH]; intros f; simpl.
  - split; [by intros ?%elem_of_nil|by intros (i & p & [=] & _)].
  - rewrite elem_of_app, (IH (f ∘ S)). split.
    + intros [Hx|(i & p & Hi & Hx)]; [by exists 0%nat, q|by exists (S i), p].
    + intros ([|i] & p & Hi & Hx); simpl in Hi.
      * injection Hi as <-. by left.
      * right. by exists i, p.
Qed.

Lemma pending_elem (s : stream) (ths : list pc) (buf : list BufferedTask) (x : Z) :
  x ∈ pending s ths buf ↔
  (∃ i p, ths !! i = Some p ∧ x ∈ holds s (Z.of_nat i) p) ∨
  (∃ bt, bt ∈ buf ∧ bt_id bt = x).
Proof.
  unfold pending. rewrite elem_of_app, concat_imap_elem, list_elem_of_fmap.
  naive_solver.
Qed.

(** An id that has still to pass the counter of a stream has still to pass
    those of the streams that come after it. *)
Lemma holds_mono (s s' : stream) (own : Z) (p : pc) (x : Z) :
  stream_le s s' = true → x ∈ holds s own p → x ∈ holds s' own p.
Proof.
  intros Hle.
  destruct p as [| |sb|sb ou|res pkg|s0 id res pkg c|[]|s0| | |]; simpl;
    try done; destruct s0, s, s'; simpl in *; try done;
    by intros ?%elem_of_nil.
Qed.

Lemma pending_mono (s s' : stream) (ths : list pc) (buf : list BufferedTask)
    (x : Z) :
  stream_le s s' = true → x ∈ pending s ths buf → x ∈ pending s' ths buf.
Proof.
  intros Hle. rewrite !pending_elem.
  intros [(i & p & Hi & Hx)|Hb]; [left|by right].
  exists i, p. split; [done|]. by eapply holds_mono.
Qed.

Lemma core_counters_ordered (sh : Shared) (ths : list pc) (s s' : stream) :
  core_inv n sh ths → stream_le s s' = true →
  snk_id (sink s' sh) ≤ snk_id (sink s sh).
Proof.
  intros Hinv Hle.
  assert (Hb := ci_bounds _ _ _ Hinv s).
  assert (Hb' := ci_bounds _ _ _ Hinv s').
  destruct (decide (snk_id (sink s sh) = n)) as [|Hne]; [lia|].
  assert (Hin : snk_id (sink s sh) ∈ pending s ths (buffer sh)).
  { rewrite (ci_pending _ _ _ Hinv). apply elem_of_seqZ. lia. }
  apply (pending_mono _ s') in Hin; [|done].
  apply (pending_elem_bounds _ _ _ _ _ Hinv) in Hin. lia.
Qed.

(** X6: in every state of every run the counters are in the order of the
    stages of [write_pkg]: [id_oth ≤ id_fil ≤ id_pri], none below 0 and
    none above the number of tasks. *)
Theorem counters_follow_each_other (sh0 : Shared) (sched : list nat)
    (st : System) :
  fresh sh0 →
  run u tasks max_threads sched (init sh0 tasks) = Some st →
  0 ≤ id_oth (shared st) ∧ id_oth (shared st) ≤ id_fil (shared st) ∧
  id_fil (shared st) ≤ id_pri (shared st) ∧ id_pri (shared st) ≤ n.
Proof.
  intros Hfresh Hrun.
  assert (Hinv := reachable_core _ _ _ Hfresh Hrun).
  split_and!.
  - apply (ci_bounds _ _ _ Hinv Oth).
  - by apply (core_counters_ordered _ _ Fil Oth Hinv).
  - by apply (core_counters_ordered _ _ Pri Fil Hinv).
  - apply (ci_bounds _ _ _ Hinv Pri).
Qed.

(** X7: in every state of every run, on each stream the ids that have had
    their turn (a record or a skip) are [0, 1, ..., counter - 1], in that
    order; so the records of the stream are in the order of the ids, and
    there is none for an id the counter has not passed. *)
Theorem stream_records_in_id_order (sh0 : Shared) (sched : list nat)
    (st : System) (s : stream) :
  fresh sh0 →
  run u tasks max_threads sched (init sh0 tasks) = Some st →
  project (advanced_id s) (events st) = seqZ 0 (snk_id (sink s (shared st))) ∧
  StronglySorted Z.lt (project (written_id s) (events st)) ∧
  (∀ id, id ∈ project (written_id s) (events st) →
         0 ≤ id < snk_id (sink s (shared st))).
Proof.
  intros Hfresh Hrun.
  destruct (reachable_pool_inv _ _ _ Hfresh Hrun) as [_ Htr].
  assert (Hadv := ti_adv _ _ _ Htr s).
  split_and!; [done| |].
  - unfold project. apply (omap_sorted_sub _ (λ we, advanced_id s we.2)).
    + intros [w e] x. simpl. destruct e; simpl; try done.
    + fold (project (advanced_id s) (events st)). rewrite Hadv.
      apply seqZ_sorted.
  - intros id Hin%project_written_advanced. rewrite Hadv in Hin.
    apply elem_of_seqZ in Hin. lia.
Qed.

Lemma sorted_le_NoDup (l : list BufferedTask) :
  StronglySorted (λ a b, bt_id a ≤ bt_id b) l → NoDup (bt_id <$> l) →
  StronglySorted (λ a b, bt_id a < bt_id b) l.
Proof.
  induction 1 as [|a l Hs IH Hall]; [constructor|]. rewrite fmap_cons.
  intros [Hn Hnd]%NoDup_cons. constructor; [by apply IH|].
  rewrite Forall_forall in *. intros b Hb.
  assert (bt_id a ≠ bt_id b).
  { intros Heq. apply Hn. rewrite Heq. by apply list_elem_of_fmap_2. }
  specialize (Hall b Hb). simpl in Hall. lia.
Qed.

(** X8: in every state of every run the buffer holds at most 20 results,
    in the strict order of their ids; each of them is of a task that did
    not fail, whose id [id_pri] has not passed and that no worker holds;
    when the first of them is the next to write, some worker that has
    advanced [id_pri] has still to look at the buffer; and when every
    worker has returned the buffer is empty. *)
Theorem buffer_is_sorted_and_drained (sh0 : Shared) (sched : list nat)
    (st : System) :
  fresh sh0 →
  run u tasks max_threads sched (init sh0 tasks) = Some st →
  StronglySorted (λ a b, bt_id a < bt_id b) (buffer (shared st)) ∧
  Z.of_nat (length (buffer (shared st))) ≤ 20 ∧
  (∀ bt, bt ∈ buffer (shared st) →
     id_pri (shared st) ≤ bt_id bt < n ∧
     ¬ failed (events st) (bt_id bt) ∧
     ∀ s i p, threads st !! i = Some p → bt_id bt ∉ holds s (Z.of_nat i) p) ∧
  (∀ bt, head (buffer (shared st)) = Some bt →
     bt_id bt = id_pri (shared st) →
     ∃ d p, threads st !! d = Some p ∧ will_drain p = true) ∧
  (all_returned st → buffer (shared st) = []).
Proof.
  intros Hfresh Hrun.
  destruct (reachable_pool_inv _ _ _ Hfresh Hrun) as [Hinv Htr].
  split_and!.
  - apply sorted_le_NoDup; [apply (ci_sorted _ _ _ Hinv)|].
    assert (Hnd : NoDup (pending Pri (threads st) (buffer (shared st)))).
    { rewrite (ci_pending _ _ _ Hinv). apply NoDup_seqZ. }
    unfold pending in Hnd. by apply NoDup_app in Hnd as (_ & _ & Hnd).
  - apply (ci_buflen _ _ _ Hinv).
  - intros bt Hbt. split_and!.
    + apply (buffered_bounds _ _ _ Pri _ Hinv Hbt).
    + apply (buffered_bounds _ _ _ Pri _ Hinv Hbt).
    + by apply (ti_buffer _ _ _ Htr).
    + intros s i p Hi Hin. by eapply holder_unique_buffer.
  - intros bt Hhd Heq. apply (ci_drain _ _ _ Hinv).
    rewrite <-Heq. apply list_elem_of_fmap_2.
    destruct (buffer (shared st)); simplify_eq/=. by left.
  - intros Hall. by destruct (core_all_returned _ _ _ Hinv Hall).
Qed.

(** X17: no task is lost and none is taken twice: in every state of every
    run, each id from the counter of a stream up to the number of tasks is
    held for that stream by exactly one party, a worker (its own task, or
    the result it took from the buffer) or an entry of the buffer. *)
Theorem every_pending_id_is_held_once (sh0 : Shared) (sched : list nat)
    (st : System) (s : stream) :
  fresh sh0 →
  run u tasks max_threads sched (init sh0 tasks) = Some st →
  pending s (threads st) (buffer (shared st))
  ≡ₚ seqZ (snk_id (sink s (shared st))) (n - snk_id (sink s (shared st))) ∧
  ∀ id,
    snk_id (sink s (shared st)) ≤ id < n →
    ((∃ i p, threads st !! i = Some p ∧ id ∈ holds s (Z.of_nat i) p) ∨
     (∃ bt, bt ∈ buffer (shared st) ∧ bt_id bt = id)) ∧
    (∀ i j p q,
       threads st !! i = Some p → threads st !! j = Some q →
       id ∈ holds s (Z.of_nat i) p → id ∈ holds s (Z.of_nat j) q → i = j) ∧
    (∀ i p bt,
       threads st !! i = Some p → bt ∈ buffer (shared st) →
       bt_id bt = id → id ∉ holds s (Z.of_nat i) p).
Proof.
  intros Hfresh Hrun.
  assert (Hinv := reachable_core _ _ _ Hfresh Hrun).
  split; [apply (ci_pending _ _ _ Hinv)|].
  intros id Hid. split_and!.
  - apply pending_elem. rewrite (ci_pending _ _ _ Hinv).
    apply elem_of_seqZ. lia.
  - intros i j p q Hi Hj Hp Hq.
    destruct (decide (i = j)) as [|Hne]; [done|].
    by destruct (holder_unique_threads _ _ _ s i j p q id Hinv Hi Hj Hne).
  - intros i p bt Hi Hbt <- Hin.
    by eapply (holder_unique_buffer _ _ _ s i p bt).
Qed.

(** ** Progress *)

Lemma not_all_returned (ths : list pc) :
  ¬ Forall (λ p, p = Returned) ths → ∃ i p, ths !! i = Some p ∧ p ≠ Returned.
Proof.
  intros Hn. induction ths as [|q ths IH].
  - destruct Hn. constructor.
  - destruct q; try (by exists 0%nat; eexists; split; [done|]).
    destruct IH as (i & p & Hi & Hp).
    + intros Hall. apply Hn. by constructor.
    + by exists (S i), p.
Qed.

Lemma not_aborted_lookup (ths : list pc) (i : nat) :
  existsb is_aborted ths = false → ths !! i ≠ Some Aborted.
Proof.
  intros Hex Hi. apply not_true_iff_false in Hex. apply Hex.
  apply existsb_exists. exists Aborted. split; [|done].
  apply list_elem_of_In. by eapply list_elem_of_lookup_2.
Qed.

(** A worker that does not wait has a step in the pool. *)
Lemma worker_can_step (sh0 : Shared) (sched : list nat) (st : System)
    (i : nat) (task : PoolTask) (p : pc) :
  buffer sh0 = [] →
  run u tasks max_threads sched (init sh0 tasks) = Some st →
  existsb is_aborted (threads st) = false →
  tasks !! i = Some task → threads st !! i = Some p →
  (is_queued p = true → (active (threads st) < max_threads)%nat) →
  ¬ waits (shared st) task p →
  ∃ st', step u tasks max_threads i st = Some st'.
Proof.
  intros Hbuf Hrun Hab Htask Hi Hq Hw.
  destruct (thread_step u task p (shared st)) as [[[p' sh'] ev]|] eqn:Hstep.
  - unfold step. rewrite Hab, Htask, Hi, Hstep.
    destruct (is_queued p) eqn:Hqp; simpl; [|by eexists].
    rewrite bool_decide_eq_true_2 by auto. simpl. by eexists.
  - destruct Hw. by eapply reachable_step_defined.
Qed.

(** X9: the pool cannot be stuck.  In a state of a run in which no worker
    has called [abort] and not every worker has returned, some worker has a
    step, provided the task whose id is [id_oth] has been taken from the
    queue or a thread of the pool is free to take it. *)
Theorem some_worker_can_step (sh0 : Shared) (sched : list nat) (st : System) :
  fresh sh0 →
  run u tasks max_threads sched (init sh0 tasks) = Some st →
  existsb is_aborted (threads st) = false →
  ¬ all_returned st →
  (threads st !! Z.to_nat (id_oth (shared st)) = Some Queued →
   (active (threads st) < max_threads)%nat) →
  ∃ i st', step u tasks max_threads i st = Some st'.
Proof.
  intros Hfresh Hrun Hab Hnall Hfree.
  assert (Hinv := reachable_core _ _ _ Hfresh Hrun).
  assert (Hbuf0 : buffer sh0 = []) by apply Hfresh.
  assert (Htask : ∀ i p, threads st !! i = Some p → ∃ task, tasks !! i = Some task).
  { intros i p Hi%lookup_lt_Some. apply lookup_lt_is_Some_2.
    assert (Hlen := ci_len _ _ _ Hinv). lia. }
  assert (Hgo : ∀ i p task,
            threads st !! i = Some p → tasks !! i = Some task →
            is_queued p = false → ¬ waits (shared st) task p →
            ∃ i st', step u tasks max_threads i st = Some st').
  { intros i p task Hi Ht Hq Hw. exists i.
    eapply worker_can_step; [done..| |done]. by rewrite Hq. }
  assert (Hord : ∀ s, id_oth (shared st) ≤ snk_id (sink s (shared st))).
  { intros s. apply (core_counters_ordered _ _ s Oth Hinv). by destruct s. }
  assert (Hbo := ci_bounds _ _ _ Hinv Oth).
  destruct (decide (id_oth (shared st) = n)) as [Hend|Hne].
  - (* every id has passed the three counters *)
    destruct (not_all_returned _ Hnall) as (i & p & Hi & Hp).
    destruct (Htask _ _ Hi) as [task Ht].
    assert (Hnil : holds Oth (Z.of_nat i) p = []).
    { destruct (holds Oth (Z.of_nat i) p) as [|x l] eqn:Hh; [done|].
      assert (snk_id (sink Oth (shared st)) ≤ x < n); [|unfold id_oth in *; simpl in *; lia].
      eapply held_bounds; [done..|]. rewrite Hh. by left. }
    destruct p as [| |sb|sb ou|res pkg|s0 id res pkg c|[]|s0| | |];
      simpl in Hnil; try done; try (by destruct s0);
      (eapply Hgo; [done..|by intros []]).
  - (* the id that is next on the last stream *)
    set (x := id_oth (shared st)) in *.
    assert (Hin : x ∈ pending Oth (threads st) (buffer (shared st))).
    { rewrite (ci_pending _ _ _ Hinv). apply elem_of_seqZ.
      unfold x, id_oth in *. simpl in *. lia. }
    apply pending_elem in Hin as [(i & p & Hi & Hx)|(bt & Hbt & Hid)].
    + destruct (Htask _ _ Hi) as [task Ht].
      assert (Hown := dense_ids _ _ Ht).
      assert (Hcnt : ∀ s, x ∈ holds s (Z.of_nat i) p →
                          snk_id (sink s (shared st)) = x).
      { intros s Hs. pose proof (held_bounds _ _ _ _ _ _ _ Hinv Hi Hs).
        specialize (Hord s). unfold x in *. lia. }
      destruct p as [| |sb|sb ou|res pkg|s0 id res pkg c|[]|s0| | |];
        simpl in Hx; try (by apply elem_of_nil in Hx);
        try (eapply Hgo; [done..|by intros []]).
      * (* still in the queue *)
        apply list_elem_of_singleton in Hx.
        exists i. eapply worker_can_step; [done..| |by intros []].
        intros _. apply Hfree. by rewrite Hx, Nat2Z.id.
      * (* in [write_pkg] *)
        assert (stream_le s0 Oth = true) as Hle by (by destruct s0).
        rewrite Hle in Hx. apply list_elem_of_singleton in Hx. subst id.
        eapply Hgo; [done..|]. simpl. intros Hw. apply Hw, Hcnt.
        simpl. rewrite stream_le_refl. by left.
      * (* on the failure path *)
        assert (stream_le s0 Oth = true) as Hle by (by destruct s0).
        rewrite Hle in Hx. apply list_elem_of_singleton in Hx.
        eapply Hgo; [done..|]. simpl. intros Hw. apply Hw.
        rewrite Hown, <-Hx. apply Hcnt.
        simpl. rewrite stream_le_refl. rewrite Hx. by left.
      * by destruct (not_aborted_lookup _ i Hab).
    + (* in the buffer *)
      assert (Hpri : id_pri (shared st) = x).
      { pose proof (buffered_bounds _ _ _ Pri _ Hinv Hbt) as Hb.
        specialize (Hord Pri). unfold id_pri, x in *. simpl in *. lia. }
      destruct (ci_drain _ _ _ Hinv) as (d & p & Hd & Hw).
      { rewrite Hpri, <-Hid. by apply list_elem_of_fmap_2. }
      destruct (Htask _ _ Hd) as [task Ht].
      assert (Hok := ci_threads _ _ _ Hinv _ _ Hd).
      destruct p as [| |sb|sb ou|res pkg|s0 id res pkg c|[]|s0| | |];
        simpl in Hw; try done; try (eapply Hgo; [done..|by intros []]).
      * (* it has written the primary record of an id below [id_pri] *)
        exfalso. simpl in Hok. destruct Hok as [_ Hlt].
        assert (id < id_pri (shared st)) by (apply Hlt; by destruct s0).
        assert (snk_id (sink Oth (shared st)) ≤ id < n); [|unfold x, id_oth in *; simpl in *; lia].
        eapply (held_bounds _ _ _ Oth); [done..|]. simpl.
        assert (stream_le s0 Oth = true) as -> by (by destruct s0). by left.
      * (* it has skipped the primary counter for its own id *)
        exfalso.
        assert (Hho : Z.of_nat d ∈ holds Oth (Z.of_nat d) (L_skip s0)).
        { simpl. assert (stream_le s0 Oth = true) as -> by (by destruct s0).
          by left. }
        pose proof (held_bounds _ _ _ _ _ _ _ Hinv Hd Hho) as Hbd.
        assert (Hinp : Z.of_nat d ∈ pending Pri (threads st) (buffer (shared st))).
        { rewrite (ci_pending _ _ _ Hinv). apply elem_of_seqZ.
          unfold id_pri, x, id_oth in *. simpl in *. lia. }
        apply pending_elem in Hinp as [(j & q & Hj & Hq)|(bt' & Hbt' & Hid')].
        -- destruct (decide (j = d)) as [->|Hjd].
           ++ rewrite Hd in Hj. injection Hj as <-. simpl in Hq.
              destruct s0; simpl in *; try done; by apply elem_of_nil in Hq.
           ++ eapply (holder_unique_threads _ _ _ Oth d j); [done..|].
              by apply (holds_mono Pri Oth).
        -- eapply (holder_unique_buffer _ _ _ Oth d); [done..|].
           by rewrite Hid'.
Qed.

(** ** Which tasks fail *)

Lemma run_snoc (sched : list nat) (i : nat) (st0 st' : System) :
  run u tasks max_threads (sched ++ [i]) st0 = Some st' ↔
  ∃ st, run u tasks max_threads sched st0 = Some st ∧
        step u tasks max_threads i st = Some st'.
Proof.
  rewrite run_app. destruct (run u tasks max_threads sched st0) as [st|];
    simpl.
  - destruct (step u tasks max_threads i st) as [st1|] eqn:Hs.
    + split; [intros [= <-]; by exists st|].
      intros (st2 & [= <-] & H). by rewrite Hs in H.
    + split; [done|]. intros (st2 & [= <-] & H). by rewrite Hs in H.
  - split; [done|]. by intros (st2 & [=] & _).
Qed.

(** What the record says of a task is what lines 246-324 give for it on
    the table the run started with. *)
Lemma reachable_outcomes (sh0 : Shared) (sched : list nat) (st : System) :
  NoDup (pt_filename <$> tasks) → fresh sh0 →
  run u tasks max_threads sched (init sh0 tasks) = Some st →
  ∀ i task,
    tasks !! i = Some task →
    (failed (events st) (Z.of_nat i) →
     outcome_of u (old_metadata sh0) task = Some LoadFailed) ∧
    (∀ s, Z.of_nat i ∈ project (written_id s) (events st) →
          ∃ res pkg, outcome_of u (old_metadata sh0) task
                     = Some (Loaded res pkg)).
Proof.
  intros Hnd Hfresh. revert st.
  induction sched as [|j sched IH] using rev_ind; intros st.
  - intros [= <-] i task Hi. simpl. split.
    + by intros (w & e & Hin%elem_of_nil & _).
    + by intros s Hin%elem_of_nil.
  - intros (st0 & Hrun & Hstep)%run_snoc i task Hi.
    specialize (IH _ Hrun).
    assert (Hd0 := reachable_data Hnd _ _ _ Hfresh Hrun).
    assert (Hrun1 : run u tasks max_threads (sched ++ [j]) (init sh0 tasks)
                    = Some st) by (apply run_snoc; eauto).
    assert (Hd1 := reachable_data Hnd _ _ _ Hfresh Hrun1).
    unfold step in Hstep. destruct (existsb _ _); [done|].
    destruct (tasks !! j) as [tj|] eqn:Htj; [|done].
    destruct (threads st0 !! j) as [p|] eqn:Hj; [|done].
    destruct (_ && _); [done|].
    destruct (thread_step u tj p (shared st0)) as [[[p' sh'] ev]|] eqn:Hts;
      [|done].
    injection Hstep as <-. simpl in *.
    assert (Hlt := lookup_lt_Some _ _ _ Hj).
    split.
    + intros [Hf|[Heq Hf]]%failed_app; [by apply (proj1 (IH i task Hi))|].
      apply Nat2Z.inj in Heq as <-. rewrite Htj in Hi. injection Hi as <-.
      destruct (thread_step_events _ _ _ _ _ _ _ Pri Hts) as (_ & _ & _ & Hsf).
      rewrite Hf in Hsf. symmetry in Hsf.
      pose proof (di_threads _ _ _ _ _ Hd1 j tj p' Htj) as Hok.
      rewrite list_lookup_insert_eq in Hok by done. specialize (Hok eq_refl).
      destruct p as [| |sb|sb ou|res pkg|s0 id res pkg c|fl|s0| | |];
        destruct p' as [| | | | | |[]| | | |]; done.
    + intros s. rewrite project_app, project_tag, elem_of_app.
      intros [Hin|Hin]; [by apply (proj2 (IH i task Hi) s)|].
      destruct (thread_step_events _ _ _ _ _ _ _ s Hts) as (Hw & _).
      rewrite Hw in Hin.
      destruct p as [| |sb|sb ou|res pkg|s0 id res pkg c|fl|s0| | |];
        simpl in Hin; try (by apply elem_of_nil in Hin).
      case_decide; [|by apply elem_of_nil in Hin].
      apply list_elem_of_singleton in Hin. subst id.
      pose proof (di_threads _ _ _ _ _ Hd0 j tj _ Htj Hj) as Hok.
      simpl in Hok. destruct Hok as (t & Ht & _ & Ho & _).
      rewrite Nat2Z.id in Ht. simplify_eq. eauto.
Qed.

(** X16: when no two tasks have the same file name, which tasks fail does
    not depend on the schedule: a worker reports a failure only for a task
    for which lines 246-324, run on the table the run started with, end in
    a failure; a stream gets a record only for a task for which they give a
    result; and once every worker has returned the tasks reported as failed
    are exactly the former. *)
Theorem failures_do_not_depend_on_schedule (sh0 : Shared) (sched : list nat)
    (st : System) (i : nat) (task : PoolTask) :
  NoDup (pt_filename <$> tasks) → fresh sh0 →
  run u tasks max_threads sched (init sh0 tasks) = Some st →
  tasks !! i = Some task →
  (failed (events st) (Z.of_nat i) →
   outcome_of u (old_metadata sh0) task = Some LoadFailed) ∧
  (∀ s, records s (Z.of_nat i) (events st) ≠ 0%nat →
        ∃ res pkg, outcome_of u (old_metadata sh0) task
                   = Some (Loaded res pkg)) ∧
  (all_returned st →
   (failed (events st) (Z.of_nat i) ↔
    outcome_of u (old_metadata sh0) task = Some LoadFailed)).
Proof.
  intros Hnd Hfresh Hrun Hi.
  destruct (reachable_outcomes _ _ _ Hnd Hfresh Hrun i task Hi) as [Hf Hw].
  assert (Hrec : ∀ s, records s (Z.of_nat i) (events st) ≠ 0%nat →
            ∃ res pkg, outcome_of u (old_metadata sh0) task
                       = Some (Loaded res pkg)).
  { intros s Hr. apply (Hw s).
    destruct (decide (Z.of_nat i ∈ project (written_id s) (events st)))
      as [|Hn]; [done|].
    by apply occurrences_zero in Hn. }
  split_and!; [done..|].
  intros Hall. split; [done|]. intros Ho.
  destruct (failedb (events st) (Z.of_nat i)) eqn:Hfb;
    [by apply failed_failedb|].
  exfalso.
  assert (Hinv := reachable_pool_inv _ _ _ Hfresh Hrun).
  destruct (core_all_returned n (shared st) (threads st)) as [Hcnt _];
    [apply Hinv|done|].
  pose proof (reachable_advances st Pri (Z.of_nat i) Hinv) as Hsum.
  rewrite Hcnt, decide_True in Hsum
    by (apply lookup_lt_Some in Hi; lia).
  destruct (Hrec Pri) as (res & pkg & Ho'); [|congruence].
  intros Hz.
  assert (Hsk : skips Pri (Z.of_nat i) (events st) ≠ 0%nat) by lia.
  apply (reachable_skips_failed _ _ _ Hinv), failed_failedb in Hsk.
  congruence.
Qed.

End Pool.

(** ** The streams at any moment of a run *)

(** A state in which the two invariants hold: each stream is what the
    serial run on the tasks below its counter leaves. *)
Lemma serial_prefix_of_invariants (u : UserData) (tasks : list PoolTask)
    (sh0 sh : Shared) (ths : list pc) (s : stream) :
  (∀ i task, tasks !! i = Some task → pt_id task = Z.of_nat i) →
  Z.of_nat (length tasks) ≤ LONG_MAX →
  fresh sh0 →
  core_inv (Z.of_nat (length tasks)) sh ths →
  data_inv u tasks sh0 sh ths →
  ∃ sh_ser,
    serial_run u (take (Z.to_nat (snk_id (sink s sh))) tasks) sh0 = Some sh_ser ∧
    sink s sh = sink s sh_ser.
Proof.
  intros Hdense Hfits Hfresh Hc Hd.
  set (k := Z.to_nat (snk_id (sink s sh))).
  assert (Hk : Z.of_nat k ≤ id_pri sh).
  { pose proof (ci_bounds _ _ _ Hc s).
    pose proof (core_counters_ordered _ _ _ Pri s Hc eq_refl).
    unfold k, id_pri. simpl in *. lia. }
  destruct (serial_run_spec u (take k tasks)) with (sh0 := sh0) (done := @nil PoolTask)
    (rest := take k tasks) (sh := sh0) as (sh_ser & Hser & Hs).
  - intros i task [Hi _]%lookup_take_Some. by apply Hdense.
  - rewrite length_take. lia.
  - done.
  - apply store_rel_refl.
  - intros s'. apply Hfresh.
  - intros task [i [Hi Hlt]%lookup_take_Some]%list_elem_of_lookup.
    apply (di_done _ _ _ _ _ Hd i); [done|]. lia.
  - exists sh_ser. split; [done|]. by rewrite Hs, (di_sinks _ _ _ _ _ Hd s).
Qed.

(** X13: when no two tasks have the same file name, at every moment of
    every run each stream (its counter, its XML file and its database) is
    exactly what the serial run leaves after the tasks whose ids are below
    the counter of the stream: a run that is cut short leaves a prefix of
    the serial output on each stream. *)
Theorem streams_are_serial_prefixes (u : UserData) (tasks : list PoolTask)
    (max_threads : nat) (sh0 : Shared) (sched : list nat) (st : System)
    (s : stream) :
  (∀ i task, tasks !! i = Some task → pt_id task = Z.of_nat i) →
  Z.of_nat (length tasks) ≤ LONG_MAX →
  NoDup (pt_filename <$> tasks) →
  fresh sh0 →
  run u tasks max_threads sched (init sh0 tasks) = Some st →
  ∃ sh_ser,
    serial_run u (take (Z.to_nat (snk_id (sink s (shared st)))) tasks) sh0
    = Some sh_ser ∧
    sink s (shared st) = sink s sh_ser.
Proof.
  intros Hdense Hfits Hnd Hfresh Hrun.
  apply (serial_prefix_of_invariants u tasks sh0 (shared st) (threads st) s);
    [done..| |].
  - by apply (reachable_core u tasks max_threads Hdense Hfits sh0 sched).
  - by apply (reachable_data u tasks max_threads Hdense Hfits Hnd sh0 sched).
Qed.

(** *** Without old metadata *)

Lemma unary_inj (i j : nat) : unary i = unary j → i = j.
Proof.
  revert j. induction i as [|i IH]; intros [|j]; simpl; try done.
  intros [= H]. by rewrite (IH _ H).
Qed.

Lemma renamed_lookup (tasks : list PoolTask) (i : nat) :
  renamed tasks !! i = with_filename (unary i) <$> tasks !! i.
Proof. unfold renamed. by rewrite list_lookup_imap. Qed.

Lemma renamed_length (tasks : list PoolTask) :
  length (renamed tasks) = length tasks.
Proof. unfold renamed. by rewrite length_imap. Qed.

Lemma renamed_NoDup (tasks : list PoolTask) :
  NoDup (pt_filename <$> renamed tasks).
Proof.
  apply NoDup_alt. intros i j name.
  rewrite !list_lookup_fmap, !renamed_lookup.
  destruct (tasks !! i), (tasks !! j); simpl; try done.
  intros [= <-] [= H]. by apply unary_inj.
Qed.

Lemma renamed_same_file (tasks : list PoolTask) :
  Forall2 same_file tasks (renamed tasks).
Proof.
  apply Forall2_same_length_lookup. split; [by rewrite renamed_length|].
  intros i a b Ha. rewrite renamed_lookup, Ha. by intros [= <-].
Qed.

(** Without a table, a worker does not look at the file name of its task. *)
Lemma thread_step_same_file (u : UserData) (a b : PoolTask) (p : pc)
    (sh : Shared) :
  same_file a b → old_metadata sh = None →
  thread_step u a p sh = thread_step u b p sh.
Proof.
  intros [Hid Hpath] Hnone.
  destruct p as [| |stat_buf|stat_buf old_used|res pkg|s id res pkg c|failed|s| | |];
    simpl; try done.
  - unfold stat_phase. by rewrite Hnone.
  - unfold update_phase. by rewrite Hnone.
  - unfold load_phase, load_fresh_with, location_href_of.
    rewrite Hnone, Hpath. by destruct old_used.
  - unfold buffer_admits, deposit, location_href_of. by rewrite Hid, Hpath, Hnone.
  - by rewrite Hid.
  - by rewrite Hid.
Qed.

Lemma thread_step_no_table (u : UserData) (task : PoolTask) (p p' : pc)
    (sh sh' : Shared) (ev : list Event) :
  thread_step u task p sh = Some (p', sh', ev) →
  old_metadata sh = None → old_metadata sh' = None.
Proof.
  intros Hstep Hnone.
  destruct p as [| |stat_buf|stat_buf old_used|res pkg|s id res pkg c|failed|s| | |];
    simpl in Hstep.
  - by simplify_eq.
  - by destruct (stat_phase _ _ _) as [[|sb] ev']; simplify_eq.
  - unfold update_phase in Hstep. rewrite Hnone in Hstep. by simplify_eq.
  - by destruct (load_phase _ _ _ _ _) as [[[| |res pkg] ev']|]; simplify_eq.
  - destruct (buffer_admits _ _ _); simplify_eq; [|done].
    unfold deposit. destruct pkg; simpl; by rewrite ?Hnone.
  - case_bool_decide; [|done]. destruct (deref sh pkg) as [pk|]; [|done].
    pose proof (write_stream_old_metadata s id res pk sh) as Hmd.
    destruct (write_stream _ _ _ _ _). simplify_eq. simpl in Hmd. congruence.
  - by case_bool_decide; simplify_eq.
  - case_bool_decide; [|done]. simplify_eq. simpl.
    by rewrite old_metadata_set_sink.
  - by destruct (drain_peek sh); simplify_eq.
  - done.
  - done.
Qed.

Lemma run_same_file (u : UserData) (ta tb : list PoolTask) (max_threads : nat)
    (sched : list nat) (st : System) :
  Forall2 same_file ta tb → old_metadata (shared st) = None →
  run u ta max_threads sched st = run u tb max_threads sched st.
Proof.
  intros Hsame. revert st. induction sched as [|i sched IH]; intros st Hnone;
    simpl; [done|].
  assert (Hstep : step u ta max_threads i st = step u tb max_threads i st
                  ∧ ∀ st', step u ta max_threads i st = Some st' →
                           old_metadata (shared st') = None).
  { unfold step. destruct (existsb _ _); [done|].
    destruct (ta !! i) as [a|] eqn:Ha.
    - destruct (Forall2_lookup_l _ _ _ _ _ Hsame Ha) as (b & -> & Hab).
      destruct (threads st !! i) as [p|]; [|done].
      destruct (_ && _); [done|].
      rewrite <-(thread_step_same_file u a b) by done.
      split; [done|].
      destruct (thread_step u a p (shared st)) as [[[p' sh'] ev]|] eqn:Hts;
        [|done].
      intros st' [= <-]. simpl. by eapply thread_step_no_table.
    - assert (tb !! i = None) as ->; [|done].
      apply lookup_ge_None. apply lookup_ge_None in Ha.
      by rewrite <-(Forall2_length _ _ _ Hsame). }
  destruct Hstep as [<- Hn].
  destruct (step u ta max_threads i st) as [st1|]; [|done].
  by apply IH, Hn.
Qed.

Lemma write_pkg_old_metadata (id : Z) (res : cr_XmlStruct) (pk : cr_Package)
    (sh sh' : Shared) (ev : list Event) :
  write_pkg id res pk sh = Some (sh', ev) → old_metadata sh' = old_metadata sh.
Proof.
  unfold write_pkg.
  case_bool_decide; [|done].
  pose proof (write_stream_old_metadata Pri id res pk sh) as Hm1.
  destruct (write_stream Pri _ _ _ _) as [sh1 ev1]. simpl in Hm1.
  case_bool_decide; [|done].
  pose proof (write_stream_old_metadata Fil id res pk sh1) as Hm2.
  destruct (write_stream Fil _ _ _ _) as [sh2 ev2]. simpl in Hm2.
  case_bool_decide; [|done].
  pose proof (write_stream_old_metadata Oth id res pk sh2) as Hm3.
  destruct (write_stream Oth _ _ _ _) as [sh3 ev3]. simpl in Hm3.
  intros [= <- _]. congruence.
Qed.

Lemma skip_pkg_old_metadata (id : Z) (sh sh' : Shared) (ev : list Event) :
  skip_pkg id sh = Some (sh', ev) → old_metadata sh' = old_metadata sh.
Proof.
  unfold skip_pkg, skip_block. repeat (case_bool_decide; [|done]).
  intros [= <- _]. by rewrite ?old_metadata_set_sink.
Qed.

Lemma prepare_same_file (u : UserData) (a b : PoolTask) :
  same_file a b → prepare u None a = prepare u None b.
Proof.
  intros [Hid Hpath].
  unfold prepare, stat_phase, update_phase, load_phase, load_fresh_with,
    location_href_of. simpl. by rewrite Hpath.
Qed.

Lemma prepare_no_table (u : UserData) (task : PoolTask)
    (omd : option (gmap string cr_Package)) (o : LoadOutcome) (ev : list Event) :
  prepare u None task = Some (omd, o, ev) → omd = None.
Proof.
  unfold prepare, stat_phase, update_phase. simpl.
  destruct (load_fresh_with u task None) as [o' ev']. by intros [= <- _ _].
Qed.

Lemma serial_one_same_file (u : UserData) (a b : PoolTask) (sh : Shared) :
  same_file a b → old_metadata sh = None →
  serial_one u a sh = serial_one u b sh ∧
  ∀ sh', serial_one u a sh = Some sh' → old_metadata sh' = None.
Proof.
  intros Hab Hnone. unfold serial_one.
  rewrite Hnone, <-(prepare_same_file u a b Hab).
  destruct Hab as [<- _].
  destruct (prepare u None a) as [[[omd o] ev]|] eqn:Hp; [|done].
  apply prepare_no_table in Hp as ->.
  destruct o as [| |res pkg]; [done| |].
  - split; [done|]. intros sh'.
    destruct (skip_pkg _ _) as [[sh1 ev1]|] eqn:Hs; [|done].
    intros [= <-]. by rewrite (skip_pkg_old_metadata _ _ _ _ Hs).
  - split; [done|]. intros sh'.
    destruct (deref _ pkg) as [pk|]; [|done].
    destruct (write_pkg _ _ _ _) as [[sh1 ev1]|] eqn:Hw; [|done].
    intros [= <-]. by rewrite (write_pkg_old_metadata _ _ _ _ _ _ Hw).
Qed.

Lemma serial_run_same_file (u : UserData) (ta tb : list PoolTask) (sh : Shared) :
  Forall2 same_file ta tb → old_metadata sh = None →
  serial_run u ta sh = serial_run u tb sh.
Proof.
  intros Hsame. revert sh.
  induction Hsame as [|a b ta tb Hab _ IH]; intros sh Hnone; simpl; [done|].
  destruct (serial_one_same_file u a b sh Hab Hnone) as [<- Hn].
  destruct (serial_one u a sh) as [sh1|]; [|done]. by apply IH, Hn.
Qed.

(** X14: when the run starts without old metadata, the file names play no
    part: whatever they are, at every moment of every run each stream is
    what the serial run leaves after the tasks below the counter of the
    stream, and once every worker has returned the three streams are those
    of the serial run on all the tasks. *)
Theorem streams_equal_serial_run_without_old_metadata (u : UserData)
    (tasks : list PoolTask) (max_threads : nat) (sh0 : Shared)
    (sched : list nat) (st : System) :
  (∀ i task, tasks !! i = Some task → pt_id task = Z.of_nat i) →
  Z.of_nat (length tasks) ≤ LONG_MAX →
  old_metadata sh0 = None →
  fresh sh0 →
  run u tasks max_threads sched (init sh0 tasks) = Some st →
  (∀ s, ∃ sh_ser,
     serial_run u (take (Z.to_nat (snk_id (sink s (shared st)))) tasks) sh0
     = Some sh_ser ∧
     sink s (shared st) = sink s sh_ser) ∧
  (all_returned st →
   ∃ sh_ser, serial_run u tasks sh0 = Some sh_ser ∧
             ∀ s, sink s (shared st) = sink s sh_ser).
Proof.
  intros Hdense Hfits Hnone Hfresh Hrun.
  assert (Hsame := renamed_same_file tasks).
  assert (Hinit : init sh0 (renamed tasks) = init sh0 tasks).
  { unfold init. f_equal. apply list_eq. intros i.
    rewrite !list_lookup_fmap, renamed_lookup. by destruct (tasks !! i). }
  assert (Hrun' : run u (renamed tasks) max_threads sched
                    (init sh0 (renamed tasks)) = Some st).
  { by rewrite Hinit, <-(run_same_file u tasks). }
  assert (Hdense' : ∀ i task, renamed tasks !! i = Some task →
                              pt_id task = Z.of_nat i).
  { intros i task. rewrite renamed_lookup.
    destruct (tasks !! i) as [t|] eqn:Ht; [|done].
    intros [= <-]. simpl. by apply Hdense. }
  assert (Hpre : ∀ s, ∃ sh_ser,
            serial_run u (take (Z.to_nat (snk_id (sink s (shared st)))) tasks) sh0
            = Some sh_ser ∧
            sink s (shared st) = sink s sh_ser).
  { intros s.
    assert (Hfits' : Z.of_nat (length (renamed tasks)) ≤ LONG_MAX)
      by (by rewrite renamed_length).
    destruct (serial_prefix_of_invariants u (renamed tasks) sh0 (shared st)
                (threads st) s) as (sh_ser & Hser & Hs); [done..| | |].
    { by apply (reachable_core u _ max_threads Hdense' Hfits' sh0 sched). }
    { by apply (reachable_data u _ max_threads Hdense' Hfits'
                  (renamed_NoDup tasks) sh0 sched). }
    exists sh_ser. split; [|done]. rewrite <-Hser.
    apply serial_run_same_file; [|done]. by apply Forall2_take. }
  split; [done|]. intros Hall.
  assert (Hc := reachable_core _ _ _ Hdense Hfits _ _ _ Hfresh Hrun).
  destruct (core_all_returned _ _ _ Hc Hall) as [Hcnt _].
  destruct (Hpre Pri) as (sh_ser & Hser & _).
  rewrite Hcnt, Nat2Z.id, firstn_all in Hser.
  exists sh_ser. split; [done|]. intros s.
  destruct (Hpre s) as (sh_s & Hser_s & Hs).
  rewrite Hcnt, Nat2Z.id, firstn_all in Hser_s. congruence.
Qed.

End Dumper.

(** * A small repository

    Concrete collaborators, on which the functions above compute: an XML
    file is the list of its chunks, a database the list of its packages. *)
Module Demo.

Definition add_chunk (f : list string) (c : string)
  : list string * option GError :=
  if String.prefix "!" c then (f, Some "disk full") else (f ++ [c], None).

Definition db_add (d : list cr_Package) (p : cr_Package)
  : list cr_Package * option GError :=
  if String.eqb (pkg_name p) "nodb.rpm" then (d, Some "constraint failed")
  else (d ++ [p], None).

Definition xml_dump (p : cr_Package) : cr_XmlStruct + GError :=
  if String.eqb (pkg_name p) "noxml.rpm" then inr "bad utf8"
  else inl {| primary := "<package " +:+ pkg_name p +:+ " href="
                         +:+ pkg_location_href p +:+ ">";
              filelists := "<files " +:+ pkg_name p +:+ ">";
              other := "<changelog " +:+ pkg_name p +:+ ">" |}.

Definition from_rpm (path : string) (lim : Z) : cr_Package + GError :=
  if String.prefix "/repo/broken" path then inr "not an rpm"
  else inl {| pkg_name := str_offset 6 path; pkg_pkgId := EmptyString;
              pkg_checksum_type := EmptyString; pkg_location_href := EmptyString;
              pkg_location_base := None; pkg_time_file := 0;
              pkg_size_package := 0; pkg_rpm_header_start := 0;
              pkg_rpm_header_end := 0; pkg_rest := EmptyString |}.

Definition checksum_file (path : string) (t : cr_ChecksumType) : string + GError :=
  if String.prefix "/repo/unreadable" path then inr "read error"
  else inl "c0ffee".

Definition header_range (path : string) : (Z * Z) + GError := inl (96, 4096).

Definition checksum_name (t : cr_ChecksumType) : string :=
  match t with
  | CR_CHECKSUM_MD5 => "md5"
  | CR_CHECKSUM_SHA1 => "sha1"
  | CR_CHECKSUM_SHA256 => "sha256"
  end.

Definition stat (path : string) : option Stat :=
  if String.prefix "/repo/gone" path then None
  else Some {| st_mtime := 1000; st_size := Z.of_nat (String.length path) |}.

Definition strerror_errno (path : string) : string :=
  "No such file or directory".

Definition XmlFile : Type := list string.
Definition SqliteDb : Type := list cr_Package.

Definition udata (count : Z) (skip : bool) : UserData :=
  {| checksum_type := CR_CHECKSUM_SHA256; checksum_type_str := "sha256";
     checksum_cachedir := None; location_base := None; changelog_limit := 10;
     repodir_name_len := 6; skip_stat := skip; package_count := count |}.

Definition task (id : Z) (full_path filename : string) : PoolTask :=
  {| pt_id := id; pt_full_path := full_path; pt_filename := filename;
     pt_path := "/repo" |}.

Definition empty_sink (db : bool) : Sink XmlFile SqliteDb :=
  {| snk_id := 0; snk_f := []; snk_db := if db then Some [] else None |}.

Definition start (db : bool) (omd : option (gmap string cr_Package))
  : Shared XmlFile SqliteDb :=
  {| pri := empty_sink db; fil := empty_sink db; oth := empty_sink db;
     buffer := []; old_metadata := omd |}.

(** An entry of the old metadata that is still right for a file of [size]
    bytes. *)
Definition cached (name : string) (size : Z) : cr_Package :=
  {| pkg_name := name; pkg_pkgId := "c0ffee"; pkg_checksum_type := "sha256";
     pkg_location_href := "old/" +:+ name; pkg_location_base := None;
     pkg_time_file := 1000; pkg_size_package := size;
     pkg_rpm_header_start := 96; pkg_rpm_header_end := 4096; pkg_rest := EmptyString |}.

Definition pool_run (u : UserData) (tasks : list PoolTask) (max_threads : nat)
    (sched : list nat) (sh : Shared XmlFile SqliteDb)
  : option (System XmlFile SqliteDb) :=
  run XmlFile SqliteDb add_chunk db_add xml_dump from_rpm checksum_file
    header_range checksum_name stat strerror_errno u tasks max_threads sched
    (init XmlFile SqliteDb sh tasks).

Definition serial (u : UserData) (tasks : list PoolTask)
    (sh : Shared XmlFile SqliteDb) : option (Shared XmlFile SqliteDb) :=
  serial_run XmlFile SqliteDb add_chunk db_add xml_dump from_rpm checksum_file
    header_range checksum_name stat strerror_errno u tasks sh.

(** The state a schedule leads to (the initial state if the schedule
    cannot be run). *)
Definition state_after (u : UserData) (tasks : list PoolTask)
    (max_threads : nat) (sched : list nat) (sh : Shared XmlFile SqliteDb)
  : System XmlFile SqliteDb :=
  default (init XmlFile SqliteDb sh tasks) (pool_run u tasks max_threads sched sh).

(** Three tasks: the first is read from its file, the second is in the old
    metadata, the third is not an rpm.  Two workers.  The worker of task 1
    is the first to finish and leaves its result in the buffer; the worker
    of task 2 fails and waits; the worker of task 0 writes its result, then
    the one of task 1; the worker of task 2 then skips. *)
Definition tasks3 : list PoolTask :=
  [task 0 "/repo/a.rpm" "a.rpm"; task 1 "/repo/b.rpm" "b.rpm";
   task 2 "/repo/broken.rpm" "broken.rpm"].



Definition old3 : gmap string cr_Package := {["b.rpm" := cached "b.rpm" 11]}.

Definition start3 : Shared XmlFile SqliteDb := start true (Some old3).

Definition sched3 : list nat :=
  repeat 1%nat 5 ++ repeat 2%nat 5 ++ repeat 0%nat 14 ++ repeat 2%nat 4.


Definition final3 : System XmlFile SqliteDb :=
  Eval vm_compute in state_after (udata 3 false) tasks3 2 sched3 start3.

(** Two tasks with the same file name [x.rpm] in two directories, both in
    the old metadata under that name, [skip_stat] set.  Worker 0 sets the
    locations of the entry, then worker 1 sets them, then worker 0 dumps
    the entry. *)
Definition tasks_dup : list PoolTask :=
  [task 0 "/repo/a/x.rpm" "x.rpm"; task 1 "/repo/b/x.rpm" "x.rpm"].

Definition old_dup : gmap string cr_Package :=
  {["x.rpm" := cached "x.rpm" 13]}.

Definition start_dup : Shared XmlFile SqliteDb := start false (Some old_dup).

Definition sched_dup : list nat :=
  repeat 0%nat 3 ++ repeat 1%nat 3 ++ repeat 0%nat 7 ++ repeat 1%nat 7.

Definition final_dup : System XmlFile SqliteDb :=
  Eval vm_compute in state_after (udata 2 true) tasks_dup 2 sched_dup start_dup.

Definition serial_dup : Shared XmlFile SqliteDb :=
  Eval vm_compute in default start_dup (serial (udata 2 true) tasks_dup start_dup).

(** Two tasks read from their files, no old metadata; both workers have
    reached [write_pkg] and wait for the primary stream. *)
Definition tasks2 : list PoolTask :=
  [task 0 "/repo/a.rpm" "a.rpm"; task 1 "/repo/b.rpm" "b.rpm"].

Definition waiting2 : System XmlFile SqliteDb :=
  Eval vm_compute in
    state_after (udata 2 false) tasks2 2 (repeat 0%nat 5 ++ repeat 1%nat 5)
      (start false None).

(** Worker 1 of [tasks3] has made its [stat] and stands at line 260. *)
Definition at_update3 : System XmlFile SqliteDb :=
  Eval vm_compute in state_after (udata 3 false) tasks3 2 [1; 1]%nat start3.

(** A package whose insertion fails in every database. *)
Definition nodb : cr_Package :=
  {| pkg_name := "nodb.rpm"; pkg_pkgId := "c0ffee";
     pkg_checksum_type := "sha256"; pkg_location_href := "nodb.rpm";
     pkg_location_base := None; pkg_time_file := 1000; pkg_size_package := 14;
     pkg_rpm_header_start := 96; pkg_rpm_header_end := 4096; pkg_rest := EmptyString |}.

Definition nodb_xml : cr_XmlStruct :=
  {| primary := "<package nodb.rpm>"; filelists := "<files nodb.rpm>";
     other := "<changelog nodb.rpm>" |}.

(** Worker 1 of [tasks3] has left its result in the buffer; nobody else
    has moved. *)
Definition buffered3 : System XmlFile SqliteDb :=
  Eval vm_compute in
    state_after (udata 3 false) tasks3 2 (repeat 1%nat 5) start3.

(** As [final3], stopped when worker 0 has written its primary record. *)
Definition mid3 : System XmlFile SqliteDb :=
  Eval vm_compute in
    state_after (udata 3 false) tasks3 2
      (repeat 1%nat 5 ++ repeat 2%nat 5 ++ repeat 0%nat 6) start3.

(** The two tasks of the same file name, without old metadata. *)
Definition final_dup_fresh : System XmlFile SqliteDb :=
  Eval vm_compute in
    state_after (udata 2 true) tasks_dup 2 sched_dup (start false None).

(** A result for the buffer. *)
Definition buffered (id : Z) : BufferedTask :=
  {| bt_id := id; bt_res := nodb_xml; bt_pkg := FromFile nodb;
     bt_location_href := None; bt_pkg_from_md := false |}.

(** A primary file that refuses every chunk; the two other files take
    theirs. *)
Definition add_chunk_no_primary (f : list string) (c : string)
  : list string * option GError :=
  if String.prefix "<package" c then (f, Some "disk full") else (f ++ [c], None).

Definition tasks1 : list PoolTask := [task 0 "/repo/a.rpm" "a.rpm"].

(** The run of [tasks1] with that primary file. *)
Definition final_no_primary : System XmlFile SqliteDb :=
  Eval vm_compute in
    default (init XmlFile SqliteDb (start false None) tasks1)
      (run XmlFile SqliteDb add_chunk_no_primary db_add xml_dump from_rpm
         checksum_file header_range checksum_name stat strerror_errno
         (udata 1 false) tasks1 1 (repeat 0%nat 10)
         (init XmlFile SqliteDb (start false None) tasks1)).

Lemma dense3 (i : nat) (t : PoolTask) :
  tasks3 !! i = Some t → pt_id t = Z.of_nat i.
Proof. destruct i as [|[|[|i]]]; intros [= <-]; reflexivity. Defined.

Lemma fresh_start (db : bool) (omd : option (gmap string cr_Package)) :
  fresh XmlFile SqliteDb (start db omd).
Proof. split; [by intros []|done]. Defined.

Lemma run3 :
  pool_run (udata 3 false) tasks3 2 sched3 start3 = Some final3.
Proof. vm_compute. reflexivity. Defined.

Lemma returned3 : all_returned XmlFile SqliteDb final3.
Proof. repeat constructor. Defined.

(** Witness of C2. *)
Lemma counters_reach_package_count_witness :
  pool_run (udata 3 false) tasks3 2 sched3 start3 = Some final3 ∧
  all_returned XmlFile SqliteDb final3 ∧
  id_pri _ _ (shared _ _ final3) = 3 ∧ id_fil _ _ (shared _ _ final3) = 3 ∧
  id_oth _ _ (shared _ _ final3) = 3.
Proof.
  split; [exact run3|]. split; [exact returned3|].
  apply (counters_reach_package_count XmlFile SqliteDb add_chunk db_add
           xml_dump from_rpm checksum_file header_range checksum_name stat
             strerror_errno
           (udata 3 false) tasks3 2 dense3 ltac:(vm_compute; discriminate)
           start3 sched3 final3 (fresh_start _ _) run3 returned3).
Defined.


Lemma fits3 : Z.of_nat (length tasks3) ≤ LONG_MAX.
Proof. vm_compute. discriminate. Defined.

Lemma distinct3 : NoDup (pt_filename <$> tasks3).
Proof. apply (bool_decide_unpack _). vm_compute. exact I. Defined.

(** Witness of C1 (as amended). *)
Lemma streams_equal_serial_run_witness :
  ∃ sh_ser, serial (udata 3 false) tasks3 start3 = Some sh_ser ∧
            ∀ s, sink _ _ s (shared _ _ final3) = sink _ _ s sh_ser.
Proof.
  apply (streams_equal_serial_run XmlFile SqliteDb add_chunk db_add
           xml_dump from_rpm checksum_file header_range checksum_name stat
             strerror_errno
           (udata 3 false) tasks3 2 dense3 fits3
           distinct3
           start3 sched3 final3 (fresh_start _ _) run3 returned3).
Defined.

(** Counterexample to C1 as stated: with two tasks of the same file name
    the run under [sched_dup] ends, and its primary stream is not the one
    of the serial run. *)
Lemma streams_differ_on_shared_entry :
  pool_run (udata 2 true) tasks_dup 2 sched_dup start_dup = Some final_dup ∧
  all_returned XmlFile SqliteDb final_dup ∧
  serial (udata 2 true) tasks_dup start_dup = Some serial_dup ∧
  snk_f _ _ (sink _ _ Pri (shared _ _ final_dup))
  = ["<package x.rpm href=b/x.rpm>"; "<package x.rpm href=b/x.rpm>"] ∧
  snk_f _ _ (sink _ _ Pri serial_dup)
  = ["<package x.rpm href=a/x.rpm>"; "<package x.rpm href=b/x.rpm>"] ∧
  snk_f _ _ (sink _ _ Pri (shared _ _ final_dup))
  ≠ snk_f _ _ (sink _ _ Pri serial_dup).
Proof.
  split_and!; [vm_compute; reflexivity|repeat constructor
              |vm_compute; reflexivity|reflexivity|reflexivity|discriminate].
Qed.







(** Witness of C8: worker 1 waits for the primary stream; once worker 0 has
    written its primary record worker 1 writes its own, while worker 0 has
    still to write its filelists record. *)
Lemma write_pkg_streams_in_order_witness :
  step XmlFile SqliteDb add_chunk db_add xml_dump from_rpm checksum_file
    header_range checksum_name stat
      strerror_errno (udata 2 false) tasks2 2 1 waiting2 = None ∧
  ∃ st' resa pka resb pkb,
    run XmlFile SqliteDb add_chunk db_add xml_dump from_rpm checksum_file
      header_range checksum_name stat strerror_errno (udata 2 false) tasks2 2 [0; 1]%nat
      waiting2 = Some st' ∧
    threads _ _ st' !! 0%nat = Some (L_write Fil 0 resa (FromFile pka) Main) ∧
    threads _ _ st' !! 1%nat = Some (L_write Fil 1 resb (FromFile pkb) Main) ∧
    id_pri _ _ (shared _ _ st') = 2 ∧ id_fil _ _ (shared _ _ st') = 0.
Proof.
  edestruct (proj2 (proj2 (proj2 (proj2
              (write_pkg_streams_in_order XmlFile SqliteDb add_chunk db_add
                 xml_dump from_rpm checksum_file header_range checksum_name
                 stat strerror_errno (udata 2 false) tasks2 2)))) waiting2 0%nat 1%nat)
    as [Hwait (st' & Hrun & Ha & Hb & Hpri & Hfil & _)];
    [| reflexivity | reflexivity | reflexivity | reflexivity | reflexivity
     | reflexivity | | |].
  - discriminate.
  - discriminate.
  - reflexivity.
  - split; [exact Hwait|]. eexists st', _, _, _, _.
    split_and!; [exact Hrun|exact Ha|exact Hb|exact Hpri|].
    unfold id_fil. change (fil _ _ ?x) with (sink _ _ Fil x). by rewrite Hfil.
Defined.

(** Witness of C9: each counter was skipped exactly once for task 2, and
    the primary counter stands at the number of its records and skips. *)
Lemma skip_runs_once_per_failed_id_witness :
  skips Pri 2 (events _ _ final3) = 1%nat ∧
  skips Fil 2 (events _ _ final3) = 1%nat ∧
  skips Oth 2 (events _ _ final3) = 1%nat ∧
  snk_id _ _ (sink _ _ Pri (shared _ _ final3))
  = Z.of_nat (length (project (written_id Pri) (events _ _ final3))
              + length (project (skipped_id Pri) (events _ _ final3))).
Proof.
  destruct (skip_runs_once_per_failed_id XmlFile SqliteDb add_chunk db_add
              xml_dump from_rpm checksum_file header_range checksum_name stat
                strerror_errno
              (udata 3 false) tasks3 2 dense3 fits3
              start3 sched3 final3 (fresh_start _ _) run3)
    as (_ & _ & _ & _ & _ & Hall & _ & Hcount & _).
  assert (Hf : failed (events _ _ final3) 2) by (apply failed_failedb; reflexivity).
  split_and!; [apply (Hall returned3); [simpl; lia|exact Hf]..|].
  exact (proj2 (Hcount Pri)).
Defined.

(** Witness of C10: worker 1 stands at line 260 with the result of its
    [stat], and the comparison is defined. *)
Lemma stat_buf_read_only_when_written_witness :
  threads _ _ at_update3 !! 1%nat
  = Some (L_update (Some {| st_mtime := 1000; st_size := 11 |})) ∧
  update_phase (udata 3 false) (old_metadata _ _ (shared _ _ at_update3))
    (task 1 "/repo/b.rpm" "b.rpm") (Some {| st_mtime := 1000; st_size := 11 |})
  ≠ None.
Proof.
  split; [reflexivity|].
  destruct (stat_buf_read_only_when_written XmlFile SqliteDb add_chunk db_add
              xml_dump from_rpm checksum_file header_range checksum_name stat
                strerror_errno
              (udata 3 false) tasks3 2 start3 [1; 1]%nat at_update3
              ltac:(vm_compute; reflexivity))
    as (_ & _ & _ & _ & Hreach).
  apply (Hreach 1%nat); reflexivity.
Defined.

(** C6, the code at the failing input: every database refuses the package;
    the failures on the primary and on the filelists database are logged at
    the critical level, the one on the other database is not logged at all;
    the three counters are advanced all the same. *)
Theorem other_db_failure_is_not_logged :
  (snd <$> write_pkg XmlFile SqliteDb add_chunk db_add 0 nodb_xml nodb
             (start true None))
  = Some [EvAddChunk Pri 0 "<package nodb.rpm>"; EvDbAdd Pri 0 nodb;
          EvLog Critical (CannotAddDb Pri "nodb.rpm" "c0ffee" "constraint failed");
          EvAddChunk Fil 0 "<files nodb.rpm>"; EvDbAdd Fil 0 nodb;
          EvLog Critical (CannotAddDb Fil "nodb.rpm" "c0ffee" "constraint failed");
          EvAddChunk Oth 0 "<changelog nodb.rpm>"; EvDbAdd Oth 0 nodb] ∧
  ((λ r, (id_pri _ _ r.1, id_fil _ _ r.1, id_oth _ _ r.1))
     <$> write_pkg XmlFile SqliteDb add_chunk db_add 0 nodb_xml nodb
           (start true None))
  = Some (1, 1, 1).
Proof. split; reflexivity. Qed.

Lemma dense_dup (i : nat) (t : PoolTask) :
  tasks_dup !! i = Some t → pt_id t = Z.of_nat i.
Proof. destruct i as [|[|i]]; intros [= <-]; reflexivity. Defined.

Lemma fits_dup : Z.of_nat (length tasks_dup) ≤ LONG_MAX.
Proof. vm_compute. discriminate. Defined.

Lemma run_buffered3 :
  pool_run (udata 3 false) tasks3 2 (repeat 1%nat 5) start3 = Some buffered3.
Proof. vm_compute. reflexivity. Defined.

Lemma run_mid3 :
  pool_run (udata 3 false) tasks3 2
    (repeat 1%nat 5 ++ repeat 2%nat 5 ++ repeat 0%nat 6) start3 = Some mid3.
Proof. vm_compute. reflexivity. Defined.

Lemma run_dup_fresh :
  pool_run (udata 2 true) tasks_dup 2 sched_dup (start false None)
  = Some final_dup_fresh.
Proof. vm_compute. reflexivity. Defined.

(** Witness of X2: the package read from [/repo/a.rpm]. *)
Lemma load_rpm_fills_package_witness :
  ∃ pkg,
    lr_pkg (load_rpm from_rpm checksum_file header_range checksum_name stat
      strerror_errno
              "/repo/a.rpm" CR_CHECKSUM_SHA256 None "a.rpm" None 10 None)
    = Some pkg ∧ pkg_pkgId pkg = "c0ffee" ∧ pkg_size_package pkg = 11.
Proof.
  eexists. split.
  - apply (load_rpm_fills_package from_rpm checksum_file header_range
             checksum_name stat
               strerror_errno "/repo/a.rpm" CR_CHECKSUM_SHA256 None "a.rpm"
             None 10 None).
    eexists _, _, _, _. split_and!; [reflexivity|right; split; reflexivity
                                    |reflexivity|reflexivity|reflexivity].
  - split; reflexivity.
Defined.

(** Witness of X4: the result of id 2 goes between those of ids 1 and 3. *)
Lemma buffer_insert_keeps_id_order_witness :
  ∃ q1 q2,
    [buffered 1; buffered 3] = q1 ++ q2 ∧
    g_queue_insert_sorted [buffered 1; buffered 3] (buffered 2)
    = q1 ++ buffered 2 :: q2 ∧
    Forall (λ y, bt_id y < 2) q1 ∧ Forall (λ y, 2 ≤ bt_id y) q2.
Proof.
  apply (buffer_insert_keeps_id_order [buffered 1; buffered 3] (buffered 2)).
  repeat constructor; simpl; lia.
Defined.

(** Witness of X6: the counters while worker 0 is in [write_pkg]. *)
Lemma counters_follow_each_other_witness :
  0 ≤ id_oth _ _ (shared _ _ mid3) ∧
  id_oth _ _ (shared _ _ mid3) ≤ id_fil _ _ (shared _ _ mid3) ∧
  id_fil _ _ (shared _ _ mid3) ≤ id_pri _ _ (shared _ _ mid3) ∧
  id_pri _ _ (shared _ _ mid3) ≤ Z.of_nat (length tasks3).
Proof.
  apply (counters_follow_each_other XmlFile SqliteDb add_chunk db_add
           xml_dump from_rpm checksum_file header_range checksum_name stat
             strerror_errno
           (udata 3 false) tasks3 2 dense3 fits3 start3 _ mid3
           (fresh_start _ _) run_mid3).
Defined.

(** Witness of X7: the primary stream of the run of [tasks3]. *)
Lemma stream_records_in_id_order_witness :
  project (advanced_id Pri) (events _ _ final3)
  = seqZ 0 (snk_id _ _ (sink _ _ Pri (shared _ _ final3))) ∧
  StronglySorted Z.lt (project (written_id Pri) (events _ _ final3)) ∧
  (∀ id, id ∈ project (written_id Pri) (events _ _ final3) →
         0 ≤ id < snk_id _ _ (sink _ _ Pri (shared _ _ final3))).
Proof.
  apply (stream_records_in_id_order XmlFile SqliteDb add_chunk db_add
           xml_dump from_rpm checksum_file header_range checksum_name stat
             strerror_errno
           (udata 3 false) tasks3 2 dense3 fits3 start3 sched3 final3 Pri
           (fresh_start _ _) run3).
Defined.

(** Witness of X8: the buffer that holds the result of task 1. *)
Lemma buffer_is_sorted_and_drained_witness :
  bt_id <$> buffer _ _ (shared _ _ buffered3) = [1] ∧
  StronglySorted (λ a b, bt_id a < bt_id b) (buffer _ _ (shared _ _ buffered3)) ∧
  Z.of_nat (length (buffer _ _ (shared _ _ buffered3))) ≤ 20.
Proof.
  split; [reflexivity|].
  destruct (buffer_is_sorted_and_drained XmlFile SqliteDb add_chunk db_add
              xml_dump from_rpm checksum_file header_range checksum_name stat
                strerror_errno
              (udata 3 false) tasks3 2 dense3 fits3 start3 _ buffered3
              (fresh_start _ _) run_buffered3) as (Hs & Hl & _).
  split; [exact Hs|exact Hl].
Defined.

(** Witness of X9: after worker 1 has left its result in the buffer, some
    worker has a step. *)
Lemma some_worker_can_step_witness :
  ∃ i st',
    step XmlFile SqliteDb add_chunk db_add xml_dump from_rpm checksum_file
      header_range checksum_name stat
        strerror_errno (udata 3 false) tasks3 2 i buffered3
    = Some st'.
Proof.
  apply (some_worker_can_step XmlFile SqliteDb add_chunk db_add
           xml_dump from_rpm checksum_file header_range checksum_name stat
             strerror_errno
           (udata 3 false) tasks3 2 dense3 fits3 start3 _ buffered3
           (fresh_start _ _) run_buffered3).
  - reflexivity.
  - intros Hall. apply Forall_cons in Hall as [Hq _]. discriminate Hq.
  - intros _. vm_compute. lia.
Defined.

(** Witness of X10: the run of [tasks3] has 28 steps. *)
Lemma run_takes_boundedly_many_steps_witness :
  (length sched3 + weight _ _ final3 ≤ 13 * length tasks3)%nat.
Proof.
  apply (run_takes_boundedly_many_steps XmlFile SqliteDb add_chunk db_add
           xml_dump from_rpm checksum_file header_range checksum_name stat
             strerror_errno
           (udata 3 false) tasks3 2 start3 sched3 final3 eq_refl run3).
Defined.

(** Witness of X11: no worker of the run of [tasks3] has called [abort]. *)
Lemma abort_only_on_checksum_failure_witness :
  existsb is_aborted (threads _ _ final3) = false.
Proof.
  apply (proj2 (abort_only_on_checksum_failure XmlFile SqliteDb add_chunk
                  db_add xml_dump from_rpm checksum_file header_range
                  checksum_name stat
                    strerror_errno (udata 3 false) tasks3 2 start3 sched3
                  final3)); [|exact run3].
  intros task pkg0 Hin _ _. exists "c0ffee".
  apply list_elem_of_In in Hin. simpl in Hin.
  destruct Hin as [<-|[<-|[<-|[]]]]; reflexivity.
Defined.

(** Witness of X12: the entry of [b.rpm] after the run of [tasks3]. *)
Lemma old_metadata_keeps_all_but_locations_witness :
  entry (old_metadata _ _ start3) "b.rpm" = Some (cached "b.rpm" 11) ∧
  (pkg_location_href <$> entry (old_metadata _ _ (shared _ _ final3)) "b.rpm")
  = Some "b.rpm" ∧
  match entry (old_metadata _ _ start3) "b.rpm",
        entry (old_metadata _ _ (shared _ _ final3)) "b.rpm" with
  | Some p0, Some p =>
      p = with_loc (pkg_location_href p) (pkg_location_base p) p0 ∧
      ("b.rpm" ∉ pt_filename <$> tasks3 → p = p0)
  | None, None => True
  | _, _ => False
  end.
Proof.
  split; [vm_compute; reflexivity|]. split; [vm_compute; reflexivity|].
  apply (proj2 (old_metadata_keeps_all_but_locations XmlFile SqliteDb
                  add_chunk db_add xml_dump from_rpm checksum_file
                  header_range checksum_name stat
                    strerror_errno (udata 3 false) tasks3 2
                  start3 sched3 final3 run3) "b.rpm").
Defined.

(** Witness of X13: the primary stream when worker 0 has written its
    primary record is the one of the serial run on task 0. *)
Lemma streams_are_serial_prefixes_witness :
  snk_id _ _ (sink _ _ Pri (shared _ _ mid3)) = 1 ∧
  ∃ sh_ser,
    serial (udata 3 false)
      (take (Z.to_nat (snk_id _ _ (sink _ _ Pri (shared _ _ mid3)))) tasks3)
      start3 = Some sh_ser ∧
    sink _ _ Pri (shared _ _ mid3) = sink _ _ Pri sh_ser.
Proof.
  split; [reflexivity|].
  apply (streams_are_serial_prefixes XmlFile SqliteDb add_chunk db_add
           xml_dump from_rpm checksum_file header_range checksum_name stat
             strerror_errno
           (udata 3 false) tasks3 2 start3 _ mid3 Pri dense3 fits3 distinct3
           (fresh_start _ _) run_mid3).
Defined.

(** Witness of X14: the two tasks of the same file name, without old
    metadata: the run ends with the streams of the serial run. *)
Lemma streams_equal_serial_run_without_old_metadata_witness :
  ∃ sh_ser,
    serial (udata 2 true) tasks_dup (start false None) = Some sh_ser ∧
    ∀ s, sink _ _ s (shared _ _ final_dup_fresh) = sink _ _ s sh_ser.
Proof.
  apply (proj2 (streams_equal_serial_run_without_old_metadata XmlFile SqliteDb
                  add_chunk db_add xml_dump from_rpm checksum_file
                  header_range checksum_name stat
                    strerror_errno (udata 2 true) tasks_dup 2
                  (start false None) sched_dup final_dup_fresh dense_dup
                  fits_dup eq_refl (fresh_start _ _) run_dup_fresh)).
  repeat constructor.
Defined.

(** Witness of X15: a run of [tasks3] in which every worker returns. *)
Lemma complete_run_exists_witness :
  ∃ sched st,
    pool_run (udata 3 false) tasks3 2 sched start3 = Some st ∧
    all_returned XmlFile SqliteDb st.
Proof.
  apply (complete_run_exists XmlFile SqliteDb add_chunk db_add
           xml_dump from_rpm checksum_file header_range checksum_name stat
             strerror_errno
           (udata 3 false) tasks3 2 dense3 fits3 start3 (fresh_start _ _)).
  - lia.
  - intros task Hin. apply list_elem_of_In in Hin. simpl in Hin.
    destruct Hin as [<-|[<-|[<-|[]]]]; vm_compute; discriminate.
Defined.

(** Witness of X16: task 2 of [tasks3] is reported as failed, and its
    extraction fails on the table the run started with. *)
Lemma failures_do_not_depend_on_schedule_witness :
  failed (events _ _ final3) 2 ↔
  outcome_of xml_dump from_rpm checksum_file header_range checksum_name stat
    strerror_errno
    (udata 3 false) (old_metadata _ _ start3)
    (task 2 "/repo/broken.rpm" "broken.rpm") = Some LoadFailed.
Proof.
  destruct (failures_do_not_depend_on_schedule XmlFile SqliteDb add_chunk
              db_add xml_dump from_rpm checksum_file header_range
              checksum_name stat strerror_errno (udata 3 false) tasks3 2 dense3 fits3
              start3 sched3 final3 2%nat
              (task 2 "/repo/broken.rpm" "broken.rpm")
              distinct3 (fresh_start _ _) run3 eq_refl) as (_ & _ & Hiff).
  exact (Hiff returned3).
Defined.

(** Witness of X17: the ids that have still to pass the primary counter
    when worker 0 has written its primary record. *)
Lemma every_pending_id_is_held_once_witness :
  pending Pri (threads _ _ mid3) (buffer _ _ (shared _ _ mid3))
  ≡ₚ seqZ (snk_id _ _ (sink _ _ Pri (shared _ _ mid3)))
       (Z.of_nat (length tasks3) - snk_id _ _ (sink _ _ Pri (shared _ _ mid3))).
Proof.
  apply (every_pending_id_is_held_once XmlFile SqliteDb add_chunk db_add
           xml_dump from_rpm checksum_file header_range checksum_name stat
             strerror_errno
           (udata 3 false) tasks3 2 dense3 fits3 start3 _ mid3 Pri
           (fresh_start _ _) run_mid3).
Defined.

(** The append of the primary record fails: the record was handed over
    once and no failure of the task is reported, the primary file is empty,
    the two other files have their record, the failure is logged at the
    critical level and the three counters are at 1. *)
Lemma failed_append_leaves_no_record :
  run XmlFile SqliteDb add_chunk_no_primary db_add xml_dump from_rpm
    checksum_file header_range checksum_name stat strerror_errno
    (udata 1 false) tasks1 1 (repeat 0%nat 10)
    (init XmlFile SqliteDb (start false None) tasks1)
  = Some final_no_primary ∧
  all_returned XmlFile SqliteDb final_no_primary ∧
  records Pri 0 (events _ _ final_no_primary) = 1%nat ∧
  failedb (events _ _ final_no_primary) 0 = false ∧
  snk_f _ _ (sink _ _ Pri (shared _ _ final_no_primary)) = [] ∧
  snk_f _ _ (sink _ _ Fil (shared _ _ final_no_primary)) = ["<files a.rpm>"] ∧
  snk_f _ _ (sink _ _ Oth (shared _ _ final_no_primary)) = ["<changelog a.rpm>"] ∧
  (0%nat, EvLog Critical
            (CannotAddChunk Pri "<package a.rpm href=a.rpm>" "disk full"))
    ∈ events _ _ final_no_primary ∧
  (id_pri _ _ (shared _ _ final_no_primary),
   id_fil _ _ (shared _ _ final_no_primary),
   id_oth _ _ (shared _ _ final_no_primary)) = (1, 1, 1).
Proof.
  split_and!; try reflexivity.
  - repeat constructor.
  - apply list_elem_of_In. vm_compute. tauto.
Qed.

End Demo.
